(** * GeomecFVLib: the benchmark drivers and their use of the solver pipeline

    The repository's sources are the benchmark drivers (benchmarking.hpp:
    [sealedColumn], [terzaghi], [mandel], [convergence], [stripfoot],
    [terzaghiDouble], [stripfootDouble], [sealedDouble], [storageDouble],
    [leakingDouble]) and two [main] programs.  The classes the drivers
    call ([gridDesign], [problemParameters], [problemDoubleParameters],
    [coefficientsAssembly], [independentTermsAssembly],
    [linearSystemSolver], [dataProcessing], [doubleDataProcessing]) are
    included by the drivers but their code is not among the sources.

    The embedding follows that split.  A driver is a program over the
    method calls it makes on those objects: each call is a command, the
    answer of the absent class is supplied by a [world] (a function of
    the history of calls so far), and a run yields the driver's return
    code together with the trace of calls and answers.  Theorems about a
    driver hold for every world unless a hypothesis says otherwise.

    Numbers: [int] is [Z] (signed overflow is undefined behaviour in C++
    and is outside the model), integer division is [Z.quot].  [double] is
    a carrier [D] with the operations the sources use ([DoubleOps]); no
    law of arithmetic is assumed on it, so what is proved holds for IEEE
    binary64 as for exact arithmetic.  The instance over [Q] is used to
    evaluate the model on concrete inputs.  Console output ([cout]) is
    not modelled. *)

From Stdlib Require Import ZArith QArith String List Bool Lia.
Import ListNotations.
Close Scope Q_scope.
Local Open Scope Z_scope.

Set Implicit Arguments.

(** ** Arithmetic on [double] *)

Class DoubleOps (D : Type) : Type := {
  dofZ : Z -> D;          (* conversion of an int or of an integral literal *)
  dadd : D -> D -> D;
  dsub : D -> D -> D;
  dmul : D -> D -> D;
  ddiv : D -> D -> D;
  dneg : D -> D
}.

Declare Scope double_scope.
Delimit Scope double_scope with dbl.
Notation "x + y" := (dadd x y) : double_scope.
Notation "x - y" := (dsub x y) : double_scope.
Notation "x * y" := (dmul x y) : double_scope.
Notation "x / y" := (ddiv x y) : double_scope.
Notation "- x" := (dneg x) : double_scope.
Notation "# z" := (dofZ z) (at level 1, format "# z") : double_scope.

(** A decimal literal [m / 10^k], such as [0.25] or [0.10]. *)
Definition decimal {D} `{DoubleOps D} (m : Z) (k : nat) : D :=
  (#m / #(10 ^ Z.of_nat k))%dbl.

#[global] Instance DoubleOps_Q : DoubleOps QArith_base.Q := {
  dofZ := inject_Z;
  dadd := Qplus;
  dsub := Qminus;
  dmul := Qmult;
  ddiv := Qdiv;
  dneg := Qopp
}.

Definition PetscErrorCode := Z.

(** [vector<vector<int>>] and [vector<vector<double>>]. *)
Definition intTable := list (list Z).
Definition table (D : Type) := list (list D).

(** ** The data the drivers exchange with the classes *)

(** [struct poroelasticProperties]. *)
Record poroelasticProperties (D : Type) : Type := {
  pairName : string;
  shearModulus : D;
  bulkModulus : D;
  porosity : D;
  permeability : D;
  macroPorosity : D;
  macroPermeability : D;
  solidBulkModulus : D;
  solidDensity : D;
  fluidBulkModulus : D;
  fluidViscosity : D;
  fluidDensity : D
}.

(** Each class is a module: [public] holds the members the drivers read,
    [method] the constructor and the methods the drivers call, indexed by
    what the call gives back. *)

Module gridDesign.
Record public (D : Type) : Type := {
  numberOfActiveUDisplacementFV : Z;
  numberOfActiveVDisplacementFV : Z;
  numberOfActiveGeneralFV : Z;
  dx : D;
  dy : D;
  dt : D;
  h : D;
  uDisplacementFVIndex : intTable;
  vDisplacementFVIndex : intTable;
  generalFVIndex : intTable;
  uDisplacementFVCoordinates : intTable;
  vDisplacementFVCoordinates : intTable;
  generalFVCoordinates : intTable;
  horizontalFacesStatus : intTable;
  verticalFacesStatus : intTable;
  uDisplacementField : table D;
  vDisplacementField : table D;
  pressureField : table D
}.
Inductive method (D : Type) : Type -> Type :=
| new (Nx Ny Nt : Z) (Lx Ly Lt : D) (gridType : string)
      (sCoordinates : table D) : method D (public D).
End gridDesign.

Module problemParameters.
Record public (D : Type) : Type := {
  Q : D;
  alpha : D;
  M : D;
  c : D;
  dt_vv : D;
  dt_carlos : D;
  P0 : D;
  uDisplacementField : table D;
  vDisplacementField : table D;
  pressureField : table D
}.
Inductive method (D : Type) : Type -> Type :=
| new (dx dy K phi rho_s c_s mu_f rho_f c_f G lambda sigmab Lx Ly : D)
      (uField vField pField : table D)
      (cooU cooV cooP idU idV idP : intTable) (g : D) : method D unit
| applySealedColumnInitialConditions : method D unit
| applyTerzaghiInitialConditions : method D unit
| applyMandelInitialConditions : method D unit
| read : method D (public D).
End problemParameters.
Arguments problemParameters.applySealedColumnInitialConditions {D}.
Arguments problemParameters.applyTerzaghiInitialConditions {D}.
Arguments problemParameters.applyMandelInitialConditions {D}.
Arguments problemParameters.read {D}.

Module problemDoubleParameters.
Record public (D : Type) : Type := {
  psiPore : D;
  psiFrac : D;
  alpha : D;
  S11 : D;
  S12 : D;
  S22 : D;
  consolCoef : D;
  vDisplacementField : table D;
  pressurePoreField : table D;
  pressureFracField : table D
}.
Inductive method (D : Type) : Type -> Type :=
| new (phiPore phiFrac c_f c_s G lambda mu_f KPore KFrac sigmab : D)
      (cooV idV : intTable) : method D unit
| applyDoublePoreInitialConditions (dy Ly : D)
      (vField pPoreField pFracField : table D) : method D unit
| computeLeakTerm (n : Z) : method D D
| read : method D (public D).
End problemDoubleParameters.
Arguments problemDoubleParameters.computeLeakTerm {D} n.
Arguments problemDoubleParameters.read {D}.

Module coefficientsAssembly.
Record public (D : Type) : Type := {
  coefficientsMatrix : table D;
  sparseCoefficientsRow : list D;
  sparseCoefficientsColumn : list D;
  sparseCoefficientsValue : list D
}.
Inductive method (D : Type) : Type -> Type :=
| new (bcType : intTable) (Nu Nv NP : Z)
      (idU idV idP cooU cooV cooP horFaceStatus verFaceStatus : intTable)
      (gridType interpScheme : string) : method D unit
| assemblyCoefficientsMatrix
      (dx dy dt G lambda alpha K mu_f Q rho g : D) : method D unit
| assemblyMandelCoefficientsMatrix (dx dy G lambda alpha : D) : method D unit
| assemblySparseMatrix (coefficientsMatrix : table D) : method D unit
| addStripfootBC (stripSize : Z) (K mu_f : D) : method D unit
| addMacroStripfootBC (stripSize : Z) (KFrac mu_f : D) : method D unit
| assemblyDoublePorosityMatrix
      (dx dy dt G lambda alpha KPore KFrac mu_f S11 S12 S22
       psiPore psiFrac leak : D) : method D unit
| read : method D (public D).
End coefficientsAssembly.
Arguments coefficientsAssembly.new {D}.
Arguments coefficientsAssembly.read {D}.

Module independentTermsAssembly.
Inductive method (D : Type) : Type -> Type :=
| new (bcType : intTable) (bcValue : table D) (Nu Nv NP : Z)
      (idU idV idP cooU cooV cooP horFaceStatus verFaceStatus : intTable)
      (gridType interpScheme : string) : method D unit
| increaseMandelIndependentTermsArray : method D unit
| increaseMacroIndependentTermsArray : method D unit
| assemblyIndependentTermsArray
      (dx dy dt G lambda alpha K mu_f Q rho g : D)
      (uField vField pField : table D) (timeStep : Z) : method D unit
| assemblyMandelIndependentTermsArray (forceb Lx : D) : method D unit
| addStripfootBC (stripSize : Z) (dx sigmab : D) : method D unit
| addMacroStripfootBC (stripSize : Z) (dx sigmab : D) : method D unit
| assemblyMacroIndependentTermsArray
      (dx dy dt G lambda alpha KPore mu_f S11 Q rho : D)
      (uField vField pPoreField pFracField : table D) (timeStep : Z)
      (phiPore phiFrac KFrac S12 S22 : D) : method D unit
| independentTermsArray : method D (list D).
End independentTermsAssembly.
Arguments independentTermsAssembly.increaseMandelIndependentTermsArray {D}.
Arguments independentTermsAssembly.increaseMacroIndependentTermsArray {D}.
Arguments independentTermsAssembly.independentTermsArray {D}.

Module linearSystemSolver.
Inductive method (D : Type) : Type -> Type :=
| new (coefficientsMatrix : table D)
      (sparseCoefficientsRow sparseCoefficientsColumn
       sparseCoefficientsValue : list D)
      (uField vField pField : table D) (Nu Nv NP Nt : Z)
      (idU idV idP cooU cooV cooP : intTable) : method D unit
| createMacroPressureField (pFracField : table D) : method D unit
| coefficientsMatrixLUFactorization : method D PetscErrorCode
| createPETScArrays : method D PetscErrorCode
| zeroPETScArrays : method D PetscErrorCode
| setRHSValue (independentTermsArray : list D) : method D PetscErrorCode
| solveLinearSystem : method D PetscErrorCode
| setFieldValue (timeStep : Z) : method D PetscErrorCode
| setMacroFieldValue (timeStep : Z) : method D PetscErrorCode
| uField : method D (table D)
| vField : method D (table D)
| pField : method D (table D)
| pMField : method D (table D).
End linearSystemSolver.
Arguments linearSystemSolver.coefficientsMatrixLUFactorization {D}.
Arguments linearSystemSolver.createPETScArrays {D}.
Arguments linearSystemSolver.zeroPETScArrays {D}.
Arguments linearSystemSolver.solveLinearSystem {D}.
Arguments linearSystemSolver.setFieldValue {D} timeStep.
Arguments linearSystemSolver.setMacroFieldValue {D} timeStep.
Arguments linearSystemSolver.uField {D}.
Arguments linearSystemSolver.vField {D}.
Arguments linearSystemSolver.pField {D}.
Arguments linearSystemSolver.pMField {D}.

(** [dataProcessing] and [doubleDataProcessing].  An export call is kept
    as the method's name, its [double] arguments in the order of the
    source, the time-step index and the pair name. *)
Module dataProcessing.
(* [new] constructs a [dataProcessing], [newDouble] a
   [doubleDataProcessing]. *)
Inductive exportMethod : Type :=
| exportSealedColumnAnalyticalSolution
| exportSealedColumnNumericalSolution
| exportTerzaghiAnalyticalSolution
| exportTerzaghiNumericalSolution
| exportMandelAnalyticalSolution
| exportMandelNumericalSolution
| exportStripfootTSolution
| exportStripfootHSolution
| exportMacroPressureHSolution
| exportMacroPressureTSolution
| exportSealedDoubleAnalyticalSolution
| exportSealedDoubleNumericalSolution
| exportDrainedDoubleNumericalSolution
| exportStorageAnalyticalSolution
| exportLeakingAnalyticalSolution.
Inductive method (D : Type) : Type -> Type :=
| new (idU idV idP : intTable)
      (uField vField pField : table D) (gridType interpScheme : string)
      (dx dy : D) : method D unit
| newDouble (idU idV idP : intTable)
      (uField vField pField : table D) (gridType interpScheme : string)
      (dx dy : D) : method D unit
| storeMacroPressure3DField (idP : intTable) (pFracField : table D)
    : method D unit
| findMandelRoots
      (initialPressure forceb Lx alpha longitudinalModulus lambda Q : D)
    : method D unit
| getTerzaghiErrorNorm
      (dy dt h Ly initialPressure consolidationCoefficient alpha
       longitudinalModulus sigmab Q rho g rho_f : D) : method D unit
| myErrorNorm : method D (D * D)
| export (m : exportMethod) (doubles : list D) (timeStep : Z)
      (pairName : string) : method D unit.
End dataProcessing.
Arguments dataProcessing.myErrorNorm {D}.

(** What [main] uses besides a driver: the properties file, PETSc's
    start and end, and the run-information exports. *)
Module runtime.
Inductive method (D : Type) : Type -> Type :=
| ifstream_open (path : string) : method D bool
| getline : method D string
| extract_double : method D D
| close : method D unit
| PetscInitialize : method D PetscErrorCode
| PetscFinalize : method D PetscErrorCode
| createSolveRunInfo (gridType interpScheme problemName : string)
    : method D unit
| exportSolveRunInfo (dt : D) (problemName : string) : method D unit.
End runtime.
Arguments runtime.ifstream_open {D} path.
Arguments runtime.getline {D}.
Arguments runtime.extract_double {D}.
Arguments runtime.close {D}.
Arguments runtime.PetscInitialize {D}.
Arguments runtime.PetscFinalize {D}.
Arguments runtime.createSolveRunInfo {D} gridType interpScheme problemName.

(** ** Commands, events, programs *)

(** A command names the object the driver holds (as its local variable is
    called in the source) and the method called on it. *)
Inductive Cmd (D : Type) : Type -> Type :=
| myGrid {X} (m : gridDesign.method D X) : Cmd D X
| myProblem {X} (m : problemParameters.method D X) : Cmd D X
| myDoubleProblem {X} (m : problemDoubleParameters.method D X) : Cmd D X
| myCoefficients {X} (m : coefficientsAssembly.method D X) : Cmd D X
| myIndependentTerms {X} (m : independentTermsAssembly.method D X) : Cmd D X
| myLinearSystemSolver {X} (m : linearSystemSolver.method D X) : Cmd D X
| myDataProcessing {X} (m : dataProcessing.method D X) : Cmd D X
| sys {X} (m : runtime.method D X) : Cmd D X.

(** An event: a call and what it gave back. *)
Inductive event (D : Type) : Type :=
| Ev {X : Type} (c : Cmd D X) (x : X).

Inductive Prog (D R : Type) : Type :=
| Ret (r : R)
| Vis {X : Type} (c : Cmd D X) (k : X -> Prog D R).

Arguments Ret {D R} r.
Arguments Vis {D R X} c k.

(** What a C++ function body yields at a point: control goes on with a
    value, or the function has returned ([CHKERRQ] on a non-zero code). *)
Inductive outcome (A : Type) : Type :=
| Normal (a : A)
| Return (ierr : PetscErrorCode).

Arguments Normal {A} a.
Arguments Return {A} ierr.

Section Programs.
Context {D : Type}.

Fixpoint bind {A B} (p : Prog D A) (f : A -> Prog D B) : Prog D B :=
  match p with
  | Ret a => f a
  | Vis c k => Vis c (fun x => bind (k x) f)
  end.

(** Sequencing inside a function body: nothing runs after a return. *)
Definition seq {A B} (p : Prog D (outcome A)) (f : A -> Prog D (outcome B))
  : Prog D (outcome B) :=
  bind p (fun o => match o with
                   | Normal a => f a
                   | Return e => Ret (Return e)
                   end).

Definition call {X} (c : Cmd D X) : Prog D (outcome X) :=
  Vis c (fun x => Ret (Normal x)).

(** PETSc's [CHKERRQ(ierr)]: return the code when it is not zero. *)
Definition CHKERRQ (ierr : PetscErrorCode) : Prog D (outcome unit) :=
  if ierr =? 0 then Ret (Normal tt) else Ret (Return ierr).

(** The value a function body hands to its caller. *)
Definition returned (o : outcome PetscErrorCode) : PetscErrorCode :=
  match o with Normal e => e | Return e => e end.

Definition function (body : Prog D (outcome PetscErrorCode))
  : Prog D PetscErrorCode :=
  bind body (fun o => Ret (returned o)).

(** A call of another function of the program, as a statement. *)
Definition callee {R} (p : Prog D R) : Prog D (outcome R) :=
  bind p (fun r => Ret (Normal r)).

(** [exit(status)]: the program ends with that status. *)
Definition exit {A} (status : Z) : Prog D (outcome A) := Ret (Return status).

(** [for(timeStep=t0; ...; timeStep++)] run [n] times, carrying the
    locals the body assigns. *)
Fixpoint forLoop {S} (n : nat) (timeStep : Z)
         (body : Z -> S -> Prog D (outcome S)) (s : S)
  : Prog D (outcome S) :=
  match n with
  | O => Ret (Normal s)
  | Datatypes.S n' =>
      seq (body timeStep s) (fun s' => forLoop n' (timeStep + 1) body s')
  end.

(** [for(int i=0; i<v.size(); i++)] over the entries [v[i]]. *)
Fixpoint forEach {A} (v : list A) (body : A -> Prog D (outcome unit))
  : Prog D (outcome unit) :=
  match v with
  | [] => Ret (Normal tt)
  | a :: v' => seq (body a) (fun _ => forEach v' body)
  end.

(** A world answers every call, knowing the history of the run. *)
Definition world : Type := forall X : Type, list (event D) -> Cmd D X -> X.

Fixpoint exec (w : world) {R} (p : Prog D R) (h : list (event D))
  : R * list (event D) :=
  match p with
  | Ret r => (r, h)
  | Vis c k => let x := w _ h c in exec w (k x) (h ++ [Ev c x])
  end.

Definition run_result (w : world) {R} (p : Prog D R) : R := fst (exec w p []).
Definition run_trace (w : world) {R} (p : Prog D R) : list (event D) :=
  snd (exec w p []).
End Programs.

Declare Scope prog_scope.
Delimit Scope prog_scope with prog.
Notation "x <- p ;; k" := (seq p (fun x => k))
  (at level 61, p at next level, right associativity) : prog_scope.
Notation "' pat <- p ;; k" := (seq p (fun x => match x with pat => k end))
  (at level 61, pat pattern, p at next level, right associativity) : prog_scope.
Notation "p ;; k" := (seq p (fun _ => k))
  (at level 61, right associativity) : prog_scope.

(** [v.clear()] and [v.push_back(x)] on a [vector]. *)
Definition clear {A} (v : list A) : list A := [].
Definition push_back {A} (v : list A) (x : A) : list A := v ++ [x].

(** ** The drivers (benchmarking.hpp) *)

Section Drivers.
Context {D : Type} {ops : DoubleOps D}.
Local Open Scope Z_scope.
Local Open Scope prog_scope.

(** The locals the time loop assigns: [ierr] and the field arrays. *)
Definition fields : Type := (table D * table D * table D)%type.
Definition doubleFields : Type :=
  (table D * table D * table D * table D)%type.

(** The export lists.  [v.clear(); v.push_back(1)] under [if(Nt==2)]
    replaces the list by the single step 1. *)
Definition exportedTimeSteps_sealedColumn (Nt : Z) : list Z :=
  [1; (Nt - 1) ÷ 8; (Nt - 1) ÷ 2; Nt - 1].

(** [terzaghi], [stripfoot], [terzaghiDouble], [stripfootDouble]. *)
Definition exportedTimeSteps_eighth (Nt : Z) : list Z :=
  let exportedTimeSteps := [1; (Nt - 1) ÷ 8; (Nt - 1) ÷ 2; Nt - 1] in
  if Nt =? 2 then push_back (clear exportedTimeSteps) 1
  else exportedTimeSteps.

Definition exportedTimeSteps_mandel (Nt : Z) : list Z :=
  let exportedTimeSteps := [1; (Nt - 1) ÷ 16; (Nt - 1) ÷ 4; Nt - 1] in
  if Nt =? 2 then push_back (clear exportedTimeSteps) 1
  else exportedTimeSteps.

Definition exportedTimeSteps_sealedDouble (Nt : Z) : list Z :=
  let exportedTimeSteps := [Nt - 1] in
  if Nt =? 2 then push_back (clear exportedTimeSteps) 1
  else exportedTimeSteps.

Definition exportedTimeSteps_storageDouble (Nt : Z) : list Z :=
  let exportedTimeSteps := [1; 2; 3; 4; 125; 250; 500] in
  if Nt =? 2 then push_back (clear exportedTimeSteps) 1
  else exportedTimeSteps.

Definition exportedTimeSteps_leakingDouble (Nt : Z) : list Z :=
  let exportedTimeSteps := [1; 62; 125; 500] in
  if Nt =? 2 then push_back (clear exportedTimeSteps) 1
  else exportedTimeSteps.

(** [int sealedColumn(...)]. *)
Definition sealedColumn (gridType interpScheme : string) (Nt meshSize : Z)
    (Lt g sigmab : D) (myProperties : poroelasticProperties D)
  : Prog D PetscErrorCode :=
  function (
    (* ENTRY PARAMETERS *)
    let Nx := meshSize in
    let Ny := 6 * meshSize in
    let Lx : D := (#1)%dbl in
    let Ly : D := (#6)%dbl in
    let sCoordinates : table D :=
      [[Lx; Ly]; [#0; Ly]; [#0; #0]; [Lx; #0]]%dbl in
    let pairName := pairName myProperties in
    let G := shearModulus myProperties in
    let lambda := (bulkModulus myProperties - #2 * G / #3)%dbl in
    let phi := porosity myProperties in
    let K := permeability myProperties in
    let c_s := (#1 / solidBulkModulus myProperties)%dbl in
    let rho_s := solidDensity myProperties in
    let c_f := (#1 / fluidBulkModulus myProperties)%dbl in
    let rho_f := fluidDensity myProperties in
    let mu_f := fluidViscosity myProperties in
    let bcType : intTable :=
      [[-1; -1; 0]; [1; -1; -1]; [-1; 1; 0]; [1; -1; -1]] in
    let bcValue : table D :=
      [[#0; sigmab; rho_f * g]; [#0; #0; #0]; [#0; #0; rho_f * g]; [#0; #0;
        #0]]%dbl in
    (* GRID CREATION *)
    grid <- call (myGrid
      (gridDesign.new Nx Ny Nt Lx Ly Lt gridType sCoordinates)) ;;
    let Nu := gridDesign.numberOfActiveUDisplacementFV grid in
    let Nv := gridDesign.numberOfActiveVDisplacementFV grid in
    let NP := gridDesign.numberOfActiveGeneralFV grid in
    let dx := gridDesign.dx grid in
    let dy := gridDesign.dy grid in
    let dt := gridDesign.dt grid in
    let h := gridDesign.h grid in
    let idU := gridDesign.uDisplacementFVIndex grid in
    let idV := gridDesign.vDisplacementFVIndex grid in
    let idP := gridDesign.generalFVIndex grid in
    let cooU := gridDesign.uDisplacementFVCoordinates grid in
    let cooV := gridDesign.vDisplacementFVCoordinates grid in
    let cooP := gridDesign.generalFVCoordinates grid in
    let horFaceStatus := gridDesign.horizontalFacesStatus grid in
    let verFaceStatus := gridDesign.verticalFacesStatus grid in
    let uField := gridDesign.uDisplacementField grid in
    let vField := gridDesign.vDisplacementField grid in
    let pField := gridDesign.pressureField grid in
    (* PROBLEM PARAMETERS CALCULATION *)
    call (myProblem (problemParameters.new dx dy K phi rho_s c_s mu_f
      rho_f c_f G lambda sigmab Lx Ly uField vField pField cooU cooV cooP
      idU idV idP g)) ;;
    call (myProblem problemParameters.applySealedColumnInitialConditions) ;;
    problem <- call (myProblem problemParameters.read) ;;
    let Q := problemParameters.Q problem in
    let alpha := problemParameters.alpha problem in
    let storageCoefficient := (#1 / Q)%dbl in
    let longitudinalModulus := problemParameters.M problem in
    let consolidationCoefficient := problemParameters.c problem in
    let minimumTimeStepVerruijt := problemParameters.dt_vv problem in
    let dt_carlos := problemParameters.dt_carlos problem in
    let rho := (phi * rho_f + (#1 - phi) * rho_s)%dbl in
    let initialPressure := problemParameters.P0 problem in
    let uField := problemParameters.uDisplacementField problem in
    let vField := problemParameters.vDisplacementField problem in
    let pField := problemParameters.pressureField problem in
    (* LINEAR SYSTEM'S COEFFICIENTS MATRIX ASSEMBLY *)
    call (myCoefficients (coefficientsAssembly.new bcType Nu Nv NP idU idV
      idP cooU cooV cooP horFaceStatus verFaceStatus gridType
      interpScheme)) ;;
    call (myCoefficients (coefficientsAssembly.assemblyCoefficientsMatrix
      dx dy dt G lambda alpha K mu_f Q rho g)) ;;
    coefficients <- call (myCoefficients coefficientsAssembly.read) ;;
    let coefficientsMatrix :=
      coefficientsAssembly.coefficientsMatrix coefficients in
    let sparseCoefficientsRow :=
      coefficientsAssembly.sparseCoefficientsRow coefficients in
    let sparseCoefficientsColumn :=
      coefficientsAssembly.sparseCoefficientsColumn coefficients in
    let sparseCoefficientsValue :=
      coefficientsAssembly.sparseCoefficientsValue coefficients in
    (* LINEAR SYSTEM SOLVER *)
    call (myIndependentTerms (independentTermsAssembly.new bcType bcValue
      Nu Nv NP idU idV idP cooU cooV cooP horFaceStatus verFaceStatus
      gridType interpScheme)) ;;
    call (myLinearSystemSolver (linearSystemSolver.new coefficientsMatrix
      sparseCoefficientsRow sparseCoefficientsColumn
      sparseCoefficientsValue uField vField pField Nu Nv NP Nt idU idV idP
      cooU cooV cooP)) ;;
    ierr <- call (myLinearSystemSolver
      linearSystemSolver.coefficientsMatrixLUFactorization) ;;
    CHKERRQ ierr ;;
    ierr <- call (myLinearSystemSolver
      linearSystemSolver.createPETScArrays) ;;
    CHKERRQ ierr ;;
    ierr <- call (myLinearSystemSolver linearSystemSolver.zeroPETScArrays) ;;
    CHKERRQ ierr ;;
    '(ierr, (uField, vField, pField)) <-
      forLoop (Z.to_nat (Nt - 1)) 0
        (fun timeStep '(ierr, (uField, vField, pField)) =>
          call (myIndependentTerms
            (independentTermsAssembly.assemblyIndependentTermsArray dx dy dt
              G lambda alpha K mu_f Q rho g uField vField pField
              timeStep)) ;;
          independentTermsArray <- call (myIndependentTerms
            independentTermsAssembly.independentTermsArray) ;;
          ierr <- call (myLinearSystemSolver
            linearSystemSolver.zeroPETScArrays) ;;
          CHKERRQ ierr ;;
          ierr <- call (myLinearSystemSolver
            (linearSystemSolver.setRHSValue independentTermsArray)) ;;
          CHKERRQ ierr ;;
          ierr <- call (myLinearSystemSolver
            linearSystemSolver.solveLinearSystem) ;;
          CHKERRQ ierr ;;
          ierr <- call (myLinearSystemSolver
            (linearSystemSolver.setFieldValue (timeStep + 1))) ;;
          CHKERRQ ierr ;;
          uField <- call (myLinearSystemSolver linearSystemSolver.uField) ;;
          vField <- call (myLinearSystemSolver linearSystemSolver.vField) ;;
          pField <- call (myLinearSystemSolver linearSystemSolver.pField) ;;
          ierr <- call (myLinearSystemSolver
            linearSystemSolver.zeroPETScArrays) ;;
          CHKERRQ ierr ;;
          Ret (Normal (ierr, (uField, vField, pField))))
        (ierr, (uField, vField, pField)) ;;
    (* DATA PROCESSING *)
    let exportedTimeSteps := exportedTimeSteps_sealedColumn Nt in
    call (myDataProcessing (dataProcessing.new idU idV idP uField vField
      pField gridType interpScheme dx dy)) ;;
    forEach exportedTimeSteps (fun timeStep =>
      call (myDataProcessing (dataProcessing.export
        dataProcessing.exportSealedColumnAnalyticalSolution [Ly; alpha; Q;
        rho; g; rho_f; longitudinalModulus; sigmab; dt;
        consolidationCoefficient]%dbl timeStep pairName)) ;;
      call (myDataProcessing (dataProcessing.export
        dataProcessing.exportSealedColumnNumericalSolution [dy; dt; Ly]%dbl
        timeStep pairName))) ;;
    Ret (Normal ierr)).

(** [int terzaghi(...)]. *)
Definition terzaghi (gridType interpScheme : string) (Nt meshSize : Z)
    (Lt g sigmab : D) (myProperties : poroelasticProperties D)
  : Prog D PetscErrorCode :=
  function (
    (* ENTRY PARAMETERS *)
    let Nx := meshSize in
    let Ny := 6 * meshSize in
    let Lx : D := (#1)%dbl in
    let Ly : D := (#6)%dbl in
    let sCoordinates : table D :=
      [[Lx; Ly]; [#0; Ly]; [#0; #0]; [Lx; #0]]%dbl in
    let pairName := pairName myProperties in
    let G := shearModulus myProperties in
    let lambda := (bulkModulus myProperties - #2 * G / #3)%dbl in
    let phi := porosity myProperties in
    let K := permeability myProperties in
    let c_s := (#1 / solidBulkModulus myProperties)%dbl in
    let rho_s := solidDensity myProperties in
    let c_f := (#1 / fluidBulkModulus myProperties)%dbl in
    let rho_f := fluidDensity myProperties in
    let mu_f := fluidViscosity myProperties in
    let bcType : intTable :=
      [[-1; -1; 1]; [1; -1; -1]; [-1; 1; 0]; [1; -1; -1]] in
    let bcValue : table D :=
      [[#0; sigmab; #0]; [#0; #0; #0]; [#0; #0; rho_f * g]; [#0; #0;
        #0]]%dbl in
    (* GRID CREATION *)
    grid <- call (myGrid
      (gridDesign.new Nx Ny Nt Lx Ly Lt gridType sCoordinates)) ;;
    let Nu := gridDesign.numberOfActiveUDisplacementFV grid in
    let Nv := gridDesign.numberOfActiveVDisplacementFV grid in
    let NP := gridDesign.numberOfActiveGeneralFV grid in
    let dx := gridDesign.dx grid in
    let dy := gridDesign.dy grid in
    let dt := gridDesign.dt grid in
    let h := gridDesign.h grid in
    let idU := gridDesign.uDisplacementFVIndex grid in
    let idV := gridDesign.vDisplacementFVIndex grid in
    let idP := gridDesign.generalFVIndex grid in
    let cooU := gridDesign.uDisplacementFVCoordinates grid in
    let cooV := gridDesign.vDisplacementFVCoordinates grid in
    let cooP := gridDesign.generalFVCoordinates grid in
    let horFaceStatus := gridDesign.horizontalFacesStatus grid in
    let verFaceStatus := gridDesign.verticalFacesStatus grid in
    let uField := gridDesign.uDisplacementField grid in
    let vField := gridDesign.vDisplacementField grid in
    let pField := gridDesign.pressureField grid in
    (* PROBLEM PARAMETERS CALCULATION *)
    call (myProblem (problemParameters.new dx dy K phi rho_s c_s mu_f
      rho_f c_f G lambda sigmab Lx Ly uField vField pField cooU cooV cooP
      idU idV idP g)) ;;
    call (myProblem problemParameters.applyTerzaghiInitialConditions) ;;
    problem <- call (myProblem problemParameters.read) ;;
    let Q := problemParameters.Q problem in
    let alpha := problemParameters.alpha problem in
    let storageCoefficient := (#1 / Q)%dbl in
    let longitudinalModulus := problemParameters.M problem in
    let consolidationCoefficient := problemParameters.c problem in
    let minimumTimeStepVerruijt := problemParameters.dt_vv problem in
    let dt_carlos := problemParameters.dt_carlos problem in
    let rho := (phi * rho_f + (#1 - phi) * rho_s)%dbl in
    let initialPressure := problemParameters.P0 problem in
    let uField := problemParameters.uDisplacementField problem in
    let vField := problemParameters.vDisplacementField problem in
    let pField := problemParameters.pressureField problem in
    (* LINEAR SYSTEM'S COEFFICIENTS MATRIX ASSEMBLY *)
    call (myCoefficients (coefficientsAssembly.new bcType Nu Nv NP idU idV
      idP cooU cooV cooP horFaceStatus verFaceStatus gridType
      interpScheme)) ;;
    call (myCoefficients (coefficientsAssembly.assemblyCoefficientsMatrix
      dx dy dt G lambda alpha K mu_f Q rho g)) ;;
    coefficients <- call (myCoefficients coefficientsAssembly.read) ;;
    let coefficientsMatrix :=
      coefficientsAssembly.coefficientsMatrix coefficients in
    let sparseCoefficientsRow :=
      coefficientsAssembly.sparseCoefficientsRow coefficients in
    let sparseCoefficientsColumn :=
      coefficientsAssembly.sparseCoefficientsColumn coefficients in
    let sparseCoefficientsValue :=
      coefficientsAssembly.sparseCoefficientsValue coefficients in
    (* LINEAR SYSTEM SOLVER *)
    call (myIndependentTerms (independentTermsAssembly.new bcType bcValue
      Nu Nv NP idU idV idP cooU cooV cooP horFaceStatus verFaceStatus
      gridType interpScheme)) ;;
    call (myLinearSystemSolver (linearSystemSolver.new coefficientsMatrix
      sparseCoefficientsRow sparseCoefficientsColumn
      sparseCoefficientsValue uField vField pField Nu Nv NP Nt idU idV idP
      cooU cooV cooP)) ;;
    ierr <- call (myLinearSystemSolver
      linearSystemSolver.coefficientsMatrixLUFactorization) ;;
    CHKERRQ ierr ;;
    ierr <- call (myLinearSystemSolver
      linearSystemSolver.createPETScArrays) ;;
    CHKERRQ ierr ;;
    ierr <- call (myLinearSystemSolver linearSystemSolver.zeroPETScArrays) ;;
    CHKERRQ ierr ;;
    '(ierr, (uField, vField, pField)) <-
      forLoop (Z.to_nat (Nt - 1)) 0
        (fun timeStep '(ierr, (uField, vField, pField)) =>
          call (myIndependentTerms
            (independentTermsAssembly.assemblyIndependentTermsArray dx dy dt
              G lambda alpha K mu_f Q rho g uField vField pField
              timeStep)) ;;
          independentTermsArray <- call (myIndependentTerms
            independentTermsAssembly.independentTermsArray) ;;
          ierr <- call (myLinearSystemSolver
            linearSystemSolver.zeroPETScArrays) ;;
          CHKERRQ ierr ;;
          ierr <- call (myLinearSystemSolver
            (linearSystemSolver.setRHSValue independentTermsArray)) ;;
          CHKERRQ ierr ;;
          ierr <- call (myLinearSystemSolver
            linearSystemSolver.solveLinearSystem) ;;
          CHKERRQ ierr ;;
          ierr <- call (myLinearSystemSolver
            (linearSystemSolver.setFieldValue (timeStep + 1))) ;;
          CHKERRQ ierr ;;
          uField <- call (myLinearSystemSolver linearSystemSolver.uField) ;;
          vField <- call (myLinearSystemSolver linearSystemSolver.vField) ;;
          pField <- call (myLinearSystemSolver linearSystemSolver.pField) ;;
          ierr <- call (myLinearSystemSolver
            linearSystemSolver.zeroPETScArrays) ;;
          CHKERRQ ierr ;;
          Ret (Normal (ierr, (uField, vField, pField))))
        (ierr, (uField, vField, pField)) ;;
    (* DATA PROCESSING *)
    let exportedTimeSteps := exportedTimeSteps_eighth Nt in
    call (myDataProcessing (dataProcessing.new idU idV idP uField vField
      pField gridType interpScheme dx dy)) ;;
    forEach exportedTimeSteps (fun timeStep =>
      call (myDataProcessing (dataProcessing.export
        dataProcessing.exportTerzaghiAnalyticalSolution [Ly; alpha; Q; rho;
        g; rho_f; longitudinalModulus; sigmab; dt;
        consolidationCoefficient]%dbl timeStep pairName)) ;;
      call (myDataProcessing (dataProcessing.export
        dataProcessing.exportTerzaghiNumericalSolution [dy; dt; Ly]%dbl
        timeStep pairName))) ;;
    Ret (Normal ierr)).

(** [int mandel(...)]: the load argument is [forceb]. *)
Definition mandel (gridType interpScheme : string) (Nt meshSize : Z)
    (Lt g forceb : D) (myProperties : poroelasticProperties D)
  : Prog D PetscErrorCode :=
  function (
    (* ENTRY PARAMETERS *)
    let Nx := 5 * meshSize in
    let Ny := 5 * meshSize in
    let Lx : D := (#5)%dbl in
    let Ly : D := (#5)%dbl in
    let sCoordinates : table D :=
      [[Lx; Ly]; [#0; Ly]; [#0; #0]; [Lx; #0]]%dbl in
    let pairName := pairName myProperties in
    let G := shearModulus myProperties in
    let lambda := (bulkModulus myProperties - #2 * G / #3)%dbl in
    let phi := porosity myProperties in
    let K := permeability myProperties in
    let c_s := (#1 / solidBulkModulus myProperties)%dbl in
    let rho_s := solidDensity myProperties in
    let c_f := (#1 / fluidBulkModulus myProperties)%dbl in
    let rho_f := fluidDensity myProperties in
    let mu_f := fluidViscosity myProperties in
    let bcType : intTable :=
      [[-1; -1; 0]; [1; -1; -1]; [-1; 1; 0]; [-1; -1; 1]] in
    let bcValue : table D :=
      [[#0; #0; rho_f * g]; [#0; #0; #0]; [#0; #0; rho_f * g]; [#0; #0;
        #0]]%dbl in
    (* GRID CREATION *)
    grid <- call (myGrid
      (gridDesign.new Nx Ny Nt Lx Ly Lt gridType sCoordinates)) ;;
    let Nu := gridDesign.numberOfActiveUDisplacementFV grid in
    let Nv := gridDesign.numberOfActiveVDisplacementFV grid in
    let NP := gridDesign.numberOfActiveGeneralFV grid in
    let dx := gridDesign.dx grid in
    let dy := gridDesign.dy grid in
    let dt := gridDesign.dt grid in
    let h := gridDesign.h grid in
    let idU := gridDesign.uDisplacementFVIndex grid in
    let idV := gridDesign.vDisplacementFVIndex grid in
    let idP := gridDesign.generalFVIndex grid in
    let cooU := gridDesign.uDisplacementFVCoordinates grid in
    let cooV := gridDesign.vDisplacementFVCoordinates grid in
    let cooP := gridDesign.generalFVCoordinates grid in
    let horFaceStatus := gridDesign.horizontalFacesStatus grid in
    let verFaceStatus := gridDesign.verticalFacesStatus grid in
    let uField := gridDesign.uDisplacementField grid in
    let vField := gridDesign.vDisplacementField grid in
    let pField := gridDesign.pressureField grid in
    (* PROBLEM PARAMETERS CALCULATION *)
    call (myProblem (problemParameters.new dx dy K phi rho_s c_s mu_f
      rho_f c_f G lambda forceb Lx Ly uField vField pField cooU cooV cooP
      idU idV idP g)) ;;
    call (myProblem problemParameters.applyMandelInitialConditions) ;;
    problem <- call (myProblem problemParameters.read) ;;
    let Q := problemParameters.Q problem in
    let alpha := problemParameters.alpha problem in
    let storageCoefficient := (#1 / Q)%dbl in
    let longitudinalModulus := problemParameters.M problem in
    let consolidationCoefficient := problemParameters.c problem in
    let minimumTimeStepVerruijt := problemParameters.dt_vv problem in
    let dt_carlos := problemParameters.dt_carlos problem in
    let rho := (phi * rho_f + (#1 - phi) * rho_s)%dbl in
    let initialPressure := problemParameters.P0 problem in
    let uField := problemParameters.uDisplacementField problem in
    let vField := problemParameters.vDisplacementField problem in
    let pField := problemParameters.pressureField problem in
    (* LINEAR SYSTEM'S COEFFICIENTS MATRIX ASSEMBLY *)
    call (myCoefficients (coefficientsAssembly.new bcType Nu Nv NP idU idV
      idP cooU cooV cooP horFaceStatus verFaceStatus gridType
      interpScheme)) ;;
    call (myCoefficients (coefficientsAssembly.assemblyCoefficientsMatrix
      dx dy dt G lambda alpha K mu_f Q rho g)) ;;
    call (myCoefficients
      (coefficientsAssembly.assemblyMandelCoefficientsMatrix dx dy G lambda
        alpha)) ;;
    coefficients <- call (myCoefficients coefficientsAssembly.read) ;;
    call (myCoefficients (coefficientsAssembly.assemblySparseMatrix
      (coefficientsAssembly.coefficientsMatrix coefficients))) ;;
    coefficients <- call (myCoefficients coefficientsAssembly.read) ;;
    let coefficientsMatrix :=
      coefficientsAssembly.coefficientsMatrix coefficients in
    let sparseCoefficientsRow :=
      coefficientsAssembly.sparseCoefficientsRow coefficients in
    let sparseCoefficientsColumn :=
      coefficientsAssembly.sparseCoefficientsColumn coefficients in
    let sparseCoefficientsValue :=
      coefficientsAssembly.sparseCoefficientsValue coefficients in
    (* LINEAR SYSTEM SOLVER *)
    call (myIndependentTerms (independentTermsAssembly.new bcType bcValue
      Nu Nv NP idU idV idP cooU cooV cooP horFaceStatus verFaceStatus
      gridType interpScheme)) ;;
    call (myLinearSystemSolver (linearSystemSolver.new coefficientsMatrix
      sparseCoefficientsRow sparseCoefficientsColumn
      sparseCoefficientsValue uField vField pField Nu Nv NP Nt idU idV idP
      cooU cooV cooP)) ;;
    call (myIndependentTerms
      independentTermsAssembly.increaseMandelIndependentTermsArray) ;;
    ierr <- call (myLinearSystemSolver
      linearSystemSolver.coefficientsMatrixLUFactorization) ;;
    CHKERRQ ierr ;;
    ierr <- call (myLinearSystemSolver
      linearSystemSolver.createPETScArrays) ;;
    CHKERRQ ierr ;;
    ierr <- call (myLinearSystemSolver linearSystemSolver.zeroPETScArrays) ;;
    CHKERRQ ierr ;;
    '(ierr, (uField, vField, pField)) <-
      forLoop (Z.to_nat (Nt - 1)) 0
        (fun timeStep '(ierr, (uField, vField, pField)) =>
          call (myIndependentTerms
            (independentTermsAssembly.assemblyIndependentTermsArray dx dy dt
              G lambda alpha K mu_f Q rho g uField vField pField
              timeStep)) ;;
          call (myIndependentTerms
            (independentTermsAssembly.assemblyMandelIndependentTermsArray
              forceb Lx)) ;;
          independentTermsArray <- call (myIndependentTerms
            independentTermsAssembly.independentTermsArray) ;;
          ierr <- call (myLinearSystemSolver
            linearSystemSolver.zeroPETScArrays) ;;
          CHKERRQ ierr ;;
          ierr <- call (myLinearSystemSolver
            (linearSystemSolver.setRHSValue independentTermsArray)) ;;
          CHKERRQ ierr ;;
          ierr <- call (myLinearSystemSolver
            linearSystemSolver.solveLinearSystem) ;;
          CHKERRQ ierr ;;
          ierr <- call (myLinearSystemSolver
            (linearSystemSolver.setFieldValue (timeStep + 1))) ;;
          CHKERRQ ierr ;;
          uField <- call (myLinearSystemSolver linearSystemSolver.uField) ;;
          vField <- call (myLinearSystemSolver linearSystemSolver.vField) ;;
          pField <- call (myLinearSystemSolver linearSystemSolver.pField) ;;
          ierr <- call (myLinearSystemSolver
            linearSystemSolver.zeroPETScArrays) ;;
          CHKERRQ ierr ;;
          Ret (Normal (ierr, (uField, vField, pField))))
        (ierr, (uField, vField, pField)) ;;
    (* DATA PROCESSING *)
    let exportedTimeSteps := exportedTimeSteps_mandel Nt in
    call (myDataProcessing (dataProcessing.new idU idV idP uField vField
      pField gridType interpScheme dx dy)) ;;
    call (myDataProcessing (dataProcessing.findMandelRoots initialPressure
      forceb Lx alpha longitudinalModulus lambda Q)) ;;
    forEach exportedTimeSteps (fun timeStep =>
      call (myDataProcessing (dataProcessing.export
        dataProcessing.exportMandelAnalyticalSolution [Lx; Ly;
        consolidationCoefficient; initialPressure; alpha; Q;
        longitudinalModulus; lambda; forceb; K; mu_f; dt]%dbl timeStep
        pairName)) ;;
      call (myDataProcessing (dataProcessing.export
        dataProcessing.exportMandelNumericalSolution [dx; dy; dt; Lx;
        Ly]%dbl timeStep pairName))) ;;
    Ret (Normal ierr)).

(** [int convergence(...)]: no export list, the error norms are read. *)
Definition convergence (gridType interpScheme : string) (Nt meshSize : Z)
    (Lt g sigmab : D) (myProperties : poroelasticProperties D)
  : Prog D PetscErrorCode :=
  function (
    (* ENTRY PARAMETERS *)
    let Nx := meshSize in
    let Ny := 6 * meshSize in
    let Lx : D := (#1)%dbl in
    let Ly : D := (#6)%dbl in
    let sCoordinates : table D :=
      [[Lx; Ly]; [#0; Ly]; [#0; #0]; [Lx; #0]]%dbl in
    let pairName := pairName myProperties in
    let G := shearModulus myProperties in
    let lambda := (bulkModulus myProperties - #2 * G / #3)%dbl in
    let phi := porosity myProperties in
    let K := permeability myProperties in
    let c_s := (#1 / solidBulkModulus myProperties)%dbl in
    let rho_s := solidDensity myProperties in
    let c_f := (#1 / fluidBulkModulus myProperties)%dbl in
    let rho_f := fluidDensity myProperties in
    let mu_f := fluidViscosity myProperties in
    let bcType : intTable :=
      [[-1; -1; 1]; [1; -1; -1]; [-1; 1; 0]; [1; -1; -1]] in
    let bcValue : table D :=
      [[#0; sigmab; #0]; [#0; #0; #0]; [#0; #0; rho_f * g]; [#0; #0;
        #0]]%dbl in
    (* GRID CREATION *)
    grid <- call (myGrid
      (gridDesign.new Nx Ny Nt Lx Ly Lt gridType sCoordinates)) ;;
    let Nu := gridDesign.numberOfActiveUDisplacementFV grid in
    let Nv := gridDesign.numberOfActiveVDisplacementFV grid in
    let NP := gridDesign.numberOfActiveGeneralFV grid in
    let dx := gridDesign.dx grid in
    let dy := gridDesign.dy grid in
    let dt := gridDesign.dt grid in
    let h := gridDesign.h grid in
    let idU := gridDesign.uDisplacementFVIndex grid in
    let idV := gridDesign.vDisplacementFVIndex grid in
    let idP := gridDesign.generalFVIndex grid in
    let cooU := gridDesign.uDisplacementFVCoordinates grid in
    let cooV := gridDesign.vDisplacementFVCoordinates grid in
    let cooP := gridDesign.generalFVCoordinates grid in
    let horFaceStatus := gridDesign.horizontalFacesStatus grid in
    let verFaceStatus := gridDesign.verticalFacesStatus grid in
    let uField := gridDesign.uDisplacementField grid in
    let vField := gridDesign.vDisplacementField grid in
    let pField := gridDesign.pressureField grid in
    (* PROBLEM PARAMETERS CALCULATION *)
    call (myProblem (problemParameters.new dx dy K phi rho_s c_s mu_f
      rho_f c_f G lambda sigmab Lx Ly uField vField pField cooU cooV cooP
      idU idV idP g)) ;;
    call (myProblem problemParameters.applyTerzaghiInitialConditions) ;;
    problem <- call (myProblem problemParameters.read) ;;
    let Q := problemParameters.Q problem in
    let alpha := problemParameters.alpha problem in
    let storageCoefficient := (#1 / Q)%dbl in
    let longitudinalModulus := problemParameters.M problem in
    let consolidationCoefficient := problemParameters.c problem in
    let minimumTimeStepVerruijt := problemParameters.dt_vv problem in
    let dt_carlos := problemParameters.dt_carlos problem in
    let rho := (phi * rho_f + (#1 - phi) * rho_s)%dbl in
    let initialPressure := problemParameters.P0 problem in
    let uField := problemParameters.uDisplacementField problem in
    let vField := problemParameters.vDisplacementField problem in
    let pField := problemParameters.pressureField problem in
    (* LINEAR SYSTEM'S COEFFICIENTS MATRIX ASSEMBLY *)
    call (myCoefficients (coefficientsAssembly.new bcType Nu Nv NP idU idV
      idP cooU cooV cooP horFaceStatus verFaceStatus gridType
      interpScheme)) ;;
    call (myCoefficients (coefficientsAssembly.assemblyCoefficientsMatrix
      dx dy dt G lambda alpha K mu_f Q rho g)) ;;
    coefficients <- call (myCoefficients coefficientsAssembly.read) ;;
    let coefficientsMatrix :=
      coefficientsAssembly.coefficientsMatrix coefficients in
    let sparseCoefficientsRow :=
      coefficientsAssembly.sparseCoefficientsRow coefficients in
    let sparseCoefficientsColumn :=
      coefficientsAssembly.sparseCoefficientsColumn coefficients in
    let sparseCoefficientsValue :=
      coefficientsAssembly.sparseCoefficientsValue coefficients in
    (* LINEAR SYSTEM SOLVER *)
    call (myIndependentTerms (independentTermsAssembly.new bcType bcValue
      Nu Nv NP idU idV idP cooU cooV cooP horFaceStatus verFaceStatus
      gridType interpScheme)) ;;
    call (myLinearSystemSolver (linearSystemSolver.new coefficientsMatrix
      sparseCoefficientsRow sparseCoefficientsColumn
      sparseCoefficientsValue uField vField pField Nu Nv NP Nt idU idV idP
      cooU cooV cooP)) ;;
    ierr <- call (myLinearSystemSolver
      linearSystemSolver.coefficientsMatrixLUFactorization) ;;
    CHKERRQ ierr ;;
    ierr <- call (myLinearSystemSolver
      linearSystemSolver.createPETScArrays) ;;
    CHKERRQ ierr ;;
    ierr <- call (myLinearSystemSolver linearSystemSolver.zeroPETScArrays) ;;
    CHKERRQ ierr ;;
    '(ierr, (uField, vField, pField)) <-
      forLoop (Z.to_nat (Nt - 1)) 0
        (fun timeStep '(ierr, (uField, vField, pField)) =>
          call (myIndependentTerms
            (independentTermsAssembly.assemblyIndependentTermsArray dx dy dt
              G lambda alpha K mu_f Q rho g uField vField pField
              timeStep)) ;;
          independentTermsArray <- call (myIndependentTerms
            independentTermsAssembly.independentTermsArray) ;;
          ierr <- call (myLinearSystemSolver
            linearSystemSolver.zeroPETScArrays) ;;
          CHKERRQ ierr ;;
          ierr <- call (myLinearSystemSolver
            (linearSystemSolver.setRHSValue independentTermsArray)) ;;
          CHKERRQ ierr ;;
          ierr <- call (myLinearSystemSolver
            linearSystemSolver.solveLinearSystem) ;;
          CHKERRQ ierr ;;
          ierr <- call (myLinearSystemSolver
            (linearSystemSolver.setFieldValue (timeStep + 1))) ;;
          CHKERRQ ierr ;;
          uField <- call (myLinearSystemSolver linearSystemSolver.uField) ;;
          vField <- call (myLinearSystemSolver linearSystemSolver.vField) ;;
          pField <- call (myLinearSystemSolver linearSystemSolver.pField) ;;
          ierr <- call (myLinearSystemSolver
            linearSystemSolver.zeroPETScArrays) ;;
          CHKERRQ ierr ;;
          Ret (Normal (ierr, (uField, vField, pField))))
        (ierr, (uField, vField, pField)) ;;
    (* DATA PROCESSING *)
    call (myDataProcessing (dataProcessing.new idU idV idP uField vField
      pField gridType interpScheme dx dy)) ;;
    call (myDataProcessing (dataProcessing.getTerzaghiErrorNorm dy dt h Ly
      initialPressure consolidationCoefficient alpha longitudinalModulus
      sigmab Q rho g rho_f)) ;;
    '(pErrorNorm, vErrorNorm) <- call (myDataProcessing
      dataProcessing.myErrorNorm) ;;
    Ret (Normal ierr)).

(** [int stripfoot(...)]. *)
Definition stripfoot (gridType interpScheme : string) (Nt meshSize : Z)
    (Lt g sigmab : D) (myProperties : poroelasticProperties D)
  : Prog D PetscErrorCode :=
  function (
    (* ENTRY PARAMETERS *)
    let Nx := 5 * meshSize in
    let Ny := 5 * meshSize in
    let stripSize := meshSize in
    let Lx : D := (#5)%dbl in
    let Ly : D := (#5)%dbl in
    let sCoordinates : table D :=
      [[Lx; Ly]; [#0; Ly]; [#0; #0]; [Lx; #0]]%dbl in
    let pairName := pairName myProperties in
    let G := shearModulus myProperties in
    let lambda := (bulkModulus myProperties - #2 * G / #3)%dbl in
    let phi := porosity myProperties in
    let K := permeability myProperties in
    let c_s := (#1 / solidBulkModulus myProperties)%dbl in
    let rho_s := solidDensity myProperties in
    let c_f := (#1 / fluidBulkModulus myProperties)%dbl in
    let rho_f := fluidDensity myProperties in
    let mu_f := fluidViscosity myProperties in
    let bcType : intTable :=
      [[-1; -1; -1]; [1; -1; -1]; [-1; 1; -1]; [1; -1; -1]] in
    let bcValue : table D :=
      [[#0; #0; #0]; [#0; #0; #0]; [#0; #0; #0]; [#0; #0; #0]]%dbl in
    (* GRID CREATION *)
    grid <- call (myGrid
      (gridDesign.new Nx Ny Nt Lx Ly Lt gridType sCoordinates)) ;;
    let Nu := gridDesign.numberOfActiveUDisplacementFV grid in
    let Nv := gridDesign.numberOfActiveVDisplacementFV grid in
    let NP := gridDesign.numberOfActiveGeneralFV grid in
    let dx := gridDesign.dx grid in
    let dy := gridDesign.dy grid in
    let dt := gridDesign.dt grid in
    let h := gridDesign.h grid in
    let idU := gridDesign.uDisplacementFVIndex grid in
    let idV := gridDesign.vDisplacementFVIndex grid in
    let idP := gridDesign.generalFVIndex grid in
    let cooU := gridDesign.uDisplacementFVCoordinates grid in
    let cooV := gridDesign.vDisplacementFVCoordinates grid in
    let cooP := gridDesign.generalFVCoordinates grid in
    let horFaceStatus := gridDesign.horizontalFacesStatus grid in
    let verFaceStatus := gridDesign.verticalFacesStatus grid in
    let uField := gridDesign.uDisplacementField grid in
    let vField := gridDesign.vDisplacementField grid in
    let pField := gridDesign.pressureField grid in
    (* PROBLEM PARAMETERS CALCULATION *)
    call (myProblem (problemParameters.new dx dy K phi rho_s c_s mu_f
      rho_f c_f G lambda sigmab Lx Ly uField vField pField cooU cooV cooP
      idU idV idP g)) ;;
    call (myProblem problemParameters.applyTerzaghiInitialConditions) ;;
    problem <- call (myProblem problemParameters.read) ;;
    let Q := problemParameters.Q problem in
    let alpha := problemParameters.alpha problem in
    let storageCoefficient := (#1 / Q)%dbl in
    let longitudinalModulus := problemParameters.M problem in
    let consolidationCoefficient := problemParameters.c problem in
    let minimumTimeStepVerruijt := problemParameters.dt_vv problem in
    let dt_carlos := problemParameters.dt_carlos problem in
    let rho := (phi * rho_f + (#1 - phi) * rho_s)%dbl in
    let initialPressure := problemParameters.P0 problem in
    let uField := problemParameters.uDisplacementField problem in
    let vField := problemParameters.vDisplacementField problem in
    let pField := problemParameters.pressureField problem in
    (* LINEAR SYSTEM'S COEFFICIENTS MATRIX ASSEMBLY *)
    call (myCoefficients (coefficientsAssembly.new bcType Nu Nv NP idU idV
      idP cooU cooV cooP horFaceStatus verFaceStatus gridType
      interpScheme)) ;;
    call (myCoefficients (coefficientsAssembly.assemblyCoefficientsMatrix
      dx dy dt G lambda alpha K mu_f Q rho g)) ;;
    call (myCoefficients
      (coefficientsAssembly.addStripfootBC stripSize K mu_f)) ;;
    coefficients <- call (myCoefficients coefficientsAssembly.read) ;;
    let coefficientsMatrix :=
      coefficientsAssembly.coefficientsMatrix coefficients in
    let sparseCoefficientsRow :=
      coefficientsAssembly.sparseCoefficientsRow coefficients in
    let sparseCoefficientsColumn :=
      coefficientsAssembly.sparseCoefficientsColumn coefficients in
    let sparseCoefficientsValue :=
      coefficientsAssembly.sparseCoefficientsValue coefficients in
    (* LINEAR SYSTEM SOLVER *)
    call (myIndependentTerms (independentTermsAssembly.new bcType bcValue
      Nu Nv NP idU idV idP cooU cooV cooP horFaceStatus verFaceStatus
      gridType interpScheme)) ;;
    call (myLinearSystemSolver (linearSystemSolver.new coefficientsMatrix
      sparseCoefficientsRow sparseCoefficientsColumn
      sparseCoefficientsValue uField vField pField Nu Nv NP Nt idU idV idP
      cooU cooV cooP)) ;;
    ierr <- call (myLinearSystemSolver
      linearSystemSolver.coefficientsMatrixLUFactorization) ;;
    CHKERRQ ierr ;;
    ierr <- call (myLinearSystemSolver
      linearSystemSolver.createPETScArrays) ;;
    CHKERRQ ierr ;;
    ierr <- call (myLinearSystemSolver linearSystemSolver.zeroPETScArrays) ;;
    CHKERRQ ierr ;;
    '(ierr, (uField, vField, pField)) <-
      forLoop (Z.to_nat (Nt - 1)) 0
        (fun timeStep '(ierr, (uField, vField, pField)) =>
          call (myIndependentTerms
            (independentTermsAssembly.assemblyIndependentTermsArray dx dy dt
              G lambda alpha K mu_f Q rho g uField vField pField
              timeStep)) ;;
          call (myIndependentTerms
            (independentTermsAssembly.addStripfootBC stripSize dx sigmab)) ;;
          independentTermsArray <- call (myIndependentTerms
            independentTermsAssembly.independentTermsArray) ;;
          ierr <- call (myLinearSystemSolver
            linearSystemSolver.zeroPETScArrays) ;;
          CHKERRQ ierr ;;
          ierr <- call (myLinearSystemSolver
            (linearSystemSolver.setRHSValue independentTermsArray)) ;;
          CHKERRQ ierr ;;
          ierr <- call (myLinearSystemSolver
            linearSystemSolver.solveLinearSystem) ;;
          CHKERRQ ierr ;;
          ierr <- call (myLinearSystemSolver
            (linearSystemSolver.setFieldValue (timeStep + 1))) ;;
          CHKERRQ ierr ;;
          uField <- call (myLinearSystemSolver linearSystemSolver.uField) ;;
          vField <- call (myLinearSystemSolver linearSystemSolver.vField) ;;
          pField <- call (myLinearSystemSolver linearSystemSolver.pField) ;;
          ierr <- call (myLinearSystemSolver
            linearSystemSolver.zeroPETScArrays) ;;
          CHKERRQ ierr ;;
          Ret (Normal (ierr, (uField, vField, pField))))
        (ierr, (uField, vField, pField)) ;;
    (* DATA PROCESSING *)
    let exportedTimeSteps := exportedTimeSteps_eighth Nt in
    call (myDataProcessing (dataProcessing.new idU idV idP uField vField
      pField gridType interpScheme dx dy)) ;;
    forEach exportedTimeSteps (fun timeStep =>
      call (myDataProcessing (dataProcessing.export
        dataProcessing.exportStripfootTSolution [dx; dy; dt; Ly]%dbl
        timeStep pairName)) ;;
      call (myDataProcessing (dataProcessing.export
        dataProcessing.exportStripfootHSolution [dx; dy; h; Ly]%dbl timeStep
        pairName))) ;;
    Ret (Normal ierr)).

(** [int terzaghiDouble(...)]. *)
Definition terzaghiDouble (gridType interpScheme : string) (Nt meshSize : Z)
    (Lt g sigmab : D) (myProperties : poroelasticProperties D)
  : Prog D PetscErrorCode :=
  function (
    (* ENTRY PARAMETERS *)
    let Nx := meshSize in
    let Ny := 6 * meshSize in
    let Lx : D := (#1)%dbl in
    let Ly : D := (#6)%dbl in
    let sCoordinates : table D :=
      [[Lx; Ly]; [#0; Ly]; [#0; #0]; [Lx; #0]]%dbl in
    let pairName := pairName myProperties in
    let G := shearModulus myProperties in
    let lambda := (bulkModulus myProperties - #2 * G / #3)%dbl in
    let phiPore := porosity myProperties in
    let phiFrac := macroPorosity myProperties in
    let KPore := permeability myProperties in
    let KFrac := macroPermeability myProperties in
    let c_s := (#1 / solidBulkModulus myProperties)%dbl in
    let rho_s := solidDensity myProperties in
    let c_f := (#1 / fluidBulkModulus myProperties)%dbl in
    let rho_f := fluidDensity myProperties in
    let mu_f := fluidViscosity myProperties in
    let bcType : intTable :=
      [[-1; -1; 1; 1]; [1; -1; -1; -1]; [-1; 1; -1; -1]; [1; -1; -1; -1]] in
    let bcValue : table D :=
      [[#0; sigmab; #0; #0]; [#0; #0; #0; #0]; [#0; #0; #0; #0]; [#0; #0;
        #0; #0]]%dbl in
    (* GRID CREATION *)
    grid <- call (myGrid
      (gridDesign.new Nx Ny Nt Lx Ly Lt gridType sCoordinates)) ;;
    let Nu := gridDesign.numberOfActiveUDisplacementFV grid in
    let Nv := gridDesign.numberOfActiveVDisplacementFV grid in
    let NP := gridDesign.numberOfActiveGeneralFV grid in
    let dx := gridDesign.dx grid in
    let dy := gridDesign.dy grid in
    let dt := gridDesign.dt grid in
    let h := gridDesign.h grid in
    let idU := gridDesign.uDisplacementFVIndex grid in
    let idV := gridDesign.vDisplacementFVIndex grid in
    let idP := gridDesign.generalFVIndex grid in
    let cooU := gridDesign.uDisplacementFVCoordinates grid in
    let cooV := gridDesign.vDisplacementFVCoordinates grid in
    let cooP := gridDesign.generalFVCoordinates grid in
    let horFaceStatus := gridDesign.horizontalFacesStatus grid in
    let verFaceStatus := gridDesign.verticalFacesStatus grid in
    let uField := gridDesign.uDisplacementField grid in
    let vField := gridDesign.vDisplacementField grid in
    let pPoreField := gridDesign.pressureField grid in
    let pFracField := pPoreField in
    (* PROBLEM PARAMETERS CALCULATION *)
    call (myDoubleProblem (problemDoubleParameters.new phiPore phiFrac c_f
      c_s G lambda mu_f KPore KFrac sigmab cooV idV)) ;;
    problem <- call (myDoubleProblem problemDoubleParameters.read) ;;
    let psiPore := problemDoubleParameters.psiPore problem in
    let psiFrac := problemDoubleParameters.psiFrac problem in
    let alpha := problemDoubleParameters.alpha problem in
    let S11 := problemDoubleParameters.S11 problem in
    let S12 := problemDoubleParameters.S12 problem in
    let S22 := problemDoubleParameters.S22 problem in
    leak <- call (myDoubleProblem
      (problemDoubleParameters.computeLeakTerm 11)) ;;
    problem' <- call (myDoubleProblem problemDoubleParameters.read) ;;
    let consolidationCoefficient :=
      problemDoubleParameters.consolCoef problem' in
    (* LINEAR SYSTEM'S COEFFICIENTS MATRIX ASSEMBLY *)
    call (myCoefficients (coefficientsAssembly.new bcType Nu Nv NP idU idV
      idP cooU cooV cooP horFaceStatus verFaceStatus gridType
      interpScheme)) ;;
    call (myCoefficients (coefficientsAssembly.assemblyDoublePorosityMatrix
      dx dy dt G lambda alpha KPore KFrac mu_f S11 S12 S22 psiPore psiFrac
      leak)) ;;
    coefficients <- call (myCoefficients coefficientsAssembly.read) ;;
    let coefficientsMatrix :=
      coefficientsAssembly.coefficientsMatrix coefficients in
    let sparseCoefficientsRow :=
      coefficientsAssembly.sparseCoefficientsRow coefficients in
    let sparseCoefficientsColumn :=
      coefficientsAssembly.sparseCoefficientsColumn coefficients in
    let sparseCoefficientsValue :=
      coefficientsAssembly.sparseCoefficientsValue coefficients in
    (* LINEAR SYSTEM SOLVER *)
    call (myIndependentTerms (independentTermsAssembly.new bcType bcValue
      Nu Nv NP idU idV idP cooU cooV cooP horFaceStatus verFaceStatus
      gridType interpScheme)) ;;
    call (myLinearSystemSolver (linearSystemSolver.new coefficientsMatrix
      sparseCoefficientsRow sparseCoefficientsColumn
      sparseCoefficientsValue uField vField pPoreField Nu Nv NP Nt idU idV
      idP cooU cooV cooP)) ;;
    call (myIndependentTerms
      independentTermsAssembly.increaseMacroIndependentTermsArray) ;;
    call (myLinearSystemSolver
      (linearSystemSolver.createMacroPressureField pFracField)) ;;
    ierr <- call (myLinearSystemSolver
      linearSystemSolver.coefficientsMatrixLUFactorization) ;;
    CHKERRQ ierr ;;
    ierr <- call (myLinearSystemSolver
      linearSystemSolver.createPETScArrays) ;;
    CHKERRQ ierr ;;
    ierr <- call (myLinearSystemSolver linearSystemSolver.zeroPETScArrays) ;;
    CHKERRQ ierr ;;
    '(ierr, (uField, vField, pPoreField, pFracField)) <-
      forLoop (Z.to_nat (Nt - 1)) 0
        (fun timeStep '(ierr, (uField, vField, pPoreField, pFracField)) =>
          call (myIndependentTerms
            (independentTermsAssembly.assemblyMacroIndependentTermsArray dx
              dy dt G lambda alpha KPore mu_f S11 (#0)%dbl (#0)%dbl uField
              vField pPoreField pFracField timeStep phiPore phiFrac KFrac
              S12 S22)) ;;
          independentTermsArray <- call (myIndependentTerms
            independentTermsAssembly.independentTermsArray) ;;
          ierr <- call (myLinearSystemSolver
            linearSystemSolver.zeroPETScArrays) ;;
          CHKERRQ ierr ;;
          ierr <- call (myLinearSystemSolver
            (linearSystemSolver.setRHSValue independentTermsArray)) ;;
          CHKERRQ ierr ;;
          ierr <- call (myLinearSystemSolver
            linearSystemSolver.solveLinearSystem) ;;
          CHKERRQ ierr ;;
          ierr <- call (myLinearSystemSolver
            (linearSystemSolver.setFieldValue (timeStep + 1))) ;;
          CHKERRQ ierr ;;
          ierr <- call (myLinearSystemSolver
            (linearSystemSolver.setMacroFieldValue (timeStep + 1))) ;;
          CHKERRQ ierr ;;
          uField <- call (myLinearSystemSolver linearSystemSolver.uField) ;;
          vField <- call (myLinearSystemSolver linearSystemSolver.vField) ;;
          pPoreField <- call (myLinearSystemSolver
            linearSystemSolver.pField) ;;
          pFracField <- call (myLinearSystemSolver
            linearSystemSolver.pMField) ;;
          ierr <- call (myLinearSystemSolver
            linearSystemSolver.zeroPETScArrays) ;;
          CHKERRQ ierr ;;
          Ret (Normal (ierr, (uField, vField, pPoreField, pFracField))))
        (ierr, (uField, vField, pPoreField, pFracField)) ;;
    (* DATA PROCESSING *)
    let exportedTimeSteps := exportedTimeSteps_eighth Nt in
    call (myDataProcessing (dataProcessing.new idU idV idP uField vField
      pPoreField gridType interpScheme dx dy)) ;;
    call (myDataProcessing
      (dataProcessing.storeMacroPressure3DField idP pFracField)) ;;
    forEach exportedTimeSteps (fun timeStep =>
      call (myDataProcessing (dataProcessing.export
        dataProcessing.exportTerzaghiAnalyticalSolution [Ly; psiPore *
        alpha; #1 / S11; #0; #0; #0; #2 * G + lambda; sigmab; dt;
        consolidationCoefficient]%dbl timeStep pairName)) ;;
      call (myDataProcessing (dataProcessing.export
        dataProcessing.exportMacroPressureHSolution [dy; h; Ly]%dbl timeStep
        pairName)) ;;
      call (myDataProcessing (dataProcessing.export
        dataProcessing.exportMacroPressureTSolution [dy; dt; Ly]%dbl
        timeStep pairName))) ;;
    Ret (Normal ierr)).

(** [int stripfootDouble(...)]. *)
Definition stripfootDouble (gridType interpScheme : string) (Nt meshSize : Z)
    (Lt g sigmab : D) (myProperties : poroelasticProperties D)
  : Prog D PetscErrorCode :=
  function (
    (* ENTRY PARAMETERS *)
    let Nx := 5 * meshSize in
    let Ny := 5 * meshSize in
    let stripSize := meshSize in
    let Lx : D := (#5)%dbl in
    let Ly : D := (#5)%dbl in
    let sCoordinates : table D :=
      [[Lx; Ly]; [#0; Ly]; [#0; #0]; [Lx; #0]]%dbl in
    let pairName := pairName myProperties in
    let G := shearModulus myProperties in
    let lambda := (bulkModulus myProperties - #2 * G / #3)%dbl in
    let phiPore := porosity myProperties in
    let phiFrac := macroPorosity myProperties in
    let KPore := permeability myProperties in
    let KFrac := macroPermeability myProperties in
    let c_s := (#1 / solidBulkModulus myProperties)%dbl in
    let rho_s := solidDensity myProperties in
    let c_f := (#1 / fluidBulkModulus myProperties)%dbl in
    let rho_f := fluidDensity myProperties in
    let mu_f := fluidViscosity myProperties in
    let bcType : intTable :=
      [[-1; -1; -1; -1]; [1; -1; -1; -1]; [-1; 1; -1; -1]; [1; -1; -1; -1]]
        in
    let bcValue : table D :=
      [[#0; #0; #0; #0]; [#0; #0; #0; #0]; [#0; #0; #0; #0]; [#0; #0; #0;
        #0]]%dbl in
    (* GRID CREATION *)
    grid <- call (myGrid
      (gridDesign.new Nx Ny Nt Lx Ly Lt gridType sCoordinates)) ;;
    let Nu := gridDesign.numberOfActiveUDisplacementFV grid in
    let Nv := gridDesign.numberOfActiveVDisplacementFV grid in
    let NP := gridDesign.numberOfActiveGeneralFV grid in
    let dx := gridDesign.dx grid in
    let dy := gridDesign.dy grid in
    let dt := gridDesign.dt grid in
    let h := gridDesign.h grid in
    let idU := gridDesign.uDisplacementFVIndex grid in
    let idV := gridDesign.vDisplacementFVIndex grid in
    let idP := gridDesign.generalFVIndex grid in
    let cooU := gridDesign.uDisplacementFVCoordinates grid in
    let cooV := gridDesign.vDisplacementFVCoordinates grid in
    let cooP := gridDesign.generalFVCoordinates grid in
    let horFaceStatus := gridDesign.horizontalFacesStatus grid in
    let verFaceStatus := gridDesign.verticalFacesStatus grid in
    let uField := gridDesign.uDisplacementField grid in
    let vField := gridDesign.vDisplacementField grid in
    let pPoreField := gridDesign.pressureField grid in
    let pFracField := pPoreField in
    (* PROBLEM PARAMETERS CALCULATION *)
    call (myDoubleProblem (problemDoubleParameters.new phiPore phiFrac c_f
      c_s G lambda mu_f KPore KFrac sigmab cooV idV)) ;;
    problem <- call (myDoubleProblem problemDoubleParameters.read) ;;
    let psiPore := problemDoubleParameters.psiPore problem in
    let psiFrac := problemDoubleParameters.psiFrac problem in
    let alpha := problemDoubleParameters.alpha problem in
    let S11 := problemDoubleParameters.S11 problem in
    let S12 := problemDoubleParameters.S12 problem in
    let S22 := problemDoubleParameters.S22 problem in
    leak <- call (myDoubleProblem
      (problemDoubleParameters.computeLeakTerm 11)) ;;
    (* LINEAR SYSTEM'S COEFFICIENTS MATRIX ASSEMBLY *)
    call (myCoefficients (coefficientsAssembly.new bcType Nu Nv NP idU idV
      idP cooU cooV cooP horFaceStatus verFaceStatus gridType
      interpScheme)) ;;
    call (myCoefficients (coefficientsAssembly.assemblyDoublePorosityMatrix
      dx dy dt G lambda alpha KPore KFrac mu_f S11 S12 S22 psiPore psiFrac
      leak)) ;;
    call (myCoefficients
      (coefficientsAssembly.addStripfootBC stripSize KPore mu_f)) ;;
    call (myCoefficients
      (coefficientsAssembly.addMacroStripfootBC stripSize KFrac mu_f)) ;;
    coefficients <- call (myCoefficients coefficientsAssembly.read) ;;
    let coefficientsMatrix :=
      coefficientsAssembly.coefficientsMatrix coefficients in
    let sparseCoefficientsRow :=
      coefficientsAssembly.sparseCoefficientsRow coefficients in
    let sparseCoefficientsColumn :=
      coefficientsAssembly.sparseCoefficientsColumn coefficients in
    let sparseCoefficientsValue :=
      coefficientsAssembly.sparseCoefficientsValue coefficients in
    (* LINEAR SYSTEM SOLVER *)
    call (myIndependentTerms (independentTermsAssembly.new bcType bcValue
      Nu Nv NP idU idV idP cooU cooV cooP horFaceStatus verFaceStatus
      gridType interpScheme)) ;;
    call (myLinearSystemSolver (linearSystemSolver.new coefficientsMatrix
      sparseCoefficientsRow sparseCoefficientsColumn
      sparseCoefficientsValue uField vField pPoreField Nu Nv NP Nt idU idV
      idP cooU cooV cooP)) ;;
    call (myIndependentTerms
      independentTermsAssembly.increaseMacroIndependentTermsArray) ;;
    call (myLinearSystemSolver
      (linearSystemSolver.createMacroPressureField pFracField)) ;;
    ierr <- call (myLinearSystemSolver
      linearSystemSolver.coefficientsMatrixLUFactorization) ;;
    CHKERRQ ierr ;;
    ierr <- call (myLinearSystemSolver
      linearSystemSolver.createPETScArrays) ;;
    CHKERRQ ierr ;;
    ierr <- call (myLinearSystemSolver linearSystemSolver.zeroPETScArrays) ;;
    CHKERRQ ierr ;;
    '(ierr, (uField, vField, pPoreField, pFracField)) <-
      forLoop (Z.to_nat (Nt - 1)) 0
        (fun timeStep '(ierr, (uField, vField, pPoreField, pFracField)) =>
          call (myIndependentTerms
            (independentTermsAssembly.assemblyMacroIndependentTermsArray dx
              dy dt G lambda alpha KPore mu_f S11 (#0)%dbl (#0)%dbl uField
              vField pPoreField pFracField timeStep phiPore phiFrac KFrac
              S12 S22)) ;;
          call (myIndependentTerms
            (independentTermsAssembly.addStripfootBC stripSize dx sigmab)) ;;
          call (myIndependentTerms
            (independentTermsAssembly.addMacroStripfootBC stripSize dx
              sigmab)) ;;
          independentTermsArray <- call (myIndependentTerms
            independentTermsAssembly.independentTermsArray) ;;
          ierr <- call (myLinearSystemSolver
            linearSystemSolver.zeroPETScArrays) ;;
          CHKERRQ ierr ;;
          ierr <- call (myLinearSystemSolver
            (linearSystemSolver.setRHSValue independentTermsArray)) ;;
          CHKERRQ ierr ;;
          ierr <- call (myLinearSystemSolver
            linearSystemSolver.solveLinearSystem) ;;
          CHKERRQ ierr ;;
          ierr <- call (myLinearSystemSolver
            (linearSystemSolver.setFieldValue (timeStep + 1))) ;;
          CHKERRQ ierr ;;
          ierr <- call (myLinearSystemSolver
            (linearSystemSolver.setMacroFieldValue (timeStep + 1))) ;;
          CHKERRQ ierr ;;
          uField <- call (myLinearSystemSolver linearSystemSolver.uField) ;;
          vField <- call (myLinearSystemSolver linearSystemSolver.vField) ;;
          pPoreField <- call (myLinearSystemSolver
            linearSystemSolver.pField) ;;
          pFracField <- call (myLinearSystemSolver
            linearSystemSolver.pMField) ;;
          ierr <- call (myLinearSystemSolver
            linearSystemSolver.zeroPETScArrays) ;;
          CHKERRQ ierr ;;
          Ret (Normal (ierr, (uField, vField, pPoreField, pFracField))))
        (ierr, (uField, vField, pPoreField, pFracField)) ;;
    (* DATA PROCESSING *)
    let exportedTimeSteps := exportedTimeSteps_eighth Nt in
    call (myDataProcessing (dataProcessing.new idU idV idP uField vField
      pPoreField gridType interpScheme dx dy)) ;;
    call (myDataProcessing
      (dataProcessing.storeMacroPressure3DField idP pFracField)) ;;
    forEach exportedTimeSteps (fun timeStep =>
      call (myDataProcessing (dataProcessing.export
        dataProcessing.exportStripfootTSolution [dx; dy; dt; Ly]%dbl
        timeStep pairName)) ;;
      call (myDataProcessing (dataProcessing.export
        dataProcessing.exportStripfootHSolution [dx; dy; h; Ly]%dbl timeStep
        pairName))) ;;
    Ret (Normal ierr)).

(** [int sealedDouble(...)]. *)
Definition sealedDouble (gridType interpScheme : string) (Nt meshSize : Z)
    (Lt g sigmab : D) (myProperties : poroelasticProperties D)
  : Prog D PetscErrorCode :=
  function (
    (* ENTRY PARAMETERS *)
    let Nx := meshSize in
    let Ny := 6 * meshSize in
    let Lx : D := (#1)%dbl in
    let Ly : D := (#6)%dbl in
    let sCoordinates : table D :=
      [[Lx; Ly]; [#0; Ly]; [#0; #0]; [Lx; #0]]%dbl in
    let pairName := pairName myProperties in
    let G := shearModulus myProperties in
    let lambda := (bulkModulus myProperties - #2 * G / #3)%dbl in
    let phiPore := porosity myProperties in
    let phiFrac := macroPorosity myProperties in
    let KPore := permeability myProperties in
    let KFrac := macroPermeability myProperties in
    let c_s := (#1 / solidBulkModulus myProperties)%dbl in
    let rho_s := solidDensity myProperties in
    let c_f := (#1 / fluidBulkModulus myProperties)%dbl in
    let rho_f := fluidDensity myProperties in
    let mu_f := fluidViscosity myProperties in
    let bcType : intTable :=
      [[-1; -1; -1; -1]; [1; -1; -1; -1]; [-1; 1; -1; -1]; [1; -1; -1; -1]]
        in
    let bcValue : table D :=
      [[#0; sigmab; #0; #0]; [#0; #0; #0; #0]; [#0; #0; #0; #0]; [#0; #0;
        #0; #0]]%dbl in
    (* GRID CREATION *)
    grid <- call (myGrid
      (gridDesign.new Nx Ny Nt Lx Ly Lt gridType sCoordinates)) ;;
    let Nu := gridDesign.numberOfActiveUDisplacementFV grid in
    let Nv := gridDesign.numberOfActiveVDisplacementFV grid in
    let NP := gridDesign.numberOfActiveGeneralFV grid in
    let dx := gridDesign.dx grid in
    let dy := gridDesign.dy grid in
    let dt := gridDesign.dt grid in
    let h := gridDesign.h grid in
    let idU := gridDesign.uDisplacementFVIndex grid in
    let idV := gridDesign.vDisplacementFVIndex grid in
    let idP := gridDesign.generalFVIndex grid in
    let cooU := gridDesign.uDisplacementFVCoordinates grid in
    let cooV := gridDesign.vDisplacementFVCoordinates grid in
    let cooP := gridDesign.generalFVCoordinates grid in
    let horFaceStatus := gridDesign.horizontalFacesStatus grid in
    let verFaceStatus := gridDesign.verticalFacesStatus grid in
    let uField := gridDesign.uDisplacementField grid in
    let vField := gridDesign.vDisplacementField grid in
    let pPoreField := gridDesign.pressureField grid in
    let pFracField := pPoreField in
    (* PROBLEM PARAMETERS CALCULATION *)
    call (myDoubleProblem (problemDoubleParameters.new phiPore phiFrac c_f
      c_s G lambda mu_f KPore KFrac sigmab cooV idV)) ;;
    problem <- call (myDoubleProblem problemDoubleParameters.read) ;;
    let psiPore := problemDoubleParameters.psiPore problem in
    let psiFrac := problemDoubleParameters.psiFrac problem in
    let alpha := problemDoubleParameters.alpha problem in
    let S11 := problemDoubleParameters.S11 problem in
    let S12 := problemDoubleParameters.S12 problem in
    let S22 := problemDoubleParameters.S22 problem in
    leak <- call (myDoubleProblem
      (problemDoubleParameters.computeLeakTerm 11)) ;;
    (* LINEAR SYSTEM'S COEFFICIENTS MATRIX ASSEMBLY *)
    call (myCoefficients (coefficientsAssembly.new bcType Nu Nv NP idU idV
      idP cooU cooV cooP horFaceStatus verFaceStatus gridType
      interpScheme)) ;;
    call (myCoefficients (coefficientsAssembly.assemblyDoublePorosityMatrix
      dx dy dt G lambda alpha KPore KFrac mu_f S11 S12 S22 psiPore psiFrac
      leak)) ;;
    coefficients <- call (myCoefficients coefficientsAssembly.read) ;;
    let coefficientsMatrix :=
      coefficientsAssembly.coefficientsMatrix coefficients in
    let sparseCoefficientsRow :=
      coefficientsAssembly.sparseCoefficientsRow coefficients in
    let sparseCoefficientsColumn :=
      coefficientsAssembly.sparseCoefficientsColumn coefficients in
    let sparseCoefficientsValue :=
      coefficientsAssembly.sparseCoefficientsValue coefficients in
    (* LINEAR SYSTEM SOLVER *)
    call (myIndependentTerms (independentTermsAssembly.new bcType bcValue
      Nu Nv NP idU idV idP cooU cooV cooP horFaceStatus verFaceStatus
      gridType interpScheme)) ;;
    call (myLinearSystemSolver (linearSystemSolver.new coefficientsMatrix
      sparseCoefficientsRow sparseCoefficientsColumn
      sparseCoefficientsValue uField vField pPoreField Nu Nv NP Nt idU idV
      idP cooU cooV cooP)) ;;
    call (myIndependentTerms
      independentTermsAssembly.increaseMacroIndependentTermsArray) ;;
    call (myLinearSystemSolver
      (linearSystemSolver.createMacroPressureField pFracField)) ;;
    ierr <- call (myLinearSystemSolver
      linearSystemSolver.coefficientsMatrixLUFactorization) ;;
    CHKERRQ ierr ;;
    ierr <- call (myLinearSystemSolver
      linearSystemSolver.createPETScArrays) ;;
    CHKERRQ ierr ;;
    ierr <- call (myLinearSystemSolver linearSystemSolver.zeroPETScArrays) ;;
    CHKERRQ ierr ;;
    '(ierr, (uField, vField, pPoreField, pFracField)) <-
      forLoop (Z.to_nat (Nt - 1)) 0
        (fun timeStep '(ierr, (uField, vField, pPoreField, pFracField)) =>
          call (myIndependentTerms
            (independentTermsAssembly.assemblyMacroIndependentTermsArray dx
              dy dt G lambda alpha KPore mu_f S11 (#0)%dbl (#0)%dbl uField
              vField pPoreField pFracField timeStep phiPore phiFrac KFrac
              S12 S22)) ;;
          independentTermsArray <- call (myIndependentTerms
            independentTermsAssembly.independentTermsArray) ;;
          ierr <- call (myLinearSystemSolver
            linearSystemSolver.zeroPETScArrays) ;;
          CHKERRQ ierr ;;
          ierr <- call (myLinearSystemSolver
            (linearSystemSolver.setRHSValue independentTermsArray)) ;;
          CHKERRQ ierr ;;
          ierr <- call (myLinearSystemSolver
            linearSystemSolver.solveLinearSystem) ;;
          CHKERRQ ierr ;;
          ierr <- call (myLinearSystemSolver
            (linearSystemSolver.setFieldValue (timeStep + 1))) ;;
          CHKERRQ ierr ;;
          ierr <- call (myLinearSystemSolver
            (linearSystemSolver.setMacroFieldValue (timeStep + 1))) ;;
          CHKERRQ ierr ;;
          uField <- call (myLinearSystemSolver linearSystemSolver.uField) ;;
          vField <- call (myLinearSystemSolver linearSystemSolver.vField) ;;
          pPoreField <- call (myLinearSystemSolver
            linearSystemSolver.pField) ;;
          pFracField <- call (myLinearSystemSolver
            linearSystemSolver.pMField) ;;
          ierr <- call (myLinearSystemSolver
            linearSystemSolver.zeroPETScArrays) ;;
          CHKERRQ ierr ;;
          Ret (Normal (ierr, (uField, vField, pPoreField, pFracField))))
        (ierr, (uField, vField, pPoreField, pFracField)) ;;
    (* DATA PROCESSING *)
    let exportedTimeSteps := exportedTimeSteps_sealedDouble Nt in
    call (myDataProcessing (dataProcessing.newDouble idU idV idP uField vField
      pPoreField gridType interpScheme dx dy)) ;;
    call (myDataProcessing
      (dataProcessing.storeMacroPressure3DField idP pFracField)) ;;
    forEach exportedTimeSteps (fun timeStep =>
      call (myDataProcessing (dataProcessing.export
        dataProcessing.exportSealedDoubleAnalyticalSolution [Ly; alpha *
        psiPore; alpha * psiFrac; #2 * G + lambda; S11; S12; S22; sigmab;
        dt]%dbl timeStep pairName)) ;;
      call (myDataProcessing (dataProcessing.export
        dataProcessing.exportSealedDoubleNumericalSolution [dy; dt; Ly]%dbl
        timeStep pairName))) ;;
    Ret (Normal ierr)).

(** [int storageDouble(...)]. *)
Definition storageDouble (gridType interpScheme : string) (Nt meshSize : Z)
    (Lt g sigmab : D) (myProperties : poroelasticProperties D)
  : Prog D PetscErrorCode :=
  function (
    (* ENTRY PARAMETERS *)
    let Nx := meshSize in
    let Ny := 6 * meshSize in
    let Lx : D := (#1)%dbl in
    let Ly : D := (#6)%dbl in
    let sCoordinates : table D :=
      [[Lx; Ly]; [#0; Ly]; [#0; #0]; [Lx; #0]]%dbl in
    let pairName := pairName myProperties in
    let G := shearModulus myProperties in
    let lambda := (bulkModulus myProperties - #2 * G / #3)%dbl in
    let phiPore := porosity myProperties in
    let phiFrac := macroPorosity myProperties in
    let KPore := permeability myProperties in
    let KFrac := macroPermeability myProperties in
    let c_s := (#1 / solidBulkModulus myProperties)%dbl in
    let rho_s := solidDensity myProperties in
    let c_f := (#1 / fluidBulkModulus myProperties)%dbl in
    let rho_f := fluidDensity myProperties in
    let mu_f := fluidViscosity myProperties in
    let bcType : intTable :=
      [[-1; -1; 1; 1]; [1; -1; -1; -1]; [-1; 1; -1; -1]; [1; -1; -1; -1]] in
    let bcValue : table D :=
      [[#0; sigmab; #0; #0]; [#0; #0; #0; #0]; [#0; #0; #0; #0]; [#0; #0;
        #0; #0]]%dbl in
    (* GRID CREATION *)
    grid <- call (myGrid
      (gridDesign.new Nx Ny Nt Lx Ly Lt gridType sCoordinates)) ;;
    let Nu := gridDesign.numberOfActiveUDisplacementFV grid in
    let Nv := gridDesign.numberOfActiveVDisplacementFV grid in
    let NP := gridDesign.numberOfActiveGeneralFV grid in
    let dx := gridDesign.dx grid in
    let dy := gridDesign.dy grid in
    let dt := gridDesign.dt grid in
    let h := gridDesign.h grid in
    let idU := gridDesign.uDisplacementFVIndex grid in
    let idV := gridDesign.vDisplacementFVIndex grid in
    let idP := gridDesign.generalFVIndex grid in
    let cooU := gridDesign.uDisplacementFVCoordinates grid in
    let cooV := gridDesign.vDisplacementFVCoordinates grid in
    let cooP := gridDesign.generalFVCoordinates grid in
    let horFaceStatus := gridDesign.horizontalFacesStatus grid in
    let verFaceStatus := gridDesign.verticalFacesStatus grid in
    let uField := gridDesign.uDisplacementField grid in
    let vField := gridDesign.vDisplacementField grid in
    let pPoreField := gridDesign.pressureField grid in
    let pFracField := pPoreField in
    (* PROBLEM PARAMETERS CALCULATION *)
    call (myDoubleProblem (problemDoubleParameters.new phiPore phiFrac c_f
      c_s G lambda mu_f KPore KFrac sigmab cooV idV)) ;;
    call (myDoubleProblem
      (problemDoubleParameters.applyDoublePoreInitialConditions dy Ly
        vField pPoreField pFracField)) ;;
    problem <- call (myDoubleProblem problemDoubleParameters.read) ;;
    let psiPore := problemDoubleParameters.psiPore problem in
    let psiFrac := problemDoubleParameters.psiFrac problem in
    let alpha := problemDoubleParameters.alpha problem in
    let S11 := problemDoubleParameters.S11 problem in
    let S12 := problemDoubleParameters.S12 problem in
    let S22 := problemDoubleParameters.S22 problem in
    leak <- call (myDoubleProblem
      (problemDoubleParameters.computeLeakTerm 0)) ;;
    problem' <- call (myDoubleProblem problemDoubleParameters.read) ;;
    let vField := problemDoubleParameters.vDisplacementField problem' in
    let pPoreField := problemDoubleParameters.pressurePoreField problem' in
    let pFracField := problemDoubleParameters.pressureFracField problem' in
    (* LINEAR SYSTEM'S COEFFICIENTS MATRIX ASSEMBLY *)
    call (myCoefficients (coefficientsAssembly.new bcType Nu Nv NP idU idV
      idP cooU cooV cooP horFaceStatus verFaceStatus gridType
      interpScheme)) ;;
    call (myCoefficients (coefficientsAssembly.assemblyDoublePorosityMatrix
      dx dy dt G lambda alpha KPore KFrac mu_f S11 S12 S22 psiPore psiFrac
      leak)) ;;
    coefficients <- call (myCoefficients coefficientsAssembly.read) ;;
    let coefficientsMatrix :=
      coefficientsAssembly.coefficientsMatrix coefficients in
    let sparseCoefficientsRow :=
      coefficientsAssembly.sparseCoefficientsRow coefficients in
    let sparseCoefficientsColumn :=
      coefficientsAssembly.sparseCoefficientsColumn coefficients in
    let sparseCoefficientsValue :=
      coefficientsAssembly.sparseCoefficientsValue coefficients in
    (* LINEAR SYSTEM SOLVER *)
    call (myIndependentTerms (independentTermsAssembly.new bcType bcValue
      Nu Nv NP idU idV idP cooU cooV cooP horFaceStatus verFaceStatus
      gridType interpScheme)) ;;
    call (myLinearSystemSolver (linearSystemSolver.new coefficientsMatrix
      sparseCoefficientsRow sparseCoefficientsColumn
      sparseCoefficientsValue uField vField pPoreField Nu Nv NP Nt idU idV
      idP cooU cooV cooP)) ;;
    call (myIndependentTerms
      independentTermsAssembly.increaseMacroIndependentTermsArray) ;;
    call (myLinearSystemSolver
      (linearSystemSolver.createMacroPressureField pFracField)) ;;
    ierr <- call (myLinearSystemSolver
      linearSystemSolver.coefficientsMatrixLUFactorization) ;;
    CHKERRQ ierr ;;
    ierr <- call (myLinearSystemSolver
      linearSystemSolver.createPETScArrays) ;;
    CHKERRQ ierr ;;
    ierr <- call (myLinearSystemSolver linearSystemSolver.zeroPETScArrays) ;;
    CHKERRQ ierr ;;
    '(ierr, (uField, vField, pPoreField, pFracField)) <-
      forLoop (Z.to_nat (Nt - 1)) 0
        (fun timeStep '(ierr, (uField, vField, pPoreField, pFracField)) =>
          call (myIndependentTerms
            (independentTermsAssembly.assemblyMacroIndependentTermsArray dx
              dy dt G lambda alpha KPore mu_f S11 (#0)%dbl (#0)%dbl uField
              vField pPoreField pFracField timeStep phiPore phiFrac KFrac
              S12 S22)) ;;
          independentTermsArray <- call (myIndependentTerms
            independentTermsAssembly.independentTermsArray) ;;
          ierr <- call (myLinearSystemSolver
            linearSystemSolver.zeroPETScArrays) ;;
          CHKERRQ ierr ;;
          ierr <- call (myLinearSystemSolver
            (linearSystemSolver.setRHSValue independentTermsArray)) ;;
          CHKERRQ ierr ;;
          ierr <- call (myLinearSystemSolver
            linearSystemSolver.solveLinearSystem) ;;
          CHKERRQ ierr ;;
          ierr <- call (myLinearSystemSolver
            (linearSystemSolver.setFieldValue (timeStep + 1))) ;;
          CHKERRQ ierr ;;
          ierr <- call (myLinearSystemSolver
            (linearSystemSolver.setMacroFieldValue (timeStep + 1))) ;;
          CHKERRQ ierr ;;
          uField <- call (myLinearSystemSolver linearSystemSolver.uField) ;;
          vField <- call (myLinearSystemSolver linearSystemSolver.vField) ;;
          pPoreField <- call (myLinearSystemSolver
            linearSystemSolver.pField) ;;
          pFracField <- call (myLinearSystemSolver
            linearSystemSolver.pMField) ;;
          ierr <- call (myLinearSystemSolver
            linearSystemSolver.zeroPETScArrays) ;;
          CHKERRQ ierr ;;
          Ret (Normal (ierr, (uField, vField, pPoreField, pFracField))))
        (ierr, (uField, vField, pPoreField, pFracField)) ;;
    (* DATA PROCESSING *)
    let exportedTimeSteps := exportedTimeSteps_storageDouble Nt in
    call (myDataProcessing (dataProcessing.newDouble idU idV idP uField vField
      pPoreField gridType interpScheme dx dy)) ;;
    call (myDataProcessing
      (dataProcessing.storeMacroPressure3DField idP pFracField)) ;;
    forEach exportedTimeSteps (fun timeStep =>
      call (myDataProcessing (dataProcessing.export
        dataProcessing.exportDrainedDoubleNumericalSolution [dy; dt; Ly]%dbl
        timeStep pairName)) ;;
      call (myDataProcessing (dataProcessing.export
        dataProcessing.exportStorageAnalyticalSolution [Ly; alpha * psiPore;
        alpha * psiFrac; #2 * G + lambda; S11; S12; S22; KPore; KFrac; mu_f;
        sigmab; dt]%dbl timeStep pairName))) ;;
    Ret (Normal ierr)).

(** [int leakingDouble(...)]. *)
Definition leakingDouble (gridType interpScheme : string) (Nt meshSize : Z)
    (Lt g sigmab : D) (myProperties : poroelasticProperties D)
  : Prog D PetscErrorCode :=
  function (
    (* ENTRY PARAMETERS *)
    let Nx := meshSize in
    let Ny := 6 * meshSize in
    let Lx : D := (#1)%dbl in
    let Ly : D := (#6)%dbl in
    let sCoordinates : table D :=
      [[Lx; Ly]; [#0; Ly]; [#0; #0]; [Lx; #0]]%dbl in
    let pairName := pairName myProperties in
    let G := shearModulus myProperties in
    let lambda := (bulkModulus myProperties - #2 * G / #3)%dbl in
    let phiPore := porosity myProperties in
    let phiFrac := macroPorosity myProperties in
    let KPore := permeability myProperties in
    let KFrac := macroPermeability myProperties in
    let c_s := (#1 / solidBulkModulus myProperties)%dbl in
    let rho_s := solidDensity myProperties in
    let c_f := (#1 / fluidBulkModulus myProperties)%dbl in
    let rho_f := fluidDensity myProperties in
    let mu_f := fluidViscosity myProperties in
    let bcType : intTable :=
      [[-1; -1; 1; 1]; [1; -1; -1; -1]; [-1; 1; -1; -1]; [1; -1; -1; -1]] in
    let bcValue : table D :=
      [[#0; sigmab; #0; #0]; [#0; #0; #0; #0]; [#0; #0; #0; #0]; [#0; #0;
        #0; #0]]%dbl in
    (* GRID CREATION *)
    grid <- call (myGrid
      (gridDesign.new Nx Ny Nt Lx Ly Lt gridType sCoordinates)) ;;
    let Nu := gridDesign.numberOfActiveUDisplacementFV grid in
    let Nv := gridDesign.numberOfActiveVDisplacementFV grid in
    let NP := gridDesign.numberOfActiveGeneralFV grid in
    let dx := gridDesign.dx grid in
    let dy := gridDesign.dy grid in
    let dt := gridDesign.dt grid in
    let h := gridDesign.h grid in
    let idU := gridDesign.uDisplacementFVIndex grid in
    let idV := gridDesign.vDisplacementFVIndex grid in
    let idP := gridDesign.generalFVIndex grid in
    let cooU := gridDesign.uDisplacementFVCoordinates grid in
    let cooV := gridDesign.vDisplacementFVCoordinates grid in
    let cooP := gridDesign.generalFVCoordinates grid in
    let horFaceStatus := gridDesign.horizontalFacesStatus grid in
    let verFaceStatus := gridDesign.verticalFacesStatus grid in
    let uField := gridDesign.uDisplacementField grid in
    let vField := gridDesign.vDisplacementField grid in
    let pPoreField := gridDesign.pressureField grid in
    let pFracField := pPoreField in
    (* PROBLEM PARAMETERS CALCULATION *)
    call (myDoubleProblem (problemDoubleParameters.new phiPore phiFrac c_f
      c_s G lambda mu_f KPore KFrac sigmab cooV idV)) ;;
    call (myDoubleProblem
      (problemDoubleParameters.applyDoublePoreInitialConditions dy Ly
        vField pPoreField pFracField)) ;;
    problem <- call (myDoubleProblem problemDoubleParameters.read) ;;
    let psiPore := problemDoubleParameters.psiPore problem in
    let psiFrac := problemDoubleParameters.psiFrac problem in
    let alpha := problemDoubleParameters.alpha problem in
    let S11 := problemDoubleParameters.S11 problem in
    let S12 := problemDoubleParameters.S12 problem in
    let S22 := problemDoubleParameters.S22 problem in
    leak <- call (myDoubleProblem
      (problemDoubleParameters.computeLeakTerm 11)) ;;
    problem' <- call (myDoubleProblem problemDoubleParameters.read) ;;
    let vField := problemDoubleParameters.vDisplacementField problem' in
    let pPoreField := problemDoubleParameters.pressurePoreField problem' in
    let pFracField := problemDoubleParameters.pressureFracField problem' in
    (* Forcing transient term decoupling *)
    let M := (#2 * G + lambda)%dbl in
    let S12 := (- psiPore * alpha * psiFrac * alpha / M)%dbl in
    (* LINEAR SYSTEM'S COEFFICIENTS MATRIX ASSEMBLY *)
    call (myCoefficients (coefficientsAssembly.new bcType Nu Nv NP idU idV
      idP cooU cooV cooP horFaceStatus verFaceStatus gridType
      interpScheme)) ;;
    call (myCoefficients (coefficientsAssembly.assemblyDoublePorosityMatrix
      dx dy dt G lambda alpha KPore KFrac mu_f S11 S12 S22 psiPore psiFrac
      leak)) ;;
    coefficients <- call (myCoefficients coefficientsAssembly.read) ;;
    let coefficientsMatrix :=
      coefficientsAssembly.coefficientsMatrix coefficients in
    let sparseCoefficientsRow :=
      coefficientsAssembly.sparseCoefficientsRow coefficients in
    let sparseCoefficientsColumn :=
      coefficientsAssembly.sparseCoefficientsColumn coefficients in
    let sparseCoefficientsValue :=
      coefficientsAssembly.sparseCoefficientsValue coefficients in
    (* LINEAR SYSTEM SOLVER *)
    call (myIndependentTerms (independentTermsAssembly.new bcType bcValue
      Nu Nv NP idU idV idP cooU cooV cooP horFaceStatus verFaceStatus
      gridType interpScheme)) ;;
    call (myLinearSystemSolver (linearSystemSolver.new coefficientsMatrix
      sparseCoefficientsRow sparseCoefficientsColumn
      sparseCoefficientsValue uField vField pPoreField Nu Nv NP Nt idU idV
      idP cooU cooV cooP)) ;;
    call (myIndependentTerms
      independentTermsAssembly.increaseMacroIndependentTermsArray) ;;
    call (myLinearSystemSolver
      (linearSystemSolver.createMacroPressureField pFracField)) ;;
    ierr <- call (myLinearSystemSolver
      linearSystemSolver.coefficientsMatrixLUFactorization) ;;
    CHKERRQ ierr ;;
    ierr <- call (myLinearSystemSolver
      linearSystemSolver.createPETScArrays) ;;
    CHKERRQ ierr ;;
    ierr <- call (myLinearSystemSolver linearSystemSolver.zeroPETScArrays) ;;
    CHKERRQ ierr ;;
    '(ierr, (uField, vField, pPoreField, pFracField)) <-
      forLoop (Z.to_nat (Nt - 1)) 0
        (fun timeStep '(ierr, (uField, vField, pPoreField, pFracField)) =>
          call (myIndependentTerms
            (independentTermsAssembly.assemblyMacroIndependentTermsArray dx
              dy dt G lambda alpha KPore mu_f S11 (#0)%dbl (#0)%dbl uField
              vField pPoreField pFracField timeStep phiPore phiFrac KFrac
              S12 S22)) ;;
          independentTermsArray <- call (myIndependentTerms
            independentTermsAssembly.independentTermsArray) ;;
          ierr <- call (myLinearSystemSolver
            linearSystemSolver.zeroPETScArrays) ;;
          CHKERRQ ierr ;;
          ierr <- call (myLinearSystemSolver
            (linearSystemSolver.setRHSValue independentTermsArray)) ;;
          CHKERRQ ierr ;;
          ierr <- call (myLinearSystemSolver
            linearSystemSolver.solveLinearSystem) ;;
          CHKERRQ ierr ;;
          ierr <- call (myLinearSystemSolver
            (linearSystemSolver.setFieldValue (timeStep + 1))) ;;
          CHKERRQ ierr ;;
          ierr <- call (myLinearSystemSolver
            (linearSystemSolver.setMacroFieldValue (timeStep + 1))) ;;
          CHKERRQ ierr ;;
          uField <- call (myLinearSystemSolver linearSystemSolver.uField) ;;
          vField <- call (myLinearSystemSolver linearSystemSolver.vField) ;;
          pPoreField <- call (myLinearSystemSolver
            linearSystemSolver.pField) ;;
          pFracField <- call (myLinearSystemSolver
            linearSystemSolver.pMField) ;;
          ierr <- call (myLinearSystemSolver
            linearSystemSolver.zeroPETScArrays) ;;
          CHKERRQ ierr ;;
          Ret (Normal (ierr, (uField, vField, pPoreField, pFracField))))
        (ierr, (uField, vField, pPoreField, pFracField)) ;;
    (* DATA PROCESSING *)
    let exportedTimeSteps := exportedTimeSteps_leakingDouble Nt in
    call (myDataProcessing (dataProcessing.newDouble idU idV idP uField vField
      pPoreField gridType interpScheme dx dy)) ;;
    call (myDataProcessing
      (dataProcessing.storeMacroPressure3DField idP pFracField)) ;;
    forEach exportedTimeSteps (fun timeStep =>
      call (myDataProcessing (dataProcessing.export
        dataProcessing.exportDrainedDoubleNumericalSolution [dy; dt; Ly]%dbl
        timeStep pairName)) ;;
      call (myDataProcessing (dataProcessing.export
        dataProcessing.exportLeakingAnalyticalSolution [Ly; alpha * psiPore;
        alpha * psiFrac; #2 * G + lambda; S11; S12; S22; KPore; KFrac; mu_f;
        sigmab; leak; dt]%dbl timeStep pairName))) ;;
    Ret (Normal ierr)).


(** The ten benchmarks and their common signature. *)
Inductive benchmark : Type :=
| SealedColumn | Terzaghi | Mandel | Convergence | Stripfoot
| TerzaghiDouble | StripfootDouble | SealedDouble | StorageDouble
| LeakingDouble.

Definition driver (b : benchmark) :
  string -> string -> Z -> Z -> D -> D -> D -> poroelasticProperties D ->
  Prog D PetscErrorCode :=
  match b with
  | SealedColumn => sealedColumn
  | Terzaghi => terzaghi
  | Mandel => mandel
  | Convergence => convergence
  | Stripfoot => stripfoot
  | TerzaghiDouble => terzaghiDouble
  | StripfootDouble => stripfootDouble
  | SealedDouble => sealedDouble
  | StorageDouble => storageDouble
  | LeakingDouble => leakingDouble
  end.

(** ** The two [main] programs

    [args[1..3]] are the three strings; [myProperties0] is the
    default-initialised [poroelasticProperties myProperties], whose
    members hold what they hold until assigned.  The status of the
    process is the value [main] returns, or the argument of [exit]. *)

Definition properties_path (myMedium : string) : string :=
  ("../input/" ++ myMedium ++ ".txt")%string.

Definition timestepSize_mainDimless : list D :=
  [decimal 25 2; decimal 10 2; decimal 5 2; decimal 1 2].

Definition timestepSize_mainDouble : list D :=
  [decimal 25 2; decimal 10 2].

(** source/mainDimless.cpp *)
Definition mainDimless (myGridType myInterpScheme myMedium : string)
    (myProperties0 : poroelasticProperties D) : Prog D PetscErrorCode :=
  function (
    (* PROPERTIES IMPORT *)
    inFile <- call (sys (runtime.ifstream_open (properties_path myMedium))) ;;
    (if negb inFile then exit 1 else Ret (Normal tt)) ;;
    firstLine <- call (sys runtime.getline) ;;
    shearModulus' <- call (sys runtime.extract_double) ;;
    bulkModulus' <- call (sys runtime.extract_double) ;;
    solidBulkModulus' <- call (sys runtime.extract_double) ;;
    solidDensity' <- call (sys runtime.extract_double) ;;
    fluidBulkModulus' <- call (sys runtime.extract_double) ;;
    porosity' <- call (sys runtime.extract_double) ;;
    permeability' <- call (sys runtime.extract_double) ;;
    fluidViscosity' <- call (sys runtime.extract_double) ;;
    fluidDensity' <- call (sys runtime.extract_double) ;;
    call (sys runtime.close) ;;
    let myProperties :=
      {| pairName := myMedium;
         shearModulus := shearModulus';
         bulkModulus := bulkModulus';
         porosity := porosity';
         permeability := permeability';
         macroPorosity := macroPorosity myProperties0;
         macroPermeability := macroPermeability myProperties0;
         solidBulkModulus := solidBulkModulus';
         solidDensity := solidDensity';
         fluidBulkModulus := fluidBulkModulus';
         fluidViscosity := fluidViscosity';
         fluidDensity := fluidDensity' |} in
    (* GRID DEFINITION *)
    let porosity := porosity myProperties in
    let fluidViscosity := fluidViscosity myProperties in
    let permeability := permeability myProperties in
    let fluidCompressibility := (#1 / fluidBulkModulus myProperties)%dbl in
    let solidCompressibility := (#1 / solidBulkModulus myProperties)%dbl in
    let bulkCompressibility := (#1 / bulkModulus myProperties)%dbl in
    let longitudinalModulus :=
      (bulkModulus myProperties + #4 * shearModulus myProperties / #3)%dbl in
    let alpha := (#1 - solidCompressibility / bulkCompressibility)%dbl in
    let storativity :=
      (porosity * fluidCompressibility
       + (alpha - porosity) * solidCompressibility)%dbl in
    let consolidationCoefficient :=
      ((permeability / fluidViscosity)
       / (storativity + alpha * alpha / longitudinalModulus))%dbl in
    let Nt := 2 in
    let mesh := 3 in
    let h := (#1 / #mesh)%dbl in
    let consolidationTime := (h * h / consolidationCoefficient)%dbl in
    (* OTHER PARAMETERS *)
    let g : D := (#0)%dbl in
    let columnLoad : D := (- #10000)%dbl in
    (* PETSC INITIALIZE *)
    ierr <- call (sys runtime.PetscInitialize) ;;
    CHKERRQ ierr ;;
    (* SOLVE BENCHMARKING PROBLEMS *)
    call (sys (runtime.createSolveRunInfo myGridType myInterpScheme
      "Terzaghi")) ;;
    forEach timestepSize_mainDimless (fun timestepSize_i =>
      let Lt := (#(Nt - 1) * (consolidationTime * timestepSize_i))%dbl in
      let dt := (Lt / #(Nt - 1))%dbl in
      call (sys (runtime.exportSolveRunInfo dt
        ("Terzaghi_" ++ myMedium)%string)) ;;
      ierr <- callee (terzaghi myGridType myInterpScheme Nt mesh Lt g
        columnLoad myProperties) ;;
      CHKERRQ ierr) ;;
    (* PETSC FINALIZE *)
    ierr <- call (sys runtime.PetscFinalize) ;;
    CHKERRQ ierr ;;
    Ret (Normal ierr)).

(** source/mainDouble.cpp *)
Definition mainDouble (myGridType myInterpScheme myMedium : string)
    (myProperties0 : poroelasticProperties D) : Prog D PetscErrorCode :=
  function (
    (* PROPERTIES IMPORT *)
    inFile <- call (sys (runtime.ifstream_open (properties_path myMedium))) ;;
    (if negb inFile then exit 1 else Ret (Normal tt)) ;;
    firstLine <- call (sys runtime.getline) ;;
    shearModulus' <- call (sys runtime.extract_double) ;;
    bulkModulus' <- call (sys runtime.extract_double) ;;
    solidBulkModulus' <- call (sys runtime.extract_double) ;;
    solidDensity' <- call (sys runtime.extract_double) ;;
    fluidBulkModulus' <- call (sys runtime.extract_double) ;;
    porosity' <- call (sys runtime.extract_double) ;;
    permeability' <- call (sys runtime.extract_double) ;;
    fluidViscosity' <- call (sys runtime.extract_double) ;;
    fluidDensity' <- call (sys runtime.extract_double) ;;
    call (sys runtime.close) ;;
    let myProperties :=
      {| pairName := myMedium;
         shearModulus := shearModulus';
         bulkModulus := bulkModulus';
         porosity := (porosity' * #2 / #3)%dbl;
         permeability := (permeability' / #1000)%dbl;
         macroPorosity := (porosity' * #1 / #3)%dbl;
         macroPermeability := (permeability' * #999 / #1000)%dbl;
         solidBulkModulus := solidBulkModulus';
         solidDensity := solidDensity';
         fluidBulkModulus := fluidBulkModulus';
         fluidViscosity := fluidViscosity';
         fluidDensity := fluidDensity' |} in
    (* GRID DEFINITION *)
    let porosity := macroPorosity myProperties in
    let fluidViscosity := fluidViscosity myProperties in
    let permeability := macroPermeability myProperties in
    let fluidCompressibility := (#1 / fluidBulkModulus myProperties)%dbl in
    let solidCompressibility := (#1 / solidBulkModulus myProperties)%dbl in
    let bulkCompressibility := (#1 / bulkModulus myProperties)%dbl in
    let longitudinalModulus :=
      (bulkModulus myProperties + #4 * shearModulus myProperties / #3)%dbl in
    let alpha := (#1 - solidCompressibility / bulkCompressibility)%dbl in
    let storativity :=
      (porosity * fluidCompressibility
       + (alpha - porosity) * solidCompressibility)%dbl in
    let consolidationCoefficient :=
      ((permeability / fluidViscosity)
       / (storativity + alpha * alpha / longitudinalModulus))%dbl in
    let Nt := 2 in
    let mesh := 3 in
    let h := (#1 / #mesh)%dbl in
    let consolidationTime := (h * h / consolidationCoefficient)%dbl in
    (* OTHER PARAMETERS *)
    let g : D := (#0)%dbl in
    let columnLoad : D := (- #10000)%dbl in
    (* PETSC INITIALIZE *)
    ierr <- call (sys runtime.PetscInitialize) ;;
    CHKERRQ ierr ;;
    (* SOLVE BENCHMARKING PROBLEMS *)
    call (sys (runtime.createSolveRunInfo myGridType myInterpScheme
      "Terzaghi")) ;;
    forEach timestepSize_mainDouble (fun timestepSize_i =>
      let Lt := (#(Nt - 1) * (consolidationTime * timestepSize_i))%dbl in
      let dt := (Lt / #(Nt - 1))%dbl in
      call (sys (runtime.exportSolveRunInfo dt
        ("Terzaghi_" ++ myMedium)%string)) ;;
      ierr <- callee (terzaghiDouble myGridType myInterpScheme Nt mesh Lt g
        columnLoad myProperties) ;;
      CHKERRQ ierr) ;;
    (* PETSC FINALIZE *)
    ierr <- call (sys runtime.PetscFinalize) ;;
    CHKERRQ ierr ;;
    Ret (Normal ierr)).
End Drivers.

(** ** Observing runs

    A claim looks at a run through a view: a function from events to the
    symbols the claim is about.  [triple pre p Post] says that [p],
    started after any history viewed as [pre], ends with a result and a
    viewed history that satisfy [Post].  A [contract] states what is
    assumed of the answers of the absent classes; most claims assume
    nothing ([no_contract]). *)

Section Observation.
Context {D Sym : Type}.
Variable view : event D -> list Sym.
Variable contract : forall X : Type, list Sym -> Cmd D X -> X -> Prop.

Definition observe (h : list (event D)) : list Sym := flat_map view h.

Definition respects (w : world) : Prop :=
  forall (X : Type) (h : list (event D)) (c : Cmd D X),
    contract (observe h) c (w X h c).

Variable w : @world D.

Definition triple {R} (pre : list Sym) (p : Prog D R)
           (Post : R -> list Sym -> Prop) : Prop :=
  forall h, observe h = pre ->
            Post (fst (exec w p h)) (observe (snd (exec w p h))).

(** After a statement: go on, or hand the return code up. *)
Definition after {A B} (f : A -> Prog D (outcome B))
           (Post : outcome B -> list Sym -> Prop)
           (o : outcome A) (mid : list Sym) : Prop :=
  match o with
  | Normal a => triple mid (f a) Post
  | Return e => Post (Return e) mid
  end.

Definition goes_on {A} (o : outcome A) (P : Prop) : Prop :=
  match o with Normal _ => P | Return _ => False end.
End Observation.

Definition no_contract {D Sym : Type} (X : Type) (_ : list Sym)
           (_ : Cmd D X) (_ : X) : Prop := True.

(** A run that stops early shows a prefix of what a complete run shows. *)
Definition is_prefix {A} (s full : list A) : Prop :=
  exists rest, s ++ rest = full.

(** ** What the claims observe *)

(** The double-porosity benchmarks. *)
Definition double_porosity (b : benchmark) : bool :=
  match b with
  | TerzaghiDouble | StripfootDouble | SealedDouble | StorageDouble
  | LeakingDouble => true
  | _ => false
  end.

Definition benchmark_eqb (b1 b2 : benchmark) : bool :=
  match b1, b2 with
  | SealedColumn, SealedColumn | Terzaghi, Terzaghi | Mandel, Mandel
  | Convergence, Convergence | Stripfoot, Stripfoot
  | TerzaghiDouble, TerzaghiDouble | StripfootDouble, StripfootDouble
  | SealedDouble, SealedDouble | StorageDouble, StorageDouble
  | LeakingDouble, LeakingDouble => true
  | _, _ => false
  end.

(** *** Factorization and solves

    [Factorize]: a call of [coefficientsMatrixLUFactorization].
    [IterationStart]: the first statement of the time loop's body, the
    base assembly of the independent terms.  [Solve]: a call of
    [solveLinearSystem]. *)
Inductive phase : Type := Factorize | IterationStart | Solve.

Definition solver_phase {D} (e : event D) : list phase :=
  match e with
  | Ev c _ =>
    match c with
    | myLinearSystemSolver m =>
        match m with
        | linearSystemSolver.coefficientsMatrixLUFactorization => [Factorize]
        | linearSystemSolver.solveLinearSystem => [Solve]
        | _ => []
        end
    | myIndependentTerms m =>
        match m with
        | independentTermsAssembly.assemblyIndependentTermsArray
            _ _ _ _ _ _ _ _ _ _ _ _ _ _ _ => [IterationStart]
        | independentTermsAssembly.assemblyMacroIndependentTermsArray
            _ _ _ _ _ _ _ _ _ _ _ _ _ _ _ _ _ _ _ _ _ => [IterationStart]
        | _ => []
        end
    | _ => []
    end
  end.

Definition full_phases (n : nat) : list phase :=
  [Factorize] ++ concat (repeat [IterationStart; Solve] n).

(** *** The calls on the solver *)
Inductive solver_op : Type :=
| FactorizeOp | CreateArrays | ZeroBuffers | LoadRHS | TriangularSolve
| Scatter | ScatterMacro | ExtractField.

Definition solver_ops {D} (e : event D) : list solver_op :=
  match e with
  | Ev c _ =>
    match c with
    | myLinearSystemSolver m =>
        match m with
        | linearSystemSolver.coefficientsMatrixLUFactorization => [FactorizeOp]
        | linearSystemSolver.createPETScArrays => [CreateArrays]
        | linearSystemSolver.zeroPETScArrays => [ZeroBuffers]
        | linearSystemSolver.setRHSValue _ => [LoadRHS]
        | linearSystemSolver.solveLinearSystem => [TriangularSolve]
        | linearSystemSolver.setFieldValue _ => [Scatter]
        | linearSystemSolver.setMacroFieldValue _ => [ScatterMacro]
        | linearSystemSolver.uField => [ExtractField]
        | linearSystemSolver.vField => [ExtractField]
        | linearSystemSolver.pField => [ExtractField]
        | linearSystemSolver.pMField => [ExtractField]
        | _ => []
        end
    | _ => []
    end
  end.

(** The solver calls of one round of the time loop. *)
Definition iteration_ops (b : benchmark) : list solver_op :=
  if double_porosity b
  then [ZeroBuffers; LoadRHS; TriangularSolve; Scatter; ScatterMacro;
        ExtractField; ExtractField; ExtractField; ExtractField; ZeroBuffers]
  else [ZeroBuffers; LoadRHS; TriangularSolve; Scatter;
        ExtractField; ExtractField; ExtractField; ZeroBuffers].

Definition full_solver_ops (b : benchmark) (n : nat) : list solver_op :=
  [FactorizeOp; CreateArrays; ZeroBuffers]
  ++ concat (repeat (iteration_ops b) n).

(** The buffers are zeroed right before the RHS is loaded, and zeroing
    is the last call of the round, after the solve, the scatter and the
    extraction of the fields; nothing is loaded in between. *)
Definition zeroed_before_and_after (round : list solver_op) : Prop :=
  exists mid extracted,
    round = [ZeroBuffers; LoadRHS] ++ mid ++ extracted ++ [ZeroBuffers] /\
    In TriangularSolve mid /\ In Scatter mid /\
    extracted <> [] /\ Forall (eq ExtractField) extracted /\
    ~ In LoadRHS (mid ++ extracted) /\ ~ In ZeroBuffers (mid ++ extracted).

(** *** Base assembly and the variants' modifications *)
Inductive assembly_role : Type :=
| BaseOperator | VariantOperator | SparseRebuilt | OperatorRead
| BaseRHS | VariantRHS | RHSRead.

Definition assembly_roles {D} (e : event D) : list assembly_role :=
  match e with
  | Ev c _ =>
    match c with
    | myCoefficients m =>
        match m with
        | coefficientsAssembly.assemblyCoefficientsMatrix
            _ _ _ _ _ _ _ _ _ _ _ => [BaseOperator]
        | coefficientsAssembly.assemblyDoublePorosityMatrix
            _ _ _ _ _ _ _ _ _ _ _ _ _ _ _ => [BaseOperator]
        | coefficientsAssembly.assemblyMandelCoefficientsMatrix _ _ _ _ _ =>
            [VariantOperator]
        | coefficientsAssembly.addStripfootBC _ _ _ => [VariantOperator]
        | coefficientsAssembly.addMacroStripfootBC _ _ _ => [VariantOperator]
        | coefficientsAssembly.assemblySparseMatrix _ => [SparseRebuilt]
        | coefficientsAssembly.read => [OperatorRead]
        | _ => []
        end
    | myIndependentTerms m =>
        match m with
        | independentTermsAssembly.assemblyIndependentTermsArray
            _ _ _ _ _ _ _ _ _ _ _ _ _ _ _ => [BaseRHS]
        | independentTermsAssembly.assemblyMacroIndependentTermsArray
            _ _ _ _ _ _ _ _ _ _ _ _ _ _ _ _ _ _ _ _ _ => [BaseRHS]
        | independentTermsAssembly.assemblyMandelIndependentTermsArray _ _ =>
            [VariantRHS]
        | independentTermsAssembly.addStripfootBC _ _ _ => [VariantRHS]
        | independentTermsAssembly.addMacroStripfootBC _ _ _ => [VariantRHS]
        | independentTermsAssembly.independentTermsArray => [RHSRead]
        | _ => []
        end
    | _ => []
    end
  end.

(** The calls on [myCoefficients] up to the hand-over to the solver, and
    the calls on [myIndependentTerms] in one round of the time loop. *)
Definition operator_roles (b : benchmark) : list assembly_role :=
  match b with
  | Mandel =>
      [BaseOperator; VariantOperator; OperatorRead; SparseRebuilt;
       OperatorRead]
  | Stripfoot => [BaseOperator; VariantOperator; OperatorRead]
  | StripfootDouble =>
      [BaseOperator; VariantOperator; VariantOperator; OperatorRead]
  | _ => [BaseOperator; OperatorRead]
  end.

Definition rhs_roles (b : benchmark) : list assembly_role :=
  match b with
  | Mandel | Stripfoot => [BaseRHS; VariantRHS; RHSRead]
  | StripfootDouble => [BaseRHS; VariantRHS; VariantRHS; RHSRead]
  | _ => [BaseRHS; RHSRead]
  end.

Definition full_assembly_roles (b : benchmark) (n : nat)
  : list assembly_role :=
  operator_roles b ++ concat (repeat (rhs_roles b) n).

(** The benchmarks with variant-specific modifications. *)
Definition has_extensions (b : benchmark) : bool :=
  match b with
  | Mandel | Stripfoot | StripfootDouble => true
  | _ => false
  end.

Definition is_variant (r : assembly_role) : bool :=
  match r with VariantOperator | VariantRHS => true | _ => false end.

(** In a group of calls on one object: a base assembly first, then the
    variant's modifications, and only then is the result read. *)
Definition variants_after_base (base variant read : assembly_role)
           (group : list assembly_role) : Prop :=
  exists variants rest,
    group = [base] ++ variants ++ [read] ++ rest /\
    variants <> [] /\ Forall (eq variant) variants /\
    ~ In base rest /\ ~ In variant rest.

(** *** The boundary tables handed to the assemblers *)

(** The sides in the order of the tables' rows (the source's comment:
    starts on "north" and follows counterclockwise). *)
Inductive side : Type := north | west | south | east.

Definition side_row (s : side) : nat :=
  match s with north => 0 | west => 1 | south => 2 | east => 3 end%nat.

(** 1 for Dirichlet, 0 for Neumann, -1 for stress or fluid flow. *)
Inductive bc_kind : Type := Dirichlet | Neumann | StressOrFlow.

Definition bc_code (k : bc_kind) : Z :=
  match k with Dirichlet => 1 | Neumann => 0 | StressOrFlow => -1 end.

(** A type table, and the value table when one goes with it. *)
Definition tables_passed {D} (e : event D)
  : list (intTable * option (table D)) :=
  match e with
  | Ev c _ =>
    match c with
    | myCoefficients m =>
        match m with
        | coefficientsAssembly.new bcType _ _ _ _ _ _ _ _ _ _ _ _ _ =>
            [(bcType, None)]
        | _ => []
        end
    | myIndependentTerms m =>
        match m with
        | independentTermsAssembly.new bcType bcValue
            _ _ _ _ _ _ _ _ _ _ _ _ _ => [(bcType, Some bcValue)]
        | _ => []
        end
    | _ => []
    end
  end.

Definition well_formed_tables {D} (K : nat)
           (t : intTable * option (table D)) : Prop :=
  (forall s : side, exists row, nth_error (fst t) (side_row s) = Some row) /\
  map (@length Z) (fst t) = repeat K 4 /\
  Forall (Forall (fun code => exists k, code = bc_code k)) (fst t) /\
  match snd t with
  | Some bcValue => map (@length D) bcValue = map (@length Z) (fst t)
  | None => True
  end.

(** The number of quantities: u, v and one or two pressures. *)
Definition quantities (b : benchmark) : nat :=
  if double_porosity b then 4%nat else 3%nat.

(** *** The time-step size *)

(** The [dt] of the grid, and the [dt] given to every assembly call. *)
Definition dt_used {D} (e : event D) : list D :=
  match e with
  | Ev c x =>
    match c in Cmd _ X return X -> list D with
    | myGrid m =>
        match m in gridDesign.method _ X return X -> list D with
        | gridDesign.new _ _ _ _ _ _ _ _ => fun grid => [gridDesign.dt grid]
        end
    | myCoefficients m =>
        match m with
        | coefficientsAssembly.assemblyCoefficientsMatrix
            _ _ dt _ _ _ _ _ _ _ _ => fun _ => [dt]
        | coefficientsAssembly.assemblyDoublePorosityMatrix
            _ _ dt _ _ _ _ _ _ _ _ _ _ _ _ => fun _ => [dt]
        | _ => fun _ => []
        end
    | myIndependentTerms m =>
        match m with
        | independentTermsAssembly.assemblyIndependentTermsArray
            _ _ dt _ _ _ _ _ _ _ _ _ _ _ _ => fun _ => [dt]
        | independentTermsAssembly.assemblyMacroIndependentTermsArray
            _ _ dt _ _ _ _ _ _ _ _ _ _ _ _ _ _ _ _ _ _ => fun _ => [dt]
        | _ => fun _ => []
        end
    | _ => fun _ => []
    end x
  end.

(** Modelled from the spec: the class [gridDesign] (gridDesign.hpp, the
    Mesh Builder) is not among the sources.  Section 4.1: the builder
    produces "uniform cell sizes (dx, dy) and time-step size
    (dt = totalTime/(steps-1))". *)
Definition gridDesign_dt {D} `{DoubleOps D} (Nt : Z) (Lt : D) : D :=
  (Lt / #(Nt - 1))%dbl.

(** A world whose mesh builder gives that [dt]. *)
Definition mesh_builder_contract {D} `{DoubleOps D} (X : Type)
           (_ : list D) (c : Cmd D X) : X -> Prop :=
  match c in Cmd _ X return X -> Prop with
  | myGrid m =>
      match m in gridDesign.method _ X return X -> Prop with
      | gridDesign.new _ _ Nt _ _ totalTime _ _ =>
          fun grid => gridDesign.dt grid = gridDesign_dt Nt totalTime
      end
  | _ => fun _ => True
  end.

(** The [dt] that [main] writes to the run information, and the
    arguments [Nt] and [Lt] of its calls of the driver. *)
Inductive main_step (D : Type) : Type :=
| RunInfo (dt : D)
| DriverCalled (Nt : Z) (Lt : D).

Arguments RunInfo {D} dt.
Arguments DriverCalled {D} Nt Lt.

Definition main_steps {D} (e : event D) : list (main_step D) :=
  match e with
  | Ev c _ =>
    match c with
    | sys m =>
        match m with
        | runtime.exportSolveRunInfo dt _ => [RunInfo dt]
        | _ => []
        end
    | myGrid m =>
        match m with
        | gridDesign.new _ _ Nt _ _ totalTime _ _ =>
            [DriverCalled Nt totalTime]
        end
    | _ => []
    end
  end.

(** *** The start of [main] *)
Inductive startup (D : Type) : Type :=
| FileOpened (ok : bool)
| ValueRead (d : D)
| PetscStarted (ierr : PetscErrorCode)
| GridCreated
| OperatorAssembled (G K mu_f : D).

Arguments FileOpened {D} ok.
Arguments ValueRead {D} d.
Arguments PetscStarted {D} ierr.
Arguments GridCreated {D}.
Arguments OperatorAssembled {D} G K mu_f.

Definition startup_view {D} (e : event D) : list (startup D) :=
  match e with
  | Ev c x =>
    match c in Cmd _ X return X -> list (startup D) with
    | sys m =>
        match m in runtime.method _ X return X -> list (startup D) with
        | runtime.ifstream_open _ => fun ok => [FileOpened ok]
        | runtime.extract_double => fun d => [ValueRead d]
        | runtime.PetscInitialize => fun ierr => [PetscStarted ierr]
        | _ => fun _ => []
        end
    | myGrid m =>
        match m with
        | gridDesign.new _ _ _ _ _ _ _ _ => fun _ => [GridCreated]
        end
    | myCoefficients m =>
        match m with
        | coefficientsAssembly.assemblyCoefficientsMatrix
            _ _ _ G _ _ K mu_f _ _ _ => fun _ => [OperatorAssembled G K mu_f]
        | _ => fun _ => []
        end
    | _ => fun _ => []
    end x
  end.

(** *** The leak term and the cross-storage coefficient *)
Inductive leak_event (D : Type) : Type :=
| ParametersRead (p : problemDoubleParameters.public D)
| LeakTermComputed (n : Z) (leak : D)
| DoubleOperatorAssembled (S12 leak : D).

Arguments ParametersRead {D} p.
Arguments LeakTermComputed {D} n leak.
Arguments DoubleOperatorAssembled {D} S12 leak.

Definition leak_view {D} (e : event D) : list (leak_event D) :=
  match e with
  | Ev c x =>
    match c in Cmd _ X return X -> list (leak_event D) with
    | myDoubleProblem m =>
        match m in problemDoubleParameters.method _ X
              return X -> list (leak_event D) with
        | problemDoubleParameters.computeLeakTerm n =>
            fun leak => [LeakTermComputed n leak]
        | problemDoubleParameters.read => fun p => [ParametersRead p]
        | _ => fun _ => []
        end
    | myCoefficients m =>
        match m with
        | coefficientsAssembly.assemblyDoublePorosityMatrix
            _ _ _ _ _ _ _ _ _ _ S12 _ _ _ leak =>
            fun _ => [DoubleOperatorAssembled S12 leak]
        | _ => fun _ => []
        end
    | _ => fun _ => []
    end x
  end.

Definition leak_argument (b : benchmark) : Z :=
  match b with StorageDouble => 0 | _ => 11 end.

(** The [S12] handed to the assembly: the one read from [myProblem], but
    in [leakingDouble] the value it is overwritten with. *)
Definition S12_assembled {D} `{DoubleOps D} (b : benchmark)
           (myProperties : poroelasticProperties D)
           (p : problemDoubleParameters.public D) : D :=
  match b with
  | LeakingDouble =>
      let G := shearModulus myProperties in
      let lambda := (bulkModulus myProperties - #2 * G / #3)%dbl in
      let psiPore := problemDoubleParameters.psiPore p in
      let psiFrac := problemDoubleParameters.psiFrac p in
      let alpha := problemDoubleParameters.alpha p in
      (- psiPore * alpha * psiFrac * alpha / (#2 * G + lambda))%dbl
  | _ => problemDoubleParameters.S12 p
  end.

(** *** The exported time steps *)
Definition exported_step {D} (e : event D) : list Z :=
  match e with
  | Ev c _ =>
    match c with
    | myDataProcessing m =>
        match m with
        | dataProcessing.export _ _ timeStep _ => [timeStep]
        | _ => []
        end
    | _ => []
    end
  end.

(** The export list of each driver; [convergence] has none. *)
Definition exportedTimeSteps (b : benchmark) (Nt : Z) : option (list Z) :=
  match b with
  | SealedColumn => Some (exportedTimeSteps_sealedColumn Nt)
  | Terzaghi | Stripfoot | TerzaghiDouble | StripfootDouble =>
      Some (exportedTimeSteps_eighth Nt)
  | Mandel => Some (exportedTimeSteps_mandel Nt)
  | Convergence => None
  | SealedDouble => Some (exportedTimeSteps_sealedDouble Nt)
  | StorageDouble => Some (exportedTimeSteps_storageDouble Nt)
  | LeakingDouble => Some (exportedTimeSteps_leakingDouble Nt)
  end.

(** The export calls in one round of the export loop. *)
Definition exports_per_step (b : benchmark) : nat :=
  match b with
  | Convergence => 0%nat
  | TerzaghiDouble => 3%nat
  | _ => 2%nat
  end.

Definition exported_steps (b : benchmark) (Nt : Z) : list Z :=
  match exportedTimeSteps b Nt with
  | Some v => flat_map (fun timeStep => repeat timeStep (exports_per_step b)) v
  | None => []
  end.


(** *** The independent terms from one step to the next *)
Inductive solver_field : Type := FieldU | FieldV | FieldP | FieldPM.

(** The calls on [myIndependentTerms] with what they gave back, the
    vector given to [setRHSValue], and the reads of the solver's field
    arrays. *)
Inductive rhs_event (D : Type) : Type :=
| Assembler {X : Type} (m : independentTermsAssembly.method D X) (x : X)
| RHSLoaded (independentTermsArray : list D)
| FieldExtracted (which : solver_field) (f : table D).

Arguments Assembler {D X} m x.
Arguments RHSLoaded {D} independentTermsArray.
Arguments FieldExtracted {D} which f.

Definition rhs_view {D} (e : event D) : list (rhs_event D) :=
  match e with
  | Ev c x =>
    match c in Cmd _ X return X -> list (rhs_event D) with
    | myIndependentTerms m => fun x => [Assembler m x]
    | myLinearSystemSolver m =>
        match m in linearSystemSolver.method _ X
              return X -> list (rhs_event D) with
        | linearSystemSolver.setRHSValue r => fun _ => [RHSLoaded r]
        | linearSystemSolver.uField => fun f => [FieldExtracted FieldU f]
        | linearSystemSolver.vField => fun f => [FieldExtracted FieldV f]
        | linearSystemSolver.pField => fun f => [FieldExtracted FieldP f]
        | linearSystemSolver.pMField => fun f => [FieldExtracted FieldPM f]
        | _ => fun _ => []
        end
    | _ => fun _ => []
    end x
  end.

(** The kinds of calls on [myIndependentTerms]: those that fix the shape
    of the array (the constructor, the [increase...] calls), the base
    assembly, and the variants' modifications. *)
Definition is_shaping_call {D X} (m : independentTermsAssembly.method D X)
  : bool :=
  match m with
  | independentTermsAssembly.new _ _ _ _ _ _ _ _ _ _ _ _ _ _ _ => true
  | independentTermsAssembly.increaseMandelIndependentTermsArray => true
  | independentTermsAssembly.increaseMacroIndependentTermsArray => true
  | _ => false
  end.

Definition is_override_call {D X} (m : independentTermsAssembly.method D X)
  : bool :=
  match m with
  | independentTermsAssembly.assemblyMandelIndependentTermsArray _ _ => true
  | independentTermsAssembly.addStripfootBC _ _ _ => true
  | independentTermsAssembly.addMacroStripfootBC _ _ _ => true
  | _ => false
  end.

(** The field arrays and the step index a base assembly is given. *)
Definition base_inputs {D X} (m : independentTermsAssembly.method D X)
  : option (list (solver_field * table D) * Z) :=
  match m with
  | independentTermsAssembly.assemblyIndependentTermsArray
      _ _ _ _ _ _ _ _ _ _ _ uField vField pField timeStep =>
      Some ([(FieldU, uField); (FieldV, vField); (FieldP, pField)], timeStep)
  | independentTermsAssembly.assemblyMacroIndependentTermsArray
      _ _ _ _ _ _ _ _ _ _ _ uField vField pPoreField pFracField timeStep
      _ _ _ _ _ =>
      Some ([(FieldU, uField); (FieldV, vField); (FieldP, pPoreField);
             (FieldPM, pFracField)], timeStep)
  | _ => None
  end.

Definition is_shaping {D} (e : rhs_event D) : bool :=
  match e with Assembler m _ => is_shaping_call m | _ => false end.

Definition is_override {D} (e : rhs_event D) : bool :=
  match e with Assembler m _ => is_override_call m | _ => false end.

Definition is_base {D} (e : rhs_event D) : bool :=
  match e with
  | Assembler m _ => match base_inputs m with Some _ => true | None => false end
  | _ => false
  end.

(** The calls that count for the array at a point of the run: those that
    fix its shape, the last base assembly and the modifications after
    it.  A base assembly makes the earlier assemblies and modifications
    irrelevant. *)
Definition keep_call {D} (acc : list (rhs_event D)) (e : rhs_event D)
  : list (rhs_event D) :=
  if is_base e then filter is_shaping acc ++ [e]
  else if is_shaping e || is_override e then acc ++ [e]
  else acc.

Definition current_assembly {D} (seen : list (rhs_event D))
  : list (rhs_event D) :=
  fold_left keep_call seen [].

(** Modelled from the spec: the class [independentTermsAssembly]
    (independentTermsAssembly.hpp, the RHS Assembler) is not among the
    sources.  Section 3: the vector is "rebuilt from scratch each time
    step; no persistent identity across steps beyond being overwritten";
    section 4.3: "The vector is fully rebuilt every step -- no incremental
    update".  So the member [independentTermsArray], when read, is some
    function [F] of the calls that count at that point
    ([current_assembly]), and of nothing assembled before. *)
Definition rebuilt_every_step {D} (F : list (rhs_event D) -> list D)
           (X : Type) (seen : list (rhs_event D)) (c : Cmd D X) : X -> Prop :=
  match c in Cmd _ X return X -> Prop with
  | myIndependentTerms m =>
      match m in independentTermsAssembly.method _ X return X -> Prop with
      | independentTermsAssembly.independentTermsArray =>
          fun r => r = F (current_assembly seen)
      | _ => fun _ => True
      end
  | _ => fun _ => True
  end.

(** One round of the time loop, as the claim sees it: the assembly calls,
    the vector read and loaded, the fields extracted after the solve. *)
Record time_step (D : Type) : Type := {
  assembly_calls : list (independentTermsAssembly.method D unit);
  loaded : list D;
  extracted : list (solver_field * table D)
}.

Definition assembly_events {D}
           (calls : list (independentTermsAssembly.method D unit))
  : list (rhs_event D) :=
  map (fun m => Assembler m tt) calls.

Definition step_events {D} (s : time_step D) : list (rhs_event D) :=
  assembly_events (assembly_calls s)
  ++ [Assembler independentTermsAssembly.independentTermsArray (loaded s);
      RHSLoaded (loaded s)]
  ++ map (fun kf => FieldExtracted (fst kf) (snd kf)) (extracted s).

(** The round [s] at step [t], entered with the fields [incoming]: the
    base assembly is given exactly these fields and this step index, the
    variants' modifications follow it, and the vector loaded is [F] of
    the constructor's shape and of this round's calls. *)
Definition step_ok {D} (F : list (rhs_event D) -> list D)
           (setup : list (rhs_event D))
           (incoming : list (solver_field * table D)) (t : Z)
           (s : time_step D) : Prop :=
  exists base overrides,
    assembly_calls s = base :: overrides /\
    base_inputs base = Some (incoming, t) /\
    Forall (fun m => is_override_call m = true) overrides /\
    loaded s = F (setup ++ assembly_events (assembly_calls s)).

(** Rounds in sequence: each is entered with the fields the one before
    extracted. *)
Inductive linked {D} (F : list (rhs_event D) -> list D)
          (setup : list (rhs_event D))
  : list (solver_field * table D) -> Z -> list (time_step D) ->
    list (solver_field * table D) -> Prop :=
| linked_nil (f : list (solver_field * table D)) (t : Z) :
    linked F setup f t [] f
| linked_cons (f : list (solver_field * table D)) (t : Z)
              (s : time_step D) (rest : list (time_step D))
              (out : list (solver_field * table D)) :
    step_ok F setup f t s ->
    linked F setup (extracted s) (t + 1) rest out ->
    linked F setup f t (s :: rest) out.


(** *** The solver's state contract *)

(** Modelled from the spec: the class [linearSystemSolver]
    (linearSystemSolver.hpp, the Time-Stepping Solver) is not among the
    sources.  Section 4.4: "State machine with states {Unfactored ->
    Factored -> (Solving)* -> Done}.  factorize(operator): consumes the
    sparse operator once; transitions Unfactored->Factored.  Fails fatally
    if the operator is singular or the solver library reports a
    factorization failure.  solve_step(rhs) -> updated_fields: valid only
    in Factored state; loads rhs, performs the triangular solve against
    the stored factorization, and scatters the flat solution vector back
    into the named field arrays."  Section 8: "Calling solve_step without
    a prior factorize must fail with a state-contract error, never
    silently produce a result."

    The model has the methods of the source: [solve_step] is
    [setRHSValue], [solveLinearSystem], [setFieldValue] in a row, and the
    state is checked by [solveLinearSystem].  The sparse-solver library
    is a parameter: [lu] factorizes an operator or fails, [backsolve]
    solves against a factorization, [scatter] writes a solution into a
    field array. *)
Module SolverSpec.

Inductive state : Type := Unfactored | Factored | Solving.

(** The codes reported; any non-zero codes would do. *)
Definition state_contract_error : PetscErrorCode := 73.
Definition factorization_failure : PetscErrorCode := 71.

Record solver (D LU : Type) : Type := {
  phase : state;
  operator : table D;
  factorization : option LU;
  rhsBuffer : list D;
  solutionBuffer : list D;
  uField : table D;
  vField : table D;
  pField : table D;
  pMField : table D
}.

Section Methods.
Context {D LU : Type}.
Variable lu : table D -> option LU.
Variable backsolve : LU -> list D -> list D.
Variable scatter : solver_field -> list D -> table D -> table D.

Definition empty : solver D LU :=
  {| phase := Unfactored; operator := []; factorization := None;
     rhsBuffer := []; solutionBuffer := [];
     uField := []; vField := []; pField := []; pMField := [] |}.

Definition zeroed (s : solver D LU) : solver D LU :=
  {| phase := phase s; operator := operator s;
     factorization := factorization s;
     rhsBuffer := []; solutionBuffer := [];
     uField := uField s; vField := vField s; pField := pField s;
     pMField := pMField s |}.

Definition factorize (s : solver D LU) : PetscErrorCode * solver D LU :=
  match phase s, lu (operator s) with
  | Unfactored, Some f =>
      (0, {| phase := Factored; operator := operator s;
             factorization := Some f;
             rhsBuffer := rhsBuffer s; solutionBuffer := solutionBuffer s;
             uField := uField s; vField := vField s; pField := pField s;
             pMField := pMField s |})
  | Unfactored, None => (factorization_failure, s)
  | _, _ => (state_contract_error, s)
  end.

Definition triangular_solve (s : solver D LU)
  : PetscErrorCode * solver D LU :=
  match phase s, factorization s with
  | Unfactored, _ => (state_contract_error, s)
  | _, None => (state_contract_error, s)
  | _, Some f =>
      (0, {| phase := Solving; operator := operator s;
             factorization := Some f;
             rhsBuffer := rhsBuffer s;
             solutionBuffer := backsolve f (rhsBuffer s);
             uField := uField s; vField := vField s; pField := pField s;
             pMField := pMField s |})
  end.

(** One call of a method: what it gives back and the state after it. *)
Definition step (s : solver D LU) {X : Type}
           (m : linearSystemSolver.method D X) : X * solver D LU :=
  match m in linearSystemSolver.method _ X return X * solver D LU with
  | linearSystemSolver.new coefficientsMatrix _ _ _ u v p _ _ _ _ _ _ _ _ _ _ =>
      (tt, {| phase := Unfactored; operator := coefficientsMatrix;
              factorization := None; rhsBuffer := []; solutionBuffer := [];
              uField := u; vField := v; pField := p; pMField := [] |})
  | linearSystemSolver.createMacroPressureField pFracField =>
      (tt, {| phase := phase s; operator := operator s;
              factorization := factorization s;
              rhsBuffer := rhsBuffer s; solutionBuffer := solutionBuffer s;
              uField := uField s; vField := vField s; pField := pField s;
              pMField := pFracField |})
  | linearSystemSolver.coefficientsMatrixLUFactorization => factorize s
  | linearSystemSolver.createPETScArrays => (0, zeroed s)
  | linearSystemSolver.zeroPETScArrays => (0, zeroed s)
  | linearSystemSolver.setRHSValue r =>
      (0, {| phase := phase s; operator := operator s;
             factorization := factorization s;
             rhsBuffer := r; solutionBuffer := solutionBuffer s;
             uField := uField s; vField := vField s; pField := pField s;
             pMField := pMField s |})
  | linearSystemSolver.solveLinearSystem => triangular_solve s
  | linearSystemSolver.setFieldValue _ =>
      (0, {| phase := phase s; operator := operator s;
             factorization := factorization s;
             rhsBuffer := rhsBuffer s; solutionBuffer := solutionBuffer s;
             uField := scatter FieldU (solutionBuffer s) (uField s);
             vField := scatter FieldV (solutionBuffer s) (vField s);
             pField := scatter FieldP (solutionBuffer s) (pField s);
             pMField := pMField s |})
  | linearSystemSolver.setMacroFieldValue _ =>
      (0, {| phase := phase s; operator := operator s;
             factorization := factorization s;
             rhsBuffer := rhsBuffer s; solutionBuffer := solutionBuffer s;
             uField := uField s; vField := vField s; pField := pField s;
             pMField := scatter FieldPM (solutionBuffer s) (pMField s) |})
  | linearSystemSolver.uField => (uField s, s)
  | linearSystemSolver.vField => (vField s, s)
  | linearSystemSolver.pField => (pField s, s)
  | linearSystemSolver.pMField => (pMField s, s)
  end.

(** A call of any method. *)
Inductive any_call : Type :=
| Call {X : Type} (m : linearSystemSolver.method D X).

Definition after_call (s : solver D LU) (c : any_call) : solver D LU :=
  match c with Call m => snd (step s m) end.

Definition after_calls (s : solver D LU) (calls : list any_call)
  : solver D LU :=
  fold_left after_call calls s.

(** The call is a factorization and it succeeds in state [s]. *)
Definition factorizes (s : solver D LU) (c : any_call) : Prop :=
  match c with
  | Call m =>
      match m with
      | linearSystemSolver.coefficientsMatrixLUFactorization =>
          fst (factorize s) = 0
      | _ => False
      end
  end.

(** No call of the sequence, made in turn from [s], is a successful
    factorization. *)
Fixpoint never_factorized (s : solver D LU) (calls : list any_call) : Prop :=
  match calls with
  | [] => True
  | c :: rest => ~ factorizes s c /\ never_factorized (after_call s c) rest
  end.

End Methods.
End SolverSpec.


(** ** A world to run the model in

    For evaluating the model on concrete inputs, over [Q]: the mesh
    builder gives [gridDesign_dt], the independent-terms array is
    [model_F] of [current_assembly], the solver is [SolverSpec] with a
    library that always factorizes; the properties file holds the
    numbers [file]; every other answer is a fixed value. *)

Definition model_grid (Nx Ny Nt : Z) (Lx Ly totalTime : QArith_base.Q)
  : gridDesign.public QArith_base.Q :=
  {| gridDesign.numberOfActiveUDisplacementFV := Nx * Ny;
     gridDesign.numberOfActiveVDisplacementFV := Nx * Ny;
     gridDesign.numberOfActiveGeneralFV := Nx * Ny;
     gridDesign.dx := (Lx / #Nx)%dbl;
     gridDesign.dy := (Ly / #Ny)%dbl;
     gridDesign.dt := gridDesign_dt Nt totalTime;
     gridDesign.h := (Lx / #Nx)%dbl;
     gridDesign.uDisplacementFVIndex := [];
     gridDesign.vDisplacementFVIndex := [];
     gridDesign.generalFVIndex := [];
     gridDesign.uDisplacementFVCoordinates := [];
     gridDesign.vDisplacementFVCoordinates := [];
     gridDesign.generalFVCoordinates := [];
     gridDesign.horizontalFacesStatus := [];
     gridDesign.verticalFacesStatus := [];
     gridDesign.uDisplacementField := [];
     gridDesign.vDisplacementField := [];
     gridDesign.pressureField := [] |}.

Definition model_problem : problemParameters.public QArith_base.Q :=
  {| problemParameters.Q := (#1)%dbl;
     problemParameters.alpha := (#1)%dbl;
     problemParameters.M := (#1)%dbl;
     problemParameters.c := (#1)%dbl;
     problemParameters.dt_vv := (#1)%dbl;
     problemParameters.dt_carlos := (#1)%dbl;
     problemParameters.P0 := (#1)%dbl;
     problemParameters.uDisplacementField := [];
     problemParameters.vDisplacementField := [];
     problemParameters.pressureField := [] |}.

Definition model_doubleProblem
  : problemDoubleParameters.public QArith_base.Q :=
  {| problemDoubleParameters.psiPore := (#1 / #2)%dbl;
     problemDoubleParameters.psiFrac := (#1 / #2)%dbl;
     problemDoubleParameters.alpha := (#1)%dbl;
     problemDoubleParameters.S11 := (#1)%dbl;
     problemDoubleParameters.S12 := (#0)%dbl;
     problemDoubleParameters.S22 := (#1)%dbl;
     problemDoubleParameters.consolCoef := (#1)%dbl;
     problemDoubleParameters.vDisplacementField := [];
     problemDoubleParameters.pressurePoreField := [];
     problemDoubleParameters.pressureFracField := [] |}.

Definition model_coefficients : coefficientsAssembly.public QArith_base.Q :=
  {| coefficientsAssembly.coefficientsMatrix := [];
     coefficientsAssembly.sparseCoefficientsRow := [];
     coefficientsAssembly.sparseCoefficientsColumn := [];
     coefficientsAssembly.sparseCoefficientsValue := [] |}.

Definition model_F (calls : list (rhs_event QArith_base.Q))
  : list QArith_base.Q :=
  [inject_Z (Z.of_nat (length calls))].

(** The state of [myLinearSystemSolver] after the calls of a history. *)
Definition model_solver_after (h : list (event QArith_base.Q))
  : SolverSpec.solver QArith_base.Q unit :=
  fold_left
    (fun s e =>
       match e with
       | Ev c _ =>
           match c with
           | myLinearSystemSolver m =>
               snd (SolverSpec.step (fun _ => Some tt) (fun _ rhs => rhs)
                                    (fun _ _ f => f) s m)
           | _ => s
           end
       end)
    h SolverSpec.empty.

(** How many numbers have been extracted from the file so far. *)
Definition extracted_so_far (h : list (event QArith_base.Q)) : nat :=
  length (filter
            (fun e =>
               match e with
               | Ev c _ =>
                   match c with
                   | sys m =>
                       match m with
                       | runtime.extract_double => true
                       | _ => false
                       end
                   | _ => false
                   end
               end) h).

Definition model_world (file : list QArith_base.Q) : @world QArith_base.Q :=
  fun X h c =>
    match c in Cmd _ X return X with
    | myGrid m =>
        match m in gridDesign.method _ X return X with
        | gridDesign.new Nx Ny Nt Lx Ly totalTime _ _ =>
            model_grid Nx Ny Nt Lx Ly totalTime
        end
    | myProblem m =>
        match m in problemParameters.method _ X return X with
        | problemParameters.read => model_problem
        | problemParameters.new _ _ _ _ _ _ _ _ _ _ _ _ _ _ _ _ _ _ _ _ _ _ _ _ =>
            tt
        | problemParameters.applySealedColumnInitialConditions => tt
        | problemParameters.applyTerzaghiInitialConditions => tt
        | problemParameters.applyMandelInitialConditions => tt
        end
    | myDoubleProblem m =>
        match m in problemDoubleParameters.method _ X return X with
        | problemDoubleParameters.read => model_doubleProblem
        | problemDoubleParameters.computeLeakTerm n => inject_Z n
        | problemDoubleParameters.new _ _ _ _ _ _ _ _ _ _ _ _ => tt
        | problemDoubleParameters.applyDoublePoreInitialConditions _ _ _ _ _ =>
            tt
        end
    | myCoefficients m =>
        match m in coefficientsAssembly.method _ X return X with
        | coefficientsAssembly.read => model_coefficients
        | coefficientsAssembly.new _ _ _ _ _ _ _ _ _ _ _ _ _ _ => tt
        | coefficientsAssembly.assemblyCoefficientsMatrix
            _ _ _ _ _ _ _ _ _ _ _ => tt
        | coefficientsAssembly.assemblyMandelCoefficientsMatrix _ _ _ _ _ => tt
        | coefficientsAssembly.assemblySparseMatrix _ => tt
        | coefficientsAssembly.addStripfootBC _ _ _ => tt
        | coefficientsAssembly.addMacroStripfootBC _ _ _ => tt
        | coefficientsAssembly.assemblyDoublePorosityMatrix
            _ _ _ _ _ _ _ _ _ _ _ _ _ _ _ => tt
        end
    | myIndependentTerms m =>
        match m in independentTermsAssembly.method _ X return X with
        | independentTermsAssembly.independentTermsArray =>
            model_F (current_assembly (observe rhs_view h))
        | independentTermsAssembly.new _ _ _ _ _ _ _ _ _ _ _ _ _ _ _ => tt
        | independentTermsAssembly.increaseMandelIndependentTermsArray => tt
        | independentTermsAssembly.increaseMacroIndependentTermsArray => tt
        | independentTermsAssembly.assemblyIndependentTermsArray
            _ _ _ _ _ _ _ _ _ _ _ _ _ _ _ => tt
        | independentTermsAssembly.assemblyMandelIndependentTermsArray _ _ =>
            tt
        | independentTermsAssembly.addStripfootBC _ _ _ => tt
        | independentTermsAssembly.addMacroStripfootBC _ _ _ => tt
        | independentTermsAssembly.assemblyMacroIndependentTermsArray
            _ _ _ _ _ _ _ _ _ _ _ _ _ _ _ _ _ _ _ _ _ => tt
        end
    | myLinearSystemSolver m =>
        fst (SolverSpec.step (fun _ => Some tt) (fun _ rhs => rhs)
                             (fun _ _ f => f) (model_solver_after h) m)
    | myDataProcessing m =>
        match m in dataProcessing.method _ X return X with
        | dataProcessing.myErrorNorm => ((#0)%dbl, (#0)%dbl)
        | dataProcessing.new _ _ _ _ _ _ _ _ _ _ => tt
        | dataProcessing.newDouble _ _ _ _ _ _ _ _ _ _ => tt
        | dataProcessing.storeMacroPressure3DField _ _ => tt
        | dataProcessing.findMandelRoots _ _ _ _ _ _ _ => tt
        | dataProcessing.getTerzaghiErrorNorm _ _ _ _ _ _ _ _ _ _ _ _ _ => tt
        | dataProcessing.export _ _ _ _ => tt
        end
    | sys m =>
        match m in runtime.method _ X return X with
        | runtime.ifstream_open _ => true
        | runtime.getline => EmptyString
        | runtime.extract_double => nth (extracted_so_far h) file (#0)%dbl
        | runtime.close => tt
        | runtime.PetscInitialize => 0
        | runtime.PetscFinalize => 0
        | runtime.createSolveRunInfo _ _ _ => tt
        | runtime.exportSolveRunInfo _ _ => tt
        end
    end.

(** A properties file (after its first line): shear modulus, bulk
    modulus, solid bulk modulus, solid density, fluid bulk modulus,
    porosity, permeability, fluid viscosity, fluid density. *)
Definition sample_file : list QArith_base.Q :=
  [inject_Z 6; inject_Z 8; inject_Z 36; inject_Z 2700; inject_Z 3;
   Qmake 1 5; Qmake 1 100; Qmake 1 1000; inject_Z 1000].

(** The same file with a negative permeability. *)
Definition negative_permeability_file : list QArith_base.Q :=
  [inject_Z 6; inject_Z 8; inject_Z 36; inject_Z 2700; inject_Z 3;
   Qmake 1 5; Qopp (Qmake 1 100); Qmake 1 1000; inject_Z 1000].

Definition sample_properties : poroelasticProperties QArith_base.Q :=
  {| pairName := "sample";
     shearModulus := inject_Z 6;
     bulkModulus := inject_Z 8;
     porosity := Qmake 1 5;
     permeability := Qmake 1 100;
     macroPorosity := Qmake 1 10;
     macroPermeability := Qmake 1 10;
     solidBulkModulus := inject_Z 36;
     solidDensity := inject_Z 2700;
     fluidBulkModulus := inject_Z 3;
     fluidViscosity := Qmake 1 1000;
     fluidDensity := inject_Z 1000 |}.

(** ** What the theorems say of a run

    The words a complete run shows in each view, and the invariants of
    the time loop. *)

(** The phases of a run that returned [r]: a prefix of those of a
    complete run, all of them when [r] is 0; the factorization comes
    first. *)
Definition phases_post (n : nat) (r : PetscErrorCode) (s : list phase) : Prop :=
  (exists s', s = Factorize :: s') /\
  is_prefix s (full_phases n) /\
  (r = 0 -> s = full_phases n).

(** The field arrays among the locals of the time loop. *)
Definition fields_of {D} (st : PetscErrorCode * fields (D:=D))
  : list (solver_field * table D) :=
  let '(_, (uField, vField, pField)) := st in
  [(FieldU, uField); (FieldV, vField); (FieldP, pField)].

Definition doubleFields_of {D} (st : PetscErrorCode * doubleFields (D:=D))
  : list (solver_field * table D) :=
  let '(_, (uField, vField, pPoreField, pFracField)) := st in
  [(FieldU, uField); (FieldV, vField); (FieldP, pPoreField);
   (FieldPM, pFracField)].

(** What is viewed after [i] rounds that left the fields [out]. *)
Definition rhs_inv {D} (F : list (rhs_event D) -> list D)
           (setup : list (rhs_event D))
           (incoming : list (solver_field * table D)) (i : nat)
           (out : list (solver_field * table D)) (s : list (rhs_event D))
  : Prop :=
  exists steps,
    s = setup ++ flat_map step_events steps /\
    length steps = i /\
    linked F setup incoming 0 steps out /\
    filter is_shaping s = setup.

(** The rounds of a run that returned 0. *)
Definition rhs_post {D} (F : list (rhs_event D) -> list D) (n : nat)
           (r : PetscErrorCode) (s : list (rhs_event D)) : Prop :=
  r = 0 ->
  exists setup incoming steps outgoing,
    s = setup ++ flat_map step_events steps /\
    Forall (fun e => is_shaping e = true) setup /\
    length steps = n /\
    linked F setup incoming 0 steps outgoing.

(** The assembly calls of a run: those of the operator, then [k]
    rounds, all [n] of them when the run returned 0. *)
Definition roles_post (b : benchmark) (n : nat) (r : PetscErrorCode)
           (s : list assembly_role) : Prop :=
  exists k : nat,
    (k <= n)%nat /\
    s = operator_roles b ++ concat (repeat (rhs_roles b) k) /\
    (r = 0 -> k = n).

(** The calls on the solver in a run that returned [r]. *)
Definition solver_ops_post (b : benchmark) (n : nat) (r : PetscErrorCode)
           (s : list solver_op) : Prop :=
  is_prefix s (full_solver_ops b n) /\ (r = 0 -> s = full_solver_ops b n).

(** Every [dt] viewed is [dt0], and there are at least two. *)
Definition dt_post {D} (dt0 : D) (s : list D) : Prop :=
  Forall (eq dt0) s /\ (2 <= length s)%nat.

(** One round of [main]: the [dt] written to the run information, then
    the driver called with [Nt] and [Lt]. *)
Definition main_round {D} `{DoubleOps D} (run : Z * D) : list (main_step D) :=
  let '(Nt, totalTime) := run in
  [RunInfo (totalTime / #(Nt - 1))%dbl; DriverCalled Nt totalTime].

(** A constructor, the arrays and a right-hand side, but no
    factorization. *)
Definition calls_without_factorization
  : list (SolverSpec.any_call (D:=QArith_base.Q)) :=
  [SolverSpec.Call
     (linearSystemSolver.new [[inject_Z 2]] [inject_Z 0] [inject_Z 0]
                             [inject_Z 2] [] [] [] 0 0 1 3 [] [] [] [] [] []);
   SolverSpec.Call linearSystemSolver.createPETScArrays;
   SolverSpec.Call linearSystemSolver.zeroPETScArrays;
   SolverSpec.Call (linearSystemSolver.setRHSValue [inject_Z 4])].

(** Properties of what is viewed that later events cannot undo. *)
Definition extension_closed {Sym} (Good : list Sym -> Prop) : Prop :=
  forall s rest, Good s -> Good (s ++ rest).

Definition stable {R Sym} (Good : list Sym -> Prop)
           (Post : R -> list Sym -> Prop) : Prop :=
  forall r s, Good s -> Post r s.

(** What the start of [main] shows: the file did not open; or PETSc did
    not start; or the grid was created and the operator assembled with
    the values read. *)
Definition startup_outcome {D} (s : list (startup D)) : Prop :=
  s = [FileOpened false] \/
  (exists v1 v2 v3 v4 v5 v6 v7 v8 v9 ierr,
      ierr <> 0 /\
      s = [FileOpened true; ValueRead v1; ValueRead v2; ValueRead v3;
           ValueRead v4; ValueRead v5; ValueRead v6; ValueRead v7;
           ValueRead v8; ValueRead v9; PetscStarted ierr]) \/
  (exists v1 v2 v3 v4 v5 v6 v7 v8 v9 rest,
      s = [FileOpened true; ValueRead v1; ValueRead v2; ValueRead v3;
           ValueRead v4; ValueRead v5; ValueRead v6; ValueRead v7;
           ValueRead v8; ValueRead v9; PetscStarted 0; GridCreated;
           OperatorAssembled v1 v7 v8] ++ rest).

(** Tests on the events of [main]'s start, for a concrete run. *)
Definition is_grid_created (e : startup QArith_base.Q) : bool :=
  match e with GridCreated => true | _ => false end.

Definition assembled_with_negative_permeability (e : startup QArith_base.Q)
  : bool :=
  match e with
  | OperatorAssembled _ K _ => negb (Qle_bool (inject_Z 0) K)
  | _ => false
  end.

(** What a double-porosity driver shows of the leak term and of the
    cross-storage coefficient. *)
Definition leak_word {D} `{DoubleOps D} (b : benchmark)
           (myProperties : poroelasticProperties D)
           (s : list (leak_event D)) : Prop :=
  exists (p : problemDoubleParameters.public D) (leak : D)
         (later : list (problemDoubleParameters.public D)),
    s = [ParametersRead p; LeakTermComputed (leak_argument b) leak]
        ++ map ParametersRead later
        ++ [DoubleOperatorAssembled (S12_assembled b myProperties p) leak].

(** The steps exported by a run that returned [r]: none when it stopped
    before the exports, else those of [exported_steps]. *)
Definition exports_post (b : benchmark) (Nt : Z) (r : PetscErrorCode)
           (s : list Z) : Prop :=
  (s = [] \/ s = exported_steps b Nt) /\ (r = 0 -> s = exported_steps b Nt).

From Stdlib Require Import Sorted.

(** ** Further views of a run *)

(** *** How a call ends *)

(** A call whose PETSc return code the driver checks with [CHKERRQ], an
    export call, or any other call. *)
Inductive call_kind : Type :=
| Checked (ierr : PetscErrorCode)
| Exported
| Plain.

Definition call_kinds {D} (e : event D) : list call_kind :=
  match e with
  | Ev c x =>
    match c in Cmd _ X return X -> list call_kind with
    | myLinearSystemSolver m =>
        match m in linearSystemSolver.method _ X
              return X -> list call_kind with
        | linearSystemSolver.coefficientsMatrixLUFactorization =>
            fun ierr => [Checked ierr]
        | linearSystemSolver.createPETScArrays => fun ierr => [Checked ierr]
        | linearSystemSolver.zeroPETScArrays => fun ierr => [Checked ierr]
        | linearSystemSolver.setRHSValue _ => fun ierr => [Checked ierr]
        | linearSystemSolver.solveLinearSystem => fun ierr => [Checked ierr]
        | linearSystemSolver.setFieldValue _ => fun ierr => [Checked ierr]
        | linearSystemSolver.setMacroFieldValue _ =>
            fun ierr => [Checked ierr]
        | _ => fun _ => [Plain]
        end
    | myDataProcessing m =>
        match m in dataProcessing.method _ X return X -> list call_kind with
        | dataProcessing.export _ _ _ _ => fun _ => [Exported]
        | _ => fun _ => [Plain]
        end
    | _ => fun _ => [Plain]
    end x
  end.

(** The call returned 0, or has no code. *)
Definition passed (k : call_kind) : bool :=
  match k with Checked ierr => ierr =? 0 | _ => true end.

(** The same, and the call is no export. *)
Definition quiet (k : call_kind) : bool :=
  match k with Checked ierr => ierr =? 0 | Exported => false | Plain => true end.

(** How a run that returned [r] went: every checked call returned 0 and
    [r] is 0; or the last call of the run is a checked call that returned
    [r], which is not 0, every checked call before it returned 0 and
    nothing was exported. *)
Definition run_outcome (r : PetscErrorCode) (s : list call_kind) : Prop :=
  (r = 0 /\ forallb passed s = true) \/
  (r <> 0 /\ exists before, s = before ++ [Checked r] /\
                            forallb quiet before = true).

(** *** The course of [main] *)

Inductive main_event (D : Type) : Type :=
| Opened (ok : bool)
| Initialized (ierr : PetscErrorCode)
| InfoWritten (dt : D)
| DriverEntered (Nx Ny Nt : Z) (Lt : D)
| Finalized (ierr : PetscErrorCode).

Arguments Opened {D} ok.
Arguments Initialized {D} ierr.
Arguments InfoWritten {D} dt.
Arguments DriverEntered {D} Nx Ny Nt Lt.
Arguments Finalized {D} ierr.

(** The file opened or not, the codes of [PetscInitialize] and
    [PetscFinalize], the [dt] written to the run information, and the
    grid a driver creates when it is entered. *)
Definition main_events {D} (e : event D) : list (main_event D) :=
  match e with
  | Ev c x =>
    match c in Cmd _ X return X -> list (main_event D) with
    | sys m =>
        match m in runtime.method _ X return X -> list (main_event D) with
        | runtime.ifstream_open _ => fun ok => [Opened ok]
        | runtime.PetscInitialize => fun ierr => [Initialized ierr]
        | runtime.exportSolveRunInfo dt _ => fun _ => [InfoWritten dt]
        | runtime.PetscFinalize => fun ierr => [Finalized ierr]
        | _ => fun _ => []
        end
    | myGrid m =>
        match m with
        | gridDesign.new Nx Ny Nt _ _ totalTime _ _ =>
            fun _ => [DriverEntered Nx Ny Nt totalTime]
        end
    | _ => fun _ => []
    end x
  end.

(** The two programs. *)
Inductive program : Type := MainDimless | MainDouble.

Definition main {D} `{DoubleOps D} (p : program)
  : string -> string -> string -> poroelasticProperties D ->
    Prog D PetscErrorCode :=
  match p with
  | MainDimless => mainDimless
  | MainDouble => mainDouble
  end.

(** [timestepSize.size()]. *)
Definition planned_runs (p : program) : nat :=
  match p with MainDimless => 4%nat | MainDouble => 2%nat end.

(** One pass of [main]'s loop: the run information, then the driver,
    with [Nt = 2] and [mesh = 3] (a grid of 3 by 18). *)
Definition main_pass {D} `{DoubleOps D} (totalTime : D)
  : list (main_event D) :=
  [InfoWritten (totalTime / #(2 - 1))%dbl; DriverEntered 3 (6 * 3) 2 totalTime].

(** How a run of [main] that returned [r] went. *)
Definition main_outcome {D} `{DoubleOps D} (p : program)
           (r : PetscErrorCode) (s : list (main_event D)) : Prop :=
  (r = 1 /\ s = [Opened false]) \/
  (r <> 0 /\ s = [Opened true; Initialized r]) \/
  (r <> 0 /\
   exists times : list D,
     (1 <= length times <= planned_runs p)%nat /\
     s = [Opened true; Initialized 0] ++ flat_map main_pass times) \/
  (exists times : list D,
     length times = planned_runs p /\
     s = [Opened true; Initialized 0] ++ flat_map main_pass times
         ++ [Finalized r]).

(** The driver a program runs. *)
Definition benchmark_of (p : program) : benchmark :=
  match p with MainDimless => Terzaghi | MainDouble => TerzaghiDouble end.

(** What a view shows of a complete run of [main], when each pass shows
    [pass]. *)
Definition when_complete {Sym} (p : program) (pass : list Sym)
           (r : PetscErrorCode) (s : list Sym) : Prop :=
  r = 0 -> s = concat (repeat pass (planned_runs p)).

(** *** The time levels *)

(** The step index given to the base assembly of the independent terms,
    and the time level at which [setFieldValue] and [setMacroFieldValue]
    store the solution. *)
Inductive level_event : Type :=
| AssembledAt (timeStep : Z)
| StoredAt (level : Z)
| MacroStoredAt (level : Z).

Definition time_levels {D} (e : event D) : list level_event :=
  match e with
  | Ev c _ =>
    match c with
    | myIndependentTerms m =>
        match m with
        | independentTermsAssembly.assemblyIndependentTermsArray
            _ _ _ _ _ _ _ _ _ _ _ _ _ _ timeStep => [AssembledAt timeStep]
        | independentTermsAssembly.assemblyMacroIndependentTermsArray
            _ _ _ _ _ _ _ _ _ _ _ _ _ _ _ timeStep _ _ _ _ _ =>
            [AssembledAt timeStep]
        | _ => []
        end
    | myLinearSystemSolver m =>
        match m with
        | linearSystemSolver.setFieldValue level => [StoredAt level]
        | linearSystemSolver.setMacroFieldValue level => [MacroStoredAt level]
        | _ => []
        end
    | _ => []
    end
  end.

(** The round of step [timeStep]. *)
Definition level_round (b : benchmark) (timeStep : nat) : list level_event :=
  [AssembledAt (Z.of_nat timeStep); StoredAt (Z.of_nat timeStep + 1)]
  ++ (if double_porosity b then [MacroStoredAt (Z.of_nat timeStep + 1)]
      else []).

(** The rounds of steps [0 .. n-1]. *)
Definition level_rounds (b : benchmark) (n : nat) : list level_event :=
  flat_map (level_round b) (List.seq 0 n).

Definition levels_post (b : benchmark) (n : nat) (r : PetscErrorCode)
           (s : list level_event) : Prop :=
  r = 0 -> s = level_rounds b n.

(** *** The export lists *)

(** The drivers whose export list is computed from [Nt];
    [storageDouble] and [leakingDouble] have lists of fixed steps. *)
Definition list_follows_Nt (b : benchmark) : bool :=
  match b with StorageDouble | LeakingDouble => false | _ => true end.

(** *** From the assembled operator to the solver *)

(** A call that constructs or changes the operator in [myCoefficients],
    a read of its members (the [swap]s), and the construction of the
    solver with the matrix and the sparse arrays it is given. *)
Inductive operator_event (D : Type) : Type :=
| OperatorChanged
| MembersRead (members : coefficientsAssembly.public D)
| SolverBuilt (coefficientsMatrix : table D)
              (sparseCoefficientsRow sparseCoefficientsColumn
               sparseCoefficientsValue : list D).

Arguments OperatorChanged {D}.
Arguments MembersRead {D} members.
Arguments SolverBuilt {D} coefficientsMatrix sparseCoefficientsRow
  sparseCoefficientsColumn sparseCoefficientsValue.

Definition operator_flow {D} (e : event D) : list (operator_event D) :=
  match e with
  | Ev c x =>
    match c in Cmd _ X return X -> list (operator_event D) with
    | myCoefficients m =>
        match m in coefficientsAssembly.method _ X
              return X -> list (operator_event D) with
        | coefficientsAssembly.read => fun members => [MembersRead members]
        | _ => fun _ => [OperatorChanged]
        end
    | myLinearSystemSolver m =>
        match m in linearSystemSolver.method _ X
              return X -> list (operator_event D) with
        | linearSystemSolver.new M row column value _ _ _ _ _ _ _ _ _ _ _ _ _ =>
            fun _ => [SolverBuilt M row column value]
        | _ => fun _ => []
        end
    | _ => fun _ => []
    end x
  end.

Definition is_solver_built {D} (e : operator_event D) : bool :=
  match e with SolverBuilt _ _ _ _ => true | _ => false end.

(** The solver is built once, as the last of these events, from the
    members read right before. *)
Definition operator_handed_over {D} (s : list (operator_event D)) : Prop :=
  exists (before : list (operator_event D))
         (members : coefficientsAssembly.public D),
    s = before
        ++ [MembersRead members;
            SolverBuilt (coefficientsAssembly.coefficientsMatrix members)
                        (coefficientsAssembly.sparseCoefficientsRow members)
                        (coefficientsAssembly.sparseCoefficientsColumn members)
                        (coefficientsAssembly.sparseCoefficientsValue members)]
    /\ existsb is_solver_built before = false
    /\ In OperatorChanged before.

(** *** From the solver to the post-processing *)

(** A read of a field array of the solver, and the field arrays handed
    to the post-processing: by the constructor of [myDataProcessing]
    and, for the fracture pressure, by [storeMacroPressure3DField]. *)
Inductive result_event (D : Type) : Type :=
| FieldRead (field : solver_field * table D)
| Processed (fields : list (solver_field * table D)).

Arguments FieldRead {D} field.
Arguments Processed {D} fields.

Definition result_flow {D} (e : event D) : list (result_event D) :=
  match e with
  | Ev c x =>
    match c in Cmd _ X return X -> list (result_event D) with
    | myLinearSystemSolver m =>
        match m in linearSystemSolver.method _ X
              return X -> list (result_event D) with
        | linearSystemSolver.uField => fun f => [FieldRead (FieldU, f)]
        | linearSystemSolver.vField => fun f => [FieldRead (FieldV, f)]
        | linearSystemSolver.pField => fun f => [FieldRead (FieldP, f)]
        | linearSystemSolver.pMField => fun f => [FieldRead (FieldPM, f)]
        | _ => fun _ => []
        end
    | myDataProcessing m =>
        match m in dataProcessing.method _ X
              return X -> list (result_event D) with
        | dataProcessing.new _ _ _ uField vField pField _ _ _ _ =>
            fun _ => [Processed [(FieldU, uField); (FieldV, vField);
                                 (FieldP, pField)]]
        | dataProcessing.newDouble _ _ _ uField vField pField _ _ _ _ =>
            fun _ => [Processed [(FieldU, uField); (FieldV, vField);
                                 (FieldP, pField)]]
        | dataProcessing.storeMacroPressure3DField _ pFracField =>
            fun _ => [Processed [(FieldPM, pFracField)]]
        | _ => fun _ => []
        end
    | _ => fun _ => []
    end x
  end.

(** The field arrays of a driver. *)
Definition field_names (b : benchmark) : list solver_field :=
  [FieldU; FieldV; FieldP] ++ (if double_porosity b then [FieldPM] else []).

(** How the arrays [final] reach the post-processing. *)
Definition processing {D} (b : benchmark)
           (final : list (solver_field * table D)) : list (result_event D) :=
  if double_porosity b
  then [Processed (firstn 3 final); Processed (skipn 3 final)]
  else [Processed final].

Definition results_post {D} (b : benchmark) (n : nat) (r : PetscErrorCode)
           (s : list (result_event D)) : Prop :=
  (0 < n)%nat -> r = 0 ->
  exists (before : list (result_event D))
         (final : list (solver_field * table D)),
    s = before ++ map FieldRead final ++ processing b final /\
    map fst final = field_names b.

(** *** The properties of the double-porosity medium *)

(** A number read from the properties file, and the porosities, the
    permeabilities and the viscosity given to the constructor of
    [problemDoubleParameters]. *)
Inductive double_input (D : Type) : Type :=
| NumberRead (d : D)
| DoubleProblemBuilt (phiPore phiFrac KPore KFrac mu_f : D).

Arguments NumberRead {D} d.
Arguments DoubleProblemBuilt {D} phiPore phiFrac KPore KFrac mu_f.

Definition double_inputs {D} (e : event D) : list (double_input D) :=
  match e with
  | Ev c x =>
    match c in Cmd _ X return X -> list (double_input D) with
    | sys m =>
        match m in runtime.method _ X return X -> list (double_input D) with
        | runtime.extract_double => fun d => [NumberRead d]
        | _ => fun _ => []
        end
    | myDoubleProblem m =>
        match m in problemDoubleParameters.method _ X
              return X -> list (double_input D) with
        | problemDoubleParameters.new
            phiPore phiFrac _ _ _ _ mu_f KPore KFrac _ _ _ =>
            fun _ => [DoubleProblemBuilt phiPore phiFrac KPore KFrac mu_f]
        | _ => fun _ => []
        end
    | _ => fun _ => []
    end x
  end.

(** What [mainDouble] shows of the numbers it reads: none when the file
    did not open; the nine numbers; or the nine numbers and then the
    double-porosity problem built from the sixth (porosity), the seventh
    (permeability) and the eighth (viscosity). *)
Definition split_outcome {D} `{DoubleOps D} (s : list (double_input D))
  : Prop :=
  s = [] \/
  (exists v1 v2 v3 v4 v5 v6 v7 v8 v9,
      s = map NumberRead [v1; v2; v3; v4; v5; v6; v7; v8; v9]) \/
  (exists v1 v2 v3 v4 v5 v6 v7 v8 v9 rest,
      s = map NumberRead [v1; v2; v3; v4; v5; v6; v7; v8; v9]
          ++ [DoubleProblemBuilt (v6 * #2 / #3) (v6 * #1 / #3)
                                 (v7 / #1000) (v7 * #999 / #1000) v8]%dbl
          ++ rest).

(** *** Solving and writing *)

Inductive progress_event : Type :=
| Solved
| Written (timeStep : Z).

Definition progress {D} (e : event D) : list progress_event :=
  match e with
  | Ev c _ =>
    match c with
    | myLinearSystemSolver m =>
        match m with
        | linearSystemSolver.solveLinearSystem => [Solved]
        | _ => []
        end
    | myDataProcessing m =>
        match m with
        | dataProcessing.export _ _ timeStep _ => [Written timeStep]
        | _ => []
        end
    | _ => []
    end
  end.

(** The export calls of a driver, for its list of steps. *)
Definition writes (b : benchmark) (Nt : Z) : list progress_event :=
  match exportedTimeSteps b Nt with
  | Some v =>
      flat_map (fun timeStep => repeat (Written timeStep)
                                       (exports_per_step b)) v
  | None => []
  end.

Definition progress_post (b : benchmark) (Nt : Z) (r : PetscErrorCode)
           (s : list progress_event) : Prop :=
  r = 0 -> s = repeat Solved (Z.to_nat (Nt - 1)) ++ writes b Nt.

(** *** The fields the time loop starts from *)

(** The field arrays the solver is constructed with (the fracture
    pressure comes with [createMacroPressureField]), and the field
    arrays and step index given to a base assembly of the independent
    terms. *)
Inductive start_event (D : Type) : Type :=
| SolverStarted (fields : list (solver_field * table D))
| AssemblyGiven (fields : list (solver_field * table D)) (timeStep : Z).

Arguments SolverStarted {D} fields.
Arguments AssemblyGiven {D} fields timeStep.

Definition initial_flow {D} (e : event D) : list (start_event D) :=
  match e with
  | Ev c x =>
    match c in Cmd _ X return X -> list (start_event D) with
    | myLinearSystemSolver m =>
        match m in linearSystemSolver.method _ X
              return X -> list (start_event D) with
        | linearSystemSolver.new _ _ _ _ uField vField pField
                                 _ _ _ _ _ _ _ _ _ _ =>
            fun _ => [SolverStarted [(FieldU, uField); (FieldV, vField);
                                     (FieldP, pField)]]
        | linearSystemSolver.createMacroPressureField pFracField =>
            fun _ => [SolverStarted [(FieldPM, pFracField)]]
        | _ => fun _ => []
        end
    | myIndependentTerms m =>
        match m in independentTermsAssembly.method _ X
              return X -> list (start_event D) with
        | independentTermsAssembly.assemblyIndependentTermsArray
            _ _ _ _ _ _ _ _ _ _ _ uField vField pField timeStep =>
            fun _ => [AssemblyGiven [(FieldU, uField); (FieldV, vField);
                                     (FieldP, pField)] timeStep]
        | independentTermsAssembly.assemblyMacroIndependentTermsArray
            _ _ _ _ _ _ _ _ _ _ _ uField vField pPoreField pFracField
            timeStep _ _ _ _ _ =>
            fun _ => [AssemblyGiven [(FieldU, uField); (FieldV, vField);
                                     (FieldP, pPoreField);
                                     (FieldPM, pFracField)] timeStep]
        | _ => fun _ => []
        end
    | _ => fun _ => []
    end x
  end.

(** How the solver is given the arrays [initial]. *)
Definition started {D} (b : benchmark)
           (initial : list (solver_field * table D)) : list (start_event D) :=
  if double_porosity b
  then [SolverStarted (firstn 3 initial); SolverStarted (skipn 3 initial)]
  else [SolverStarted initial].

Definition start_post {D} (b : benchmark) (n : nat) (r : PetscErrorCode)
           (s : list (start_event D)) : Prop :=
  (0 < n)%nat -> r = 0 ->
  exists (initial : list (solver_field * table D))
         (later : list (start_event D)),
    s = started b initial ++ AssemblyGiven initial 0 :: later /\
    map fst initial = field_names b.

(** The invariant of the time loop: before the first round the locals
    hold the arrays [initial] the solver was constructed with; after it
    the first assembly has been given them. *)
Definition start_inv {D} (start : list (start_event D))
           (initial : list (solver_field * table D)) (i : nat)
           (current : list (solver_field * table D))
           (s : list (start_event D)) : Prop :=
  (i = 0%nat /\ s = start /\ current = initial) \/
  ((0 < i)%nat /\ exists later, s = start ++ AssemblyGiven initial 0 :: later).

(** *** Where the initial fields come from *)

(** The grid made, a read of the members of [myProblem] (of either
    class), and the field arrays the solver is constructed with. *)
Inductive source_event (D : Type) : Type :=
| GridMade (grid : gridDesign.public D)
| ProblemRead (members : problemParameters.public D)
| DoubleProblemRead (members : problemDoubleParameters.public D)
| SolverGiven (fields : list (solver_field * table D)).

Arguments GridMade {D} grid.
Arguments ProblemRead {D} members.
Arguments DoubleProblemRead {D} members.
Arguments SolverGiven {D} fields.

Definition source_flow {D} (e : event D) : list (source_event D) :=
  match e with
  | Ev c x =>
    match c in Cmd _ X return X -> list (source_event D) with
    | myGrid m =>
        match m in gridDesign.method _ X
              return X -> list (source_event D) with
        | gridDesign.new _ _ _ _ _ _ _ _ => fun grid => [GridMade grid]
        end
    | myProblem m =>
        match m in problemParameters.method _ X
              return X -> list (source_event D) with
        | problemParameters.read => fun members => [ProblemRead members]
        | _ => fun _ => []
        end
    | myDoubleProblem m =>
        match m in problemDoubleParameters.method _ X
              return X -> list (source_event D) with
        | problemDoubleParameters.read =>
            fun members => [DoubleProblemRead members]
        | _ => fun _ => []
        end
    | myLinearSystemSolver m =>
        match m in linearSystemSolver.method _ X
              return X -> list (source_event D) with
        | linearSystemSolver.new _ _ _ _ uField vField pField
                                 _ _ _ _ _ _ _ _ _ _ =>
            fun _ => [SolverGiven [(FieldU, uField); (FieldV, vField);
                                   (FieldP, pField)]]
        | linearSystemSolver.createMacroPressureField pFracField =>
            fun _ => [SolverGiven [(FieldPM, pFracField)]]
        | _ => fun _ => []
        end
    | _ => fun _ => []
    end x
  end.

(** The initial fields of a driver, from the grid and from the last
    read of [myProblem].  The single-porosity drivers take the three
    fields of [myProblem]; [storageDouble] and [leakingDouble] take the
    horizontal displacement of the grid and the three other fields of
    [myProblem]; [terzaghiDouble], [stripfootDouble] and [sealedDouble]
    take the fields of the grid, the pressure field twice. *)
Definition initial_fields {D} (b : benchmark) (grid : gridDesign.public D)
           (last_read : source_event D) : list (solver_field * table D) :=
  match b, last_read with
  | (SealedColumn | Terzaghi | Mandel | Convergence | Stripfoot),
    ProblemRead p =>
      [(FieldU, problemParameters.uDisplacementField p);
       (FieldV, problemParameters.vDisplacementField p);
       (FieldP, problemParameters.pressureField p)]
  | (StorageDouble | LeakingDouble), DoubleProblemRead p =>
      [(FieldU, gridDesign.uDisplacementField grid);
       (FieldV, problemDoubleParameters.vDisplacementField p);
       (FieldP, problemDoubleParameters.pressurePoreField p);
       (FieldPM, problemDoubleParameters.pressureFracField p)]
  | (TerzaghiDouble | StripfootDouble | SealedDouble), DoubleProblemRead _ =>
      [(FieldU, gridDesign.uDisplacementField grid);
       (FieldV, gridDesign.vDisplacementField grid);
       (FieldP, gridDesign.pressureField grid);
       (FieldPM, gridDesign.pressureField grid)]
  | _, _ => []
  end.

Definition given {D} (b : benchmark)
           (initial : list (solver_field * table D)) : list (source_event D) :=
  if double_porosity b
  then [SolverGiven (firstn 3 initial); SolverGiven (skipn 3 initial)]
  else [SolverGiven initial].

Definition fields_from_sources {D} (b : benchmark)
           (s : list (source_event D)) : Prop :=
  exists (grid : gridDesign.public D) (reads : list (source_event D))
         (last_read : source_event D),
    s = GridMade grid :: reads ++ [last_read]
        ++ given b (initial_fields b grid last_read) /\
    map fst (initial_fields b grid last_read) = field_names b.

(** *** The grid a driver asks for *)

Inductive grid_request (D : Type) : Type :=
| GridAsked (Nx Ny Nt : Z) (Lx Ly totalTime : D) (sCoordinates : table D).

Arguments GridAsked {D} Nx Ny Nt Lx Ly totalTime sCoordinates.

Definition grid_requests {D} (e : event D) : list (grid_request D) :=
  match e with
  | Ev c _ =>
    match c with
    | myGrid m =>
        match m with
        | gridDesign.new Nx Ny Nt Lx Ly totalTime _ sCoordinates =>
            [GridAsked Nx Ny Nt Lx Ly totalTime sCoordinates]
        end
    | _ => []
    end
  end.

(** The sides of the domain, in metres: a column of 1 by 6, or a square
    of 5 by 5 in [mandel], [stripfoot] and [stripfootDouble]. *)
Definition domain (b : benchmark) : Z * Z :=
  match b with
  | Mandel | Stripfoot | StripfootDouble => (5, 5)
  | _ => (1, 6)
  end.

(** The grid of [meshSize] cells per metre on the domain of [b], with
    the corners of the domain counterclockwise from the north-east. *)
Definition grid_of {D} `{DoubleOps D} (b : benchmark) (Nt meshSize : Z)
           (totalTime : D) : grid_request D :=
  let '(lx, ly) := domain b in
  GridAsked (lx * meshSize) (ly * meshSize) Nt (#lx)%dbl (#ly)%dbl totalTime
            [[#lx; #ly]; [#0; #ly]; [#0; #0]; [#lx; #0]]%dbl.

(** *** The PETSc codes of a program *)

(** The return code of every call that is checked with [CHKERRQ]: the
    solver's PETSc calls in the drivers, [PetscInitialize] and
    [PetscFinalize] in [main]. *)
Definition checked_codes {D} (e : event D) : list PetscErrorCode :=
  match e with
  | Ev c x =>
    match c in Cmd _ X return X -> list PetscErrorCode with
    | myLinearSystemSolver m =>
        match m in linearSystemSolver.method _ X
              return X -> list PetscErrorCode with
        | linearSystemSolver.coefficientsMatrixLUFactorization =>
            fun ierr => [ierr]
        | linearSystemSolver.createPETScArrays => fun ierr => [ierr]
        | linearSystemSolver.zeroPETScArrays => fun ierr => [ierr]
        | linearSystemSolver.setRHSValue _ => fun ierr => [ierr]
        | linearSystemSolver.solveLinearSystem => fun ierr => [ierr]
        | linearSystemSolver.setFieldValue _ => fun ierr => [ierr]
        | linearSystemSolver.setMacroFieldValue _ => fun ierr => [ierr]
        | _ => fun _ => []
        end
    | sys m =>
        match m in runtime.method _ X return X -> list PetscErrorCode with
        | runtime.PetscInitialize => fun ierr => [ierr]
        | runtime.PetscFinalize => fun ierr => [ierr]
        | _ => fun _ => []
        end
    | _ => fun _ => []
    end x
  end.

Definition all_zero (codes : list PetscErrorCode) : bool :=
  forallb (fun ierr => ierr =? 0) codes.

(** The codes of a run that returned [r]: all 0 and [r] is 0, or [r] is
    not 0 and is the last code, the first that is not 0. *)
Definition codes_outcome (r : PetscErrorCode) (codes : list PetscErrorCode)
  : Prop :=
  (r = 0 /\ all_zero codes = true) \/
  (r <> 0 /\ exists before, codes = before ++ [r] /\ all_zero before = true).

(** A world in which every triangular solve fails with code 71, and
    which is [model_world] otherwise. *)
Definition failing_world (file : list QArith_base.Q) : @world QArith_base.Q :=
  fun X h c =>
    match c in Cmd _ X return X -> X with
    | myLinearSystemSolver m =>
        match m in linearSystemSolver.method _ X return X -> X with
        | linearSystemSolver.solveLinearSystem => fun _ => 71
        | _ => fun x => x
        end
    | _ => fun x => x
    end (model_world file h c).

(** *** What the boundary tables prescribe *)

(** The conditions of a type table and of the value table that goes
    with it: row (the side), column (the quantity), type and value. *)
Definition conditions {D} (bcType : intTable) (bcValue : table D)
  : list (nat * nat * Z * D) :=
  flat_map
    (fun '(i, (types, values)) =>
       map (fun '(j, (t, v)) => (i, j, t, v))
           (combine (List.seq 0 (length types)) (combine types values)))
    (combine (List.seq 0 (length bcType)) (combine bcType bcValue)).

(** A Dirichlet condition prescribes 0; a Neumann condition prescribes
    [hydrostatic]; a stress or flow condition prescribes 0, or the load
    as the vertical stress (column 1) of the north side. *)
Definition condition_ok {D} `{DoubleOps D} (load hydrostatic : D)
           (c : nat * nat * Z * D) : Prop :=
  let '(i, j, t, v) := c in
  (t = bc_code Dirichlet -> v = (#0)%dbl) /\
  (t = bc_code Neumann -> v = hydrostatic) /\
  (t = bc_code StressOrFlow ->
   v = (#0)%dbl \/ (i = side_row north /\ j = 1%nat /\ v = load)).

(** What a driver prescribes on its boundaries. *)
Definition boundary_conditions_ok {D} `{DoubleOps D} (b : benchmark)
           (g load : D) (myProperties : poroelasticProperties D)
           (s : list (intTable * option (table D))) : Prop :=
  exists (bcType : intTable) (bcValue : table D),
    s = [(bcType, None); (bcType, Some bcValue)] /\
    Forall (condition_ok load (fluidDensity myProperties * g)%dbl)
           (conditions bcType bcValue) /\
    nth 1 (nth (side_row north) bcValue []) (#0)%dbl
    = (if has_extensions b then #0 else load)%dbl /\
    nth 1 (nth (side_row south) bcType []) 0 = bc_code Dirichlet /\
    nth 0 (nth (side_row west) bcType []) 0 = bc_code Dirichlet.

(** *** A program started after a history *)

(** The world as seen by a program started after [h0]. *)
Definition world_after {D} (w : @world D) (h0 : list (event D)) : @world D :=
  fun X h c => w X (h0 ++ h) c.


(** * Proofs *)

(** ** Lists *)

Lemma concat_repeat_snoc {A} (l : list A) n :
  concat (repeat l n) ++ l = concat (repeat l (S n)).
Proof.
  induction n as [| n IH]; simpl.
  - now rewrite app_nil_r.
  - rewrite <- app_assoc. now rewrite IH.
Qed.

Lemma concat_repeat_split {A} (l : list A) i n :
  (i < n)%nat ->
  concat (repeat l n) = concat (repeat l i) ++ l ++ concat (repeat l (n - S i)).
Proof.
  intros Hi. replace n with (i + S (n - S i))%nat at 1 by lia.
  rewrite repeat_app, concat_app. reflexivity.
Qed.

Lemma prefix_refl {A} (l : list A) : is_prefix l l.
Proof. exists []. apply app_nil_r. Qed.

Lemma prefix_app_r {A} (l r : list A) : is_prefix l (l ++ r).
Proof. now exists r. Qed.

Lemma prefix_in_round {A} (base l p : list A) i n :
  (i < n)%nat -> is_prefix p l ->
  is_prefix (base ++ concat (repeat l i) ++ p) (base ++ concat (repeat l n)).
Proof.
  intros Hi [q Hq]. exists (q ++ concat (repeat l (n - S i))).
  rewrite (concat_repeat_split l Hi), <- Hq. now rewrite <- !app_assoc.
Qed.

Lemma flat_map_nil {A B} (l : list A) : flat_map (fun _ : A => @nil B) l = [].
Proof. induction l; simpl; auto. Qed.

(** ** Rules for [triple] *)

Section Rules.
Context {D Sym : Type}.
Variable view : event D -> list Sym.
Variable contract : forall X : Type, list Sym -> Cmd D X -> X -> Prop.
Variable w : @world D.
Hypothesis Hw : respects view contract w.

Lemma observe_snoc h e : observe view (h ++ [e]) = observe view h ++ view e.
Proof.
  unfold observe. rewrite flat_map_app. simpl. now rewrite app_nil_r.
Qed.

Lemma triple_ret {R} pre (r : R) (Post : R -> list Sym -> Prop) :
  Post r pre -> triple view w pre (Ret r) Post.
Proof. intros HP h Hh. simpl. now rewrite Hh. Qed.

Lemma triple_vis {R X} pre (c : Cmd D X) (k : X -> Prog D R) Post :
  (forall x, contract pre c x ->
             triple view w (pre ++ view (Ev c x)) (k x) Post) ->
  triple view w pre (Vis c k) Post.
Proof.
  intros H h Hh. simpl. apply H.
  - rewrite <- Hh. apply Hw.
  - rewrite observe_snoc. now rewrite Hh.
Qed.

Lemma exec_bind {A B} (p : Prog D A) (f : A -> Prog D B) h :
  exec w (bind p f) h = exec w (f (fst (exec w p h))) (snd (exec w p h)).
Proof.
  revert h. induction p as [a | X c k IH]; intros h; simpl.
  - reflexivity.
  - apply IH.
Qed.

Lemma triple_bind {A B} pre (p : Prog D A) (f : A -> Prog D B) Post :
  triple view w pre p (fun a mid => triple view w mid (f a) Post) ->
  triple view w pre (bind p f) Post.
Proof.
  intros H h Hh. rewrite exec_bind. now apply (H h Hh).
Qed.

Lemma triple_conseq {R} pre (p : Prog D R) (P1 P2 : R -> list Sym -> Prop) :
  triple view w pre p P1 -> (forall r s, P1 r s -> P2 r s) ->
  triple view w pre p P2.
Proof. intros H HP h Hh. apply HP. now apply H. Qed.

Lemma triple_seq {A B} pre (p : Prog D (outcome A))
      (f : A -> Prog D (outcome B)) Post :
  triple view w pre p (after view w f Post) -> triple view w pre (seq p f) Post.
Proof.
  intros H. unfold seq. apply triple_bind.
  eapply triple_conseq; [exact H|].
  intros [a | e] mid; simpl; intros Hk.
  - exact Hk.
  - now apply triple_ret.
Qed.

Lemma triple_call {A X} pre (c : Cmd D X) (f : X -> Prog D (outcome A)) Post :
  (forall x, contract pre c x ->
             triple view w (pre ++ view (Ev c x)) (f x) Post) ->
  triple view w pre (seq (call c) f) Post.
Proof.
  intros H. apply triple_seq. unfold call. apply triple_vis.
  intros x Hx. apply triple_ret. simpl. now apply H.
Qed.

Lemma triple_call_last {X} pre (c : Cmd D X) Post :
  (forall x, contract pre c x -> Post (Normal x) (pre ++ view (Ev c x))) ->
  triple view w pre (call c) Post.
Proof.
  intros H. unfold call. apply triple_vis.
  intros x Hx. apply triple_ret. now apply H.
Qed.

Lemma triple_CHKERRQ {A} pre ierr (f : unit -> Prog D (outcome A)) Post :
  (ierr = 0 -> triple view w pre (f tt) Post) ->
  (ierr <> 0 -> Post (Return ierr) pre) ->
  triple view w pre (seq (CHKERRQ ierr) f) Post.
Proof.
  intros Hok Herr. apply triple_seq. unfold CHKERRQ.
  destruct (Z.eqb_spec ierr 0) as [E | E]; apply triple_ret; simpl; auto.
Qed.

Lemma triple_CHKERRQ_last pre ierr Post :
  (ierr = 0 -> Post (Normal tt) pre) ->
  (ierr <> 0 -> Post (Return ierr) pre) ->
  triple view w pre (CHKERRQ ierr) Post.
Proof.
  intros Hok Herr. unfold CHKERRQ.
  destruct (Z.eqb_spec ierr 0) as [E | E]; apply triple_ret; auto.
Qed.

Lemma triple_function pre (body : Prog D (outcome PetscErrorCode)) Post :
  triple view w pre body (fun o s => Post (returned o) s) ->
  triple view w pre (function body) Post.
Proof.
  intros H. unfold function. apply triple_bind.
  eapply triple_conseq; [exact H|].
  intros o s HP. now apply triple_ret.
Qed.

Lemma triple_callee {A R} pre (p : Prog D R) (f : R -> Prog D (outcome A))
      Post :
  triple view w pre p (fun r mid => triple view w mid (f r) Post) ->
  triple view w pre (seq (callee p) f) Post.
Proof.
  intros H. apply triple_seq. unfold callee. apply triple_bind.
  eapply triple_conseq; [exact H|].
  intros r mid Hk. apply triple_ret. exact Hk.
Qed.

Lemma triple_exit {A B} pre status (f : A -> Prog D (outcome B)) Post :
  Post (Return status) pre -> triple view w pre (seq (exit status) f) Post.
Proof. intros H. apply triple_seq. apply triple_ret. exact H. Qed.

(** The time loop: an invariant on the completed rounds. *)
Lemma triple_forLoop {S} (Inv : nat -> S -> list Sym -> Prop)
      (n : nat) (t0 : Z) (body : Z -> S -> Prog D (outcome S)) s0 pre
      (Post : outcome S -> list Sym -> Prop) :
  Inv O s0 pre ->
  (forall i s mid, (i < n)%nat -> Inv i s mid ->
     triple view w mid (body (t0 + Z.of_nat i) s)
            (fun o s' => match o with
                         | Normal st => Inv (Datatypes.S i) st s'
                         | Return e => Post (Return e) s'
                         end)) ->
  (forall s mid, Inv n s mid -> Post (Normal s) mid) ->
  triple view w pre (forLoop n t0 body s0) Post.
Proof.
  revert Inv t0 s0 pre.
  induction n as [| n IH]; intros Inv t0 s0 pre H0 Hbody Hend; simpl.
  - apply triple_ret. now apply Hend.
  - apply triple_seq.
    eapply triple_conseq.
    + specialize (Hbody O s0 pre). rewrite Z.add_0_r in Hbody.
      apply Hbody; [lia | exact H0].
    + intros [st | e] mid; simpl; intros H; [| exact H].
      apply (IH (fun i => Inv (Datatypes.S i))); [exact H | | exact Hend].
      intros i s mid' Hi HI.
      replace (t0 + 1 + Z.of_nat i) with (t0 + Z.of_nat (Datatypes.S i))
        by lia.
      apply Hbody; [lia | exact HI].
Qed.

(** A loop over a list, when each round appends [f a] to what is viewed
    and goes on. *)
Lemma triple_forEach {A} (f : A -> list Sym) (v : list A)
      (body : A -> Prog D (outcome unit)) pre :
  (forall a mid, triple view w mid (body a)
                        (fun o s => goes_on o (s = mid ++ f a))) ->
  triple view w pre (forEach v body)
         (fun o s => goes_on o (s = pre ++ flat_map f v)).
Proof.
  intros Hbody. revert pre.
  induction v as [| a v IH]; intros pre; simpl.
  - apply triple_ret. simpl. now rewrite app_nil_r.
  - apply triple_seq. eapply triple_conseq; [apply Hbody|].
    intros [u | e] s; simpl; [intros -> | tauto].
    eapply triple_conseq; [apply IH|].
    intros [u' | e] s; simpl; [intros -> | tauto].
    now rewrite app_assoc.
Qed.

(** A loop over a list with an invariant, when a round may return. *)
Lemma triple_forEach_inv {A} (Inv : list Sym -> Prop) (v : list A)
      (body : A -> Prog D (outcome unit)) pre
      (Post : outcome unit -> list Sym -> Prop) :
  Inv pre ->
  (forall a mid, Inv mid ->
     triple view w mid (body a)
            (fun o s => match o with
                        | Normal _ => Inv s
                        | Return e => Post (Return e) s
                        end)) ->
  (forall mid, Inv mid -> Post (Normal tt) mid) ->
  triple view w pre (forEach v body) Post.
Proof.
  intros H0 Hbody Hend. revert pre H0.
  induction v as [| a v IH]; intros pre H0; simpl.
  - apply triple_ret. now apply Hend.
  - apply triple_seq. eapply triple_conseq; [apply (Hbody a pre H0)|].
    intros [u | e] s; simpl; intros H; [| exact H].
    now apply IH.
Qed.

(** Whatever a program does, what was viewed before stays in front. *)
Lemma triple_extends {R} pre (p : Prog D R) :
  triple view w pre p (fun _ s => exists rest, s = pre ++ rest).
Proof.
  revert pre. induction p as [r | X c k IH]; intros pre.
  - apply triple_ret. exists []. now rewrite app_nil_r.
  - apply triple_vis. intros x _.
    eapply triple_conseq; [apply IH|].
    intros r s [rest ->]. exists (view (Ev c x) ++ rest).
    now rewrite app_assoc.
Qed.

Lemma triple_run {R} (p : Prog D R) Post :
  triple view w [] p Post ->
  Post (run_result w p) (observe view (run_trace w p)).
Proof. intros H. now apply (H []). Qed.
End Rules.

Lemma respects_any {D Sym} (view : event D -> list Sym) (w : world) :
  respects view no_contract w.
Proof. intros X h c. exact I. Qed.

(** ** Symbolic execution of a driver *)

Ltac norm_pre view :=
  lazymatch goal with
  | |- triple ?P ?w ?pre ?p ?Post =>
      let pre' := eval cbn [app view] in pre in
      change (triple P w pre' p Post); rewrite ?app_nil_r
  end.

(** One statement; the contract on a call's answer is kept as a
    hypothesis by [stepc] and dropped by [step]. *)
Ltac step_with Hw view intro_answer :=
  lazymatch goal with
  | |- triple _ _ _ (function _) _ => apply triple_function
  | |- triple _ _ _ (seq (call _) _) _ =>
      apply (triple_call Hw); intro_answer; cbv beta; norm_pre view
  | |- triple _ _ _ (seq (CHKERRQ _) _) _ =>
      apply triple_CHKERRQ; [intros ?; cbv beta | intros ?]
  | |- triple _ _ _ (CHKERRQ _) _ =>
      apply triple_CHKERRQ_last; [intros ? | intros ?]
  | |- triple _ _ _ (Ret _) _ => apply triple_ret
  | |- triple _ _ _ (call _) _ =>
      apply (triple_call_last Hw); intro_answer; cbn [app view];
      rewrite ?app_nil_r
  | |- triple _ _ _ (match ?x with (_, _) => _ end) _ => destruct x
  end.

Ltac step Hw view := step_with Hw view ltac:(intros ? _).
Ltac stepc Hw view := step_with Hw view ltac:(intros ? ?).

(** A loop over a list of which nothing is viewed. *)
Ltac silent_loop Hw view :=
  apply triple_seq;
  eapply triple_conseq;
  [ apply (triple_forEach (fun _ => []));
    intros ? ?; repeat (step Hw view); cbn [goes_on]; now rewrite ?app_nil_r
  | let o := fresh "o" in
    intros [o | o] ?; cbn [goes_on after];
    [intros ->; rewrite flat_map_nil, ?app_nil_r | tauto] ].

(** ** C1: one factorization, then one solve per time step *)

Lemma phases_full n r : phases_post n r (full_phases n).
Proof.
  repeat split.
  - now eexists.
  - apply prefix_refl.
Qed.

Lemma phases_stopped n i p e :
  (i < n)%nat -> e <> 0 -> is_prefix p [IterationStart; Solve] ->
  phases_post n e
    ([Factorize] ++ concat (repeat [IterationStart; Solve] i) ++ p).
Proof.
  intros Hi He Hp. repeat split.
  - now eexists.
  - now apply prefix_in_round.
  - intros; contradiction.
Qed.

Lemma phases_not_started n e : e <> 0 -> phases_post n e [Factorize].
Proof.
  intros He. repeat split.
  - now eexists.
  - apply prefix_app_r.
  - intros; contradiction.
Qed.

Lemma prefix_start_only : is_prefix [IterationStart] [IterationStart; Solve].
Proof. now exists [Solve]. Qed.

Ltac phases_driver Hw :=
  cbv zeta;
  repeat (step Hw (@solver_phase));
  try (cbn [returned]; now apply phases_not_started);
  apply triple_seq;
  apply (triple_forLoop
           (fun i _ s =>
              s = [Factorize] ++ concat (repeat [IterationStart; Solve] i)));
  [ reflexivity
  | intros ? ? ? ? ->;
    repeat (step Hw (@solver_phase));
    cbn [after returned]; rewrite <- ?app_assoc; cbn [app];
    try (apply (phases_stopped (p:=[IterationStart]));
         [assumption | assumption | apply prefix_start_only]);
    try (apply (phases_stopped (p:=[IterationStart; Solve]));
         [assumption | assumption | apply prefix_refl]);
    try (rewrite <- concat_repeat_snoc; reflexivity)
  | intros ? ? ->; cbn [after];
    repeat (step Hw (@solver_phase));
    try silent_loop Hw (@solver_phase);
    repeat (step Hw (@solver_phase));
    cbn [returned];
    apply phases_full ].

(** In every run, complete or stopped by a failing PETSc call: the
    factorization is the first of these calls, and what follows is a
    prefix of the rounds of a complete run. *)
Lemma phases_of_run {D} {ops : DoubleOps D} (w : @world D) (b : benchmark)
      gridType interpScheme Nt meshSize Lt g load myProperties :
  triple solver_phase w []
         (driver b gridType interpScheme Nt meshSize Lt g load myProperties)
         (phases_post (Z.to_nat (Nt - 1))).
Proof.
  pose proof (respects_any solver_phase w) as Hw.
  destruct b; cbn [driver].
  - unfold sealedColumn. phases_driver Hw.
  - unfold terzaghi. phases_driver Hw.
  - unfold mandel. phases_driver Hw.
  - unfold convergence. phases_driver Hw.
  - unfold stripfoot. phases_driver Hw.
  - unfold terzaghiDouble. phases_driver Hw.
  - unfold stripfootDouble. phases_driver Hw.
  - unfold sealedDouble. phases_driver Hw.
  - unfold storageDouble. phases_driver Hw.
  - unfold leakingDouble. phases_driver Hw.
Qed.

(** C1.  A run of any benchmark with [Nt >= 1] time points that returns 0
    (no PETSc call failed) calls [coefficientsMatrixLUFactorization]
    exactly once, before the first round of the time loop, and then runs
    exactly [Nt - 1] rounds, each with one [solveLinearSystem]; no
    factorization follows the first one. *)
Theorem C1_factorize_once_then_solve_each_step :
  forall (D : Type) (ops : DoubleOps D) (w : @world D) (b : benchmark)
         (gridType interpScheme : string) (Nt meshSize : Z)
         (Lt g load : D) (myProperties : poroelasticProperties D),
    1 <= Nt ->
    run_result w (driver b gridType interpScheme Nt meshSize Lt g load
                         myProperties) = 0 ->
    exists n : nat,
      Z.of_nat n = Nt - 1 /\
      observe solver_phase
              (run_trace w (driver b gridType interpScheme Nt meshSize Lt g
                                   load myProperties))
      = [Factorize] ++ concat (repeat [IterationStart; Solve] n).
Proof.
  intros D ops w b gridType interpScheme Nt meshSize Lt g load myProperties
         HNt Hok.
  exists (Z.to_nat (Nt - 1)). split; [lia|].
  destruct (triple_run (phases_of_run w b gridType interpScheme Nt meshSize
                                      Lt g load myProperties))
    as (_ & _ & Hfull).
  exact (Hfull Hok).
Qed.

Lemma C1_witness :
  1 <= 3 /\
  run_result (model_world sample_file)
             (driver Terzaghi "staggered" "NA" 3 1 (inject_Z 1) (inject_Z 0)
                     (inject_Z (-10)) sample_properties) = 0 /\
  exists n : nat,
    Z.of_nat n = 3 - 1 /\
    observe solver_phase
            (run_trace (model_world sample_file)
                       (driver Terzaghi "staggered" "NA" 3 1 (inject_Z 1)
                               (inject_Z 0) (inject_Z (-10))
                               sample_properties))
    = [Factorize] ++ concat (repeat [IterationStart; Solve] n).
Proof.
  split; [lia|]. split; [vm_compute; reflexivity|].
  apply (@C1_factorize_once_then_solve_each_step QArith_base.Q _
           (model_world sample_file) Terzaghi "staggered" "NA" 3 1
           (inject_Z 1) (inject_Z 0) (inject_Z (-10)) sample_properties).
  - lia.
  - vm_compute. reflexivity.
Defined.

(** ** C2: the independent terms are rebuilt at every step *)

Lemma base_is_not_shaping {D X} (m : independentTermsAssembly.method D X) io :
  base_inputs m = Some io -> is_shaping_call m = false.
Proof. destruct m; simpl; congruence. Qed.

Lemma base_is_not_override {D X} (m : independentTermsAssembly.method D X) io :
  base_inputs m = Some io -> is_override_call m = false.
Proof. destruct m; simpl; congruence. Qed.

Lemma override_is_not_shaping {D X} (m : independentTermsAssembly.method D X) :
  is_override_call m = true -> is_shaping_call m = false.
Proof. destruct m; simpl; congruence. Qed.

Lemma override_is_not_base {D X} (m : independentTermsAssembly.method D X) :
  is_override_call m = true -> base_inputs m = None.
Proof. destruct m; simpl; congruence. Qed.

Lemma keep_overrides {D} (ovs : list (independentTermsAssembly.method D unit))
      (acc : list (rhs_event D)) :
  Forall (fun m => is_override_call m = true) ovs ->
  fold_left keep_call (assembly_events ovs) acc = acc ++ assembly_events ovs.
Proof.
  intros H. revert acc.
  induction H as [| m ovs Hm _ IH]; intros acc; simpl.
  - now rewrite app_nil_r.
  - rewrite IH. unfold keep_call at 1. simpl.
    rewrite (override_is_not_base _ Hm), Hm, orb_true_r.
    now rewrite <- app_assoc.
Qed.

Lemma current_assembly_round {D}
      (seen : list (rhs_event D))
      (base : independentTermsAssembly.method D unit)
      (ovs : list (independentTermsAssembly.method D unit)) io :
  base_inputs base = Some io ->
  Forall (fun m => is_override_call m = true) ovs ->
  current_assembly (seen ++ assembly_events (base :: ovs))
  = filter is_shaping (current_assembly seen) ++ assembly_events (base :: ovs).
Proof.
  intros Hb Ho. unfold current_assembly.
  rewrite fold_left_app. simpl. rewrite (keep_overrides _ Ho).
  unfold keep_call at 1. simpl. rewrite Hb.
  now rewrite <- app_assoc.
Qed.

Lemma shaping_kept {D} (seen acc : list (rhs_event D)) :
  filter is_shaping (fold_left keep_call seen acc)
  = filter is_shaping acc ++ filter is_shaping seen.
Proof.
  revert acc. induction seen as [| e seen IH]; intros acc; simpl.
  - now rewrite app_nil_r.
  - rewrite IH. unfold keep_call.
    destruct (is_base e) eqn:Eb.
    + rewrite filter_app. simpl.
      assert (Hf : filter is_shaping (filter is_shaping acc)
                   = filter is_shaping acc).
      { clear. induction acc as [| a acc IHa]; simpl; auto.
        destruct (is_shaping a) eqn:Ea; simpl; rewrite ?Ea, IHa; auto. }
      rewrite Hf. destruct (is_shaping e); now rewrite <- app_assoc.
    + destruct (is_shaping e) eqn:Es; simpl.
      * rewrite filter_app. simpl. rewrite Es. now rewrite <- app_assoc.
      * destruct (is_override e); [| reflexivity].
        rewrite filter_app. simpl. rewrite Es. now rewrite app_nil_r.
Qed.

Lemma shaping_of_current_assembly {D} (seen : list (rhs_event D)) :
  filter is_shaping (current_assembly seen) = filter is_shaping seen.
Proof. apply (shaping_kept seen []). Qed.

Lemma no_shaping_in_overrides {D}
      (ovs : list (independentTermsAssembly.method D unit)) :
  Forall (fun m => is_override_call m = true) ovs ->
  filter is_shaping (assembly_events ovs) = [].
Proof.
  induction 1 as [| m ovs Hm _ IH]; simpl; auto.
  now rewrite (override_is_not_shaping _ Hm).
Qed.

Lemma linked_snoc {D} (F : list (rhs_event D) -> list D) setup f t steps out
      (s : time_step D) :
  linked F setup f t steps out ->
  step_ok F setup out (t + Z.of_nat (length steps)) s ->
  linked F setup f t (steps ++ [s]) (extracted s).
Proof.
  induction 1 as [f t | f t s0 rest out Hs0 _ IH]; intros Hs; simpl in *.
  - rewrite Z.add_0_r in Hs. apply linked_cons; [exact Hs | constructor].
  - apply linked_cons; [exact Hs0|]. apply IH.
    replace (t + 1 + Z.of_nat (length rest))
      with (t + Z.pos (Pos.of_succ_nat (length rest))) by lia.
    exact Hs.
Qed.

(** One more round. *)
Lemma rhs_round {D} (F : list (rhs_event D) -> list D) setup incoming i
      fields_in mid
      (base : independentTermsAssembly.method D unit)
      (ovs : list (independentTermsAssembly.method D unit))
      (rhs : list D) (fields_out : list (solver_field * table D)) :
  rhs_inv F setup incoming i fields_in mid ->
  base_inputs base = Some (fields_in, 0 + Z.of_nat i) ->
  forallb (fun m => is_override_call m) ovs = true ->
  rhs = F (current_assembly (mid ++ assembly_events (base :: ovs))) ->
  rhs_inv F setup incoming (S i) fields_out
          (mid ++ assembly_events (base :: ovs)
               ++ Assembler independentTermsAssembly.independentTermsArray rhs
               :: RHSLoaded rhs
               :: map (fun kf => FieldExtracted (fst kf) (snd kf)) fields_out).
Proof.
  intros (steps & Hmid & Hlen & Hlinked & Hshape) Hbase Hovs Hrhs.
  rewrite forallb_forall in Hovs.
  assert (Ho : Forall (fun m => is_override_call m = true) ovs)
    by (apply Forall_forall; exact Hovs).
  pose (s := {| assembly_calls := base :: ovs; loaded := rhs;
                extracted := fields_out |}).
  exists (steps ++ [s]). repeat split.
  - rewrite flat_map_app, (app_assoc setup), <- Hmid. f_equal.
    cbn [flat_map]. now rewrite app_nil_r.
  - rewrite length_app. simpl. lia.
  - apply (linked_snoc Hlinked (s:=s)). rewrite Hlen.
    exists base, ovs. repeat split; auto.
    simpl. rewrite Hrhs.
    rewrite (@current_assembly_round _ mid base ovs _ Hbase Ho).
    now rewrite shaping_of_current_assembly, Hshape.
  - rewrite filter_app, Hshape.
    change (assembly_events (base :: ovs))
      with (Assembler base tt :: assembly_events ovs).
    cbn [app filter is_shaping].
    rewrite (base_is_not_shaping _ Hbase).
    rewrite filter_app, (no_shaping_in_overrides Ho). simpl.
    assert (Hf : forall l : list (solver_field * table D),
               filter is_shaping
                 (map (fun kf => FieldExtracted (fst kf) (snd kf)) l) = []).
    { induction l; simpl; auto. }
    now rewrite Hf, app_nil_r.
Qed.

Lemma rhs_start {D} (F : list (rhs_event D) -> list D) setup incoming :
  forallb is_shaping setup = true ->
  rhs_inv F setup incoming 0 incoming setup.
Proof.
  intros H. exists []. simpl. rewrite app_nil_r.
  repeat split; [constructor|].
  induction setup as [| e setup IH]; simpl in *; auto.
  apply andb_true_iff in H as [-> H]. now rewrite IH.
Qed.

Lemma rhs_end {D} (F : list (rhs_event D) -> list D) setup incoming n out s r :
  rhs_inv F setup incoming n out s ->
  forallb is_shaping setup = true ->
  rhs_post F n r s.
Proof.
  intros (steps & Hs & Hlen & Hlinked & _) Hsetup _.
  exists setup, incoming, steps, out. repeat split; auto.
  apply Forall_forall. now apply forallb_forall.
Qed.

Ltac rhs_step Hw :=
  lazymatch goal with
  | |- triple _ _ _
         (seq (call (myIndependentTerms
                       independentTermsAssembly.independentTermsArray)) _) _ =>
      apply (triple_call Hw);
      let rhs := fresh "rhs" in
      let Hrhs := fresh "Hrhs" in
      intros rhs Hrhs; cbv beta; norm_pre (@rhs_view);
      cbv beta iota delta [rebuilt_every_step] in Hrhs;
      rewrite <- ?app_assoc in Hrhs; cbn [app] in Hrhs
  | _ => step Hw (@rhs_view)
  end.

(** The methods called in a list of events of the assembler. *)
Ltac methods_of calls :=
  lazymatch calls with
  | Assembler ?m tt :: ?rest =>
      let r := methods_of rest in constr:(m :: r)
  | _ =>
      lazymatch type of calls with
      | list (rhs_event ?D) =>
          constr:(@nil (independentTermsAssembly.method D unit))
      end
  end.

Ltac rhs_stopped := unfold rhs_post; intros; contradiction.

Ltac rhs_driver Hw F fields_of :=
  cbv zeta;
  repeat (rhs_step Hw);
  try (cbn [returned]; rhs_stopped);
  apply triple_seq;
  lazymatch goal with
  | |- triple _ _ ?pre (forLoop _ _ _ ?s0) _ =>
      apply (triple_forLoop
               (fun i st s =>
                  rhs_inv F pre (fields_of s0) i (fields_of st) s))
  end;
  [ apply rhs_start; reflexivity
  | let Hinv := fresh "Hinv" in
    intros ? ? ? ? Hinv;
    repeat (rhs_step Hw);
    cbn [after returned]; rewrite <- ?app_assoc; cbn [app];
    try rhs_stopped;
    repeat match goal with u : unit |- _ => destruct u end;
    lazymatch goal with
    | Hrhs : ?rhs = F (current_assembly (_ ++ ?calls))
      |- rhs_inv _ _ _ _ ?out _ =>
        let ms := methods_of calls in
        lazymatch ms with
        | ?base :: ?ovs =>
            apply (@rhs_round _ _ _ _ _ _ _ base ovs rhs out Hinv);
            [ reflexivity | reflexivity | exact Hrhs ]
        end
    end
  | let Hinv := fresh "Hinv" in
    intros ? ? Hinv; cbn [after];
    repeat (step Hw (@rhs_view));
    try silent_loop Hw (@rhs_view);
    repeat (step Hw (@rhs_view));
    cbn [returned];
    eapply rhs_end; [exact Hinv | reflexivity] ].

Lemma rhs_of_run {D} {ops : DoubleOps D} (w : @world D)
      (F : list (rhs_event D) -> list D)
      (Hw : respects rhs_view (rebuilt_every_step F) w) (b : benchmark)
      gridType interpScheme Nt meshSize Lt g load myProperties :
  triple rhs_view w []
         (driver b gridType interpScheme Nt meshSize Lt g load myProperties)
         (rhs_post F (Z.to_nat (Nt - 1))).
Proof.
  destruct b; cbn [driver].
  - unfold sealedColumn. rhs_driver Hw F (@fields_of D).
  - unfold terzaghi. rhs_driver Hw F (@fields_of D).
  - unfold mandel. rhs_driver Hw F (@fields_of D).
  - unfold convergence. rhs_driver Hw F (@fields_of D).
  - unfold stripfoot. rhs_driver Hw F (@fields_of D).
  - unfold terzaghiDouble. rhs_driver Hw F (@doubleFields_of D).
  - unfold stripfootDouble. rhs_driver Hw F (@doubleFields_of D).
  - unfold sealedDouble. rhs_driver Hw F (@doubleFields_of D).
  - unfold storageDouble. rhs_driver Hw F (@doubleFields_of D).
  - unfold leakingDouble. rhs_driver Hw F (@doubleFields_of D).
Qed.

(** C2.  In a world where the array of the RHS assembler is rebuilt at
    every step (it is [F] of the calls that count when it is read), a
    run of any driver that returns 0 shows the calls that fix the shape
    of the array and then [Nt - 1] rounds.  In each round the base
    assembly is given the step index and exactly the field arrays the
    round before read back from the solver after its solve (the initial
    fields in the first round), the variant's modifications follow, and
    the vector handed to [setRHSValue] is [F] of the shaping calls and of
    this round's assembly calls alone: nothing of an earlier round
    enters it. *)
Theorem C2_rhs_rebuilt_each_step_from_previous_fields :
  forall (D : Type) (ops : DoubleOps D) (w : @world D)
         (F : list (rhs_event D) -> list D) (b : benchmark)
         (gridType interpScheme : string) (Nt meshSize : Z)
         (Lt g load : D) (myProperties : poroelasticProperties D),
    respects rhs_view (rebuilt_every_step F) w ->
    run_result w (driver b gridType interpScheme Nt meshSize Lt g load
                         myProperties) = 0 ->
    exists setup incoming steps outgoing,
      observe rhs_view
              (run_trace w (driver b gridType interpScheme Nt meshSize Lt g
                                   load myProperties))
      = setup ++ flat_map step_events steps /\
      Forall (fun e => is_shaping e = true) setup /\
      length steps = Z.to_nat (Nt - 1) /\
      linked F setup incoming 0 steps outgoing.
Proof.
  intros D ops w F b gridType interpScheme Nt meshSize Lt g load
         myProperties Hw Hok.
  exact (triple_run (rhs_of_run Hw b gridType interpScheme Nt meshSize Lt g
                                load myProperties) Hok).
Qed.

Lemma model_world_rebuilds (file : list QArith_base.Q) :
  respects rhs_view (rebuilt_every_step model_F) (model_world file).
Proof.
  intros X h c. destruct c as [? m | ? m | ? m | ? m | ? m | ? m | ? m | ? m];
    try exact I.
  destruct m; try exact I. reflexivity.
Qed.

Lemma C2_witness :
  respects rhs_view (rebuilt_every_step model_F) (model_world sample_file) /\
  run_result (model_world sample_file)
             (driver Mandel "staggered" "NA" 3 1 (inject_Z 1) (inject_Z 0)
                     (inject_Z (-10)) sample_properties) = 0 /\
  exists setup incoming steps outgoing,
    observe rhs_view
            (run_trace (model_world sample_file)
                       (driver Mandel "staggered" "NA" 3 1 (inject_Z 1)
                               (inject_Z 0) (inject_Z (-10))
                               sample_properties))
    = setup ++ flat_map step_events steps /\
    Forall (fun e => is_shaping e = true) setup /\
    length steps = Z.to_nat (3 - 1) /\
    linked model_F setup incoming 0 steps outgoing.
Proof.
  split; [apply model_world_rebuilds|].
  split; [vm_compute; reflexivity|].
  apply (@C2_rhs_rebuilt_each_step_from_previous_fields QArith_base.Q _
           (model_world sample_file) model_F Mandel "staggered" "NA" 3 1
           (inject_Z 1) (inject_Z 0) (inject_Z (-10)) sample_properties).
  - apply model_world_rebuilds.
  - vm_compute. reflexivity.
Defined.

(** ** C3: the variants' modifications come after the base assembly *)

Lemma roles_full b n r : roles_post b n r (full_assembly_roles b n).
Proof. exists n. repeat split. apply Nat.le_refl. Qed.

Lemma roles_stopped b n k e :
  (k <= n)%nat -> e <> 0 ->
  roles_post b n e (operator_roles b ++ concat (repeat (rhs_roles b) k)).
Proof.
  intros Hk He. exists k. repeat split; [exact Hk|]. intros; contradiction.
Qed.

Lemma roles_stopped_in_round b n i e :
  (i < n)%nat -> e <> 0 ->
  roles_post b n e
    (operator_roles b ++ concat (repeat (rhs_roles b) i) ++ rhs_roles b).
Proof.
  intros Hi He. rewrite concat_repeat_snoc. now apply roles_stopped.
Qed.

Lemma roles_next b i :
  operator_roles b ++ concat (repeat (rhs_roles b) i) ++ rhs_roles b
  = operator_roles b ++ concat (repeat (rhs_roles b) (S i)).
Proof. now rewrite concat_repeat_snoc. Qed.

Ltac roles_driver Hw b :=
  cbv zeta;
  repeat (step Hw (@assembly_roles));
  try (cbn [returned];
       apply (@roles_stopped b _ O); [apply Nat.le_0_l | assumption]);
  apply triple_seq;
  apply (triple_forLoop
           (fun i _ s =>
              s = operator_roles b ++ concat (repeat (rhs_roles b) i)));
  [ reflexivity
  | intros ? ? ? ? ->;
    repeat (step Hw (@assembly_roles));
    cbn [after returned]; rewrite <- ?app_assoc; cbn [app];
    try exact (roles_next b _);
    try (apply (@roles_stopped_in_round b); assumption)
  | intros ? ? ->; cbn [after];
    repeat (step Hw (@assembly_roles));
    try silent_loop Hw (@assembly_roles);
    repeat (step Hw (@assembly_roles));
    cbn [returned];
    apply roles_full ].

Lemma roles_of_run {D} {ops : DoubleOps D} (w : @world D) (b : benchmark)
      gridType interpScheme Nt meshSize Lt g load myProperties :
  triple assembly_roles w []
         (driver b gridType interpScheme Nt meshSize Lt g load myProperties)
         (roles_post b (Z.to_nat (Nt - 1))).
Proof.
  pose proof (respects_any assembly_roles w) as Hw.
  destruct b; cbn [driver].
  - unfold sealedColumn. roles_driver Hw SealedColumn.
  - unfold terzaghi. roles_driver Hw Terzaghi.
  - unfold mandel. roles_driver Hw Mandel.
  - unfold convergence. roles_driver Hw Convergence.
  - unfold stripfoot. roles_driver Hw Stripfoot.
  - unfold terzaghiDouble. roles_driver Hw TerzaghiDouble.
  - unfold stripfootDouble. roles_driver Hw StripfootDouble.
  - unfold sealedDouble. roles_driver Hw SealedDouble.
  - unfold storageDouble. roles_driver Hw StorageDouble.
  - unfold leakingDouble. roles_driver Hw LeakingDouble.
Qed.

Ltac not_in_list :=
  let H := fresh in
  intros H; simpl in H;
  repeat (destruct H as [H | H]; [discriminate|]); exact H.

Lemma operator_variants_after_base (b : benchmark) :
  has_extensions b = true ->
  variants_after_base BaseOperator VariantOperator OperatorRead
                      (operator_roles b).
Proof.
  destruct b; try discriminate; intros _.
  - exists [VariantOperator], [SparseRebuilt; OperatorRead].
    repeat split; try discriminate; try not_in_list. repeat constructor.
  - exists [VariantOperator], [].
    repeat split; try discriminate; try not_in_list. repeat constructor.
  - exists [VariantOperator; VariantOperator], [].
    repeat split; try discriminate; try not_in_list. repeat constructor.
Qed.

Lemma rhs_variants_after_base (b : benchmark) :
  has_extensions b = true ->
  variants_after_base BaseRHS VariantRHS RHSRead (rhs_roles b).
Proof.
  destruct b; try discriminate; intros _.
  - exists [VariantRHS], [].
    repeat split; try discriminate; try not_in_list. repeat constructor.
  - exists [VariantRHS], [].
    repeat split; try discriminate; try not_in_list. repeat constructor.
  - exists [VariantRHS; VariantRHS], [].
    repeat split; try discriminate; try not_in_list. repeat constructor.
Qed.

(** C3.  In every run of [mandel], [stripfoot] and [stripfootDouble]
    (complete or stopped), the calls on [myCoefficients] are the base
    assembly, then the variant's modifications
    ([assemblyMandelCoefficientsMatrix], [addStripfootBC],
    [addMacroStripfootBC]), and only then the read that hands the
    operator to the solver; and in every round of the time loop the calls
    on [myIndependentTerms] are the base assembly, then the variant's
    modifications ([assemblyMandelIndependentTermsArray],
    [addStripfootBC], [addMacroStripfootBC]), and only then the read of
    the array.  No base assembly comes between a modification and the
    read, so what is read carries the variant's rows. *)
Theorem C3_variant_modifications_follow_base_assembly :
  forall (D : Type) (ops : DoubleOps D) (w : @world D) (b : benchmark)
         (gridType interpScheme : string) (Nt meshSize : Z)
         (Lt g load : D) (myProperties : poroelasticProperties D),
    has_extensions b = true ->
    (exists rounds : nat,
       (rounds <= Z.to_nat (Nt - 1))%nat /\
       observe assembly_roles
               (run_trace w (driver b gridType interpScheme Nt meshSize Lt g
                                    load myProperties))
       = operator_roles b ++ concat (repeat (rhs_roles b) rounds)) /\
    variants_after_base BaseOperator VariantOperator OperatorRead
                        (operator_roles b) /\
    variants_after_base BaseRHS VariantRHS RHSRead (rhs_roles b).
Proof.
  intros D ops w b gridType interpScheme Nt meshSize Lt g load myProperties
         Hext.
  split; [| split].
  - destruct (triple_run (roles_of_run w b gridType interpScheme Nt meshSize
                                       Lt g load myProperties))
      as (k & Hk & Hword & _).
    exists k. split; assumption.
  - now apply operator_variants_after_base.
  - now apply rhs_variants_after_base.
Qed.

Lemma C3_witness :
  has_extensions Mandel = true /\
  (exists rounds : nat,
     (rounds <= Z.to_nat (3 - 1))%nat /\
     observe assembly_roles
             (run_trace (model_world sample_file)
                        (driver Mandel "staggered" "NA" 3 1 (inject_Z 1)
                                (inject_Z 0) (inject_Z (-10))
                                sample_properties))
     = operator_roles Mandel ++ concat (repeat (rhs_roles Mandel) rounds)) /\
  variants_after_base BaseOperator VariantOperator OperatorRead
                      (operator_roles Mandel) /\
  variants_after_base BaseRHS VariantRHS RHSRead (rhs_roles Mandel).
Proof.
  split; [reflexivity|].
  apply (@C3_variant_modifications_follow_base_assembly QArith_base.Q _
           (model_world sample_file) Mandel "staggered" "NA" 3 1
           (inject_Z 1) (inject_Z 0) (inject_Z (-10)) sample_properties).
  reflexivity.
Defined.

(** ** C4: the buffers are zeroed before the load and after the extraction *)

Lemma solver_ops_full b n r : solver_ops_post b n r (full_solver_ops b n).
Proof. split; [apply prefix_refl | reflexivity]. Qed.

Lemma solver_ops_stopped b n i p e :
  (i < n)%nat -> e <> 0 -> is_prefix p (iteration_ops b) ->
  solver_ops_post b n e
    ([FactorizeOp; CreateArrays; ZeroBuffers]
     ++ concat (repeat (iteration_ops b) i) ++ p).
Proof.
  intros Hi He Hp. split.
  - now apply prefix_in_round.
  - intros; contradiction.
Qed.

Lemma solver_ops_not_started b n p e :
  e <> 0 -> is_prefix p [FactorizeOp; CreateArrays; ZeroBuffers] ->
  solver_ops_post b n e p.
Proof.
  intros He [q Hq]. split.
  - exists (q ++ concat (repeat (iteration_ops b) n)).
    unfold full_solver_ops. now rewrite <- Hq, <- app_assoc.
  - intros; contradiction.
Qed.

Ltac prefix_by_rest := eexists; cbn [app]; reflexivity.

Ltac solver_ops_driver Hw b :=
  cbv zeta;
  repeat (step Hw (@solver_ops));
  try (cbn [returned]; apply (@solver_ops_not_started b);
       [assumption | prefix_by_rest]);
  apply triple_seq;
  apply (triple_forLoop
           (fun i _ s =>
              s = [FactorizeOp; CreateArrays; ZeroBuffers]
                  ++ concat (repeat (iteration_ops b) i)));
  [ reflexivity
  | intros ? ? ? ? ->;
    repeat (step Hw (@solver_ops));
    cbn [after returned]; rewrite <- ?app_assoc; cbn [app];
    try (apply (@solver_ops_stopped b);
         [assumption | assumption | prefix_by_rest]);
    try (rewrite <- concat_repeat_snoc, <- ?app_assoc; reflexivity)
  | intros ? ? ->; cbn [after];
    repeat (step Hw (@solver_ops));
    try silent_loop Hw (@solver_ops);
    repeat (step Hw (@solver_ops));
    cbn [returned];
    apply solver_ops_full ].

(** The calls on the solver in every run: those of a complete run, or a
    prefix of them when a PETSc call failed. *)
Lemma solver_ops_of_run {D} {ops : DoubleOps D} (w : @world D) (b : benchmark)
      gridType interpScheme Nt meshSize Lt g load myProperties :
  triple solver_ops w []
         (driver b gridType interpScheme Nt meshSize Lt g load myProperties)
         (solver_ops_post b (Z.to_nat (Nt - 1))).
Proof.
  pose proof (respects_any solver_ops w) as Hw.
  destruct b; cbn [driver].
  - unfold sealedColumn. solver_ops_driver Hw SealedColumn.
  - unfold terzaghi. solver_ops_driver Hw Terzaghi.
  - unfold mandel. solver_ops_driver Hw Mandel.
  - unfold convergence. solver_ops_driver Hw Convergence.
  - unfold stripfoot. solver_ops_driver Hw Stripfoot.
  - unfold terzaghiDouble. solver_ops_driver Hw TerzaghiDouble.
  - unfold stripfootDouble. solver_ops_driver Hw StripfootDouble.
  - unfold sealedDouble. solver_ops_driver Hw SealedDouble.
  - unfold storageDouble. solver_ops_driver Hw StorageDouble.
  - unfold leakingDouble. solver_ops_driver Hw LeakingDouble.
Qed.

Lemma not_in_ops (x : solver_op) (l : list solver_op) :
  forallb (fun y => negb (match x, y with
                          | LoadRHS, LoadRHS => true
                          | ZeroBuffers, ZeroBuffers => true
                          | _, _ => false
                          end)) l = true ->
  x = LoadRHS \/ x = ZeroBuffers -> ~ In x l.
Proof.
  intros Hall Hx Hin. rewrite forallb_forall in Hall.
  specialize (Hall x Hin). destruct Hx; subst x; discriminate.
Qed.

Lemma iteration_zeroed (b : benchmark) :
  zeroed_before_and_after (iteration_ops b).
Proof.
  unfold zeroed_before_and_after, iteration_ops.
  destruct (double_porosity b).
  - exists [TriangularSolve; Scatter; ScatterMacro],
      [ExtractField; ExtractField; ExtractField; ExtractField].
    split; [reflexivity|]. split; [simpl; auto|]. split; [simpl; auto|].
    split; [discriminate|]. split; [repeat constructor|].
    split; apply not_in_ops; auto.
  - exists [TriangularSolve; Scatter],
      [ExtractField; ExtractField; ExtractField].
    split; [reflexivity|]. split; [simpl; auto|]. split; [simpl; auto|].
    split; [discriminate|]. split; [repeat constructor|].
    split; apply not_in_ops; auto.
Qed.

(** C4.  In a run of any benchmark that returns 0, the calls on the
    solver are the factorization, the creation and a zeroing of the
    arrays, and then the rounds of the time loop; in every round
    [zeroPETScArrays] is called right before [setRHSValue], and again as
    the last call of the round, after the solve, the scatter and the
    reads of the field arrays. *)
Theorem C4_buffers_zeroed_around_each_solve :
  forall (D : Type) (ops : DoubleOps D) (w : @world D) (b : benchmark)
         (gridType interpScheme : string) (Nt meshSize : Z)
         (Lt g load : D) (myProperties : poroelasticProperties D),
    run_result w (driver b gridType interpScheme Nt meshSize Lt g load
                         myProperties) = 0 ->
    exists rounds : list (list solver_op),
      observe solver_ops
              (run_trace w (driver b gridType interpScheme Nt meshSize Lt g
                                   load myProperties))
      = [FactorizeOp; CreateArrays; ZeroBuffers] ++ concat rounds /\
      length rounds = Z.to_nat (Nt - 1) /\
      Forall zeroed_before_and_after rounds.
Proof.
  intros D ops w b gridType interpScheme Nt meshSize Lt g load myProperties
         Hok.
  exists (repeat (iteration_ops b) (Z.to_nat (Nt - 1))).
  destruct (triple_run (solver_ops_of_run w b gridType interpScheme Nt
                                          meshSize Lt g load myProperties))
    as (_ & Hfull).
  split; [exact (Hfull Hok)|]. split; [apply repeat_length|].
  apply Forall_forall. intros round Hin.
  apply repeat_spec in Hin. subst round. apply iteration_zeroed.
Qed.

Lemma C4_witness :
  run_result (model_world sample_file)
             (driver StripfootDouble "collocated" "CDS" 3 1 (inject_Z 1)
                     (inject_Z 0) (inject_Z (-10)) sample_properties) = 0 /\
  exists rounds : list (list solver_op),
    observe solver_ops
            (run_trace (model_world sample_file)
                       (driver StripfootDouble "collocated" "CDS" 3 1
                               (inject_Z 1) (inject_Z 0) (inject_Z (-10))
                               sample_properties))
    = [FactorizeOp; CreateArrays; ZeroBuffers] ++ concat rounds /\
    length rounds = Z.to_nat (3 - 1) /\
    Forall zeroed_before_and_after rounds.
Proof.
  split; [vm_compute; reflexivity|].
  apply (@C4_buffers_zeroed_around_each_solve QArith_base.Q _
           (model_world sample_file) StripfootDouble "collocated" "CDS" 3 1
           (inject_Z 1) (inject_Z 0) (inject_Z (-10)) sample_properties).
  vm_compute. reflexivity.
Defined.

(** ** C5: the boundary tables *)

(** Runs a driver through a view in which the time loop and the exports
    show nothing: what is viewed is fixed once the loop is entered. *)
Ltac fixed_after_setup Hw view fin :=
  cbv zeta;
  repeat (step Hw view);
  try (cbn [returned]; fin);
  apply triple_seq;
  lazymatch goal with
  | |- triple _ _ ?pre _ _ =>
      apply (triple_forLoop (fun _ _ s => s = pre))
  end;
  [ reflexivity
  | intros ? ? ? ? ->;
    repeat (step Hw view);
    cbn [after returned]; rewrite <- ?app_assoc; cbn [app];
    first [reflexivity | fin]
  | intros ? ? ->; cbn [after];
    repeat (step Hw view);
    try silent_loop Hw view;
    repeat (step Hw view);
    cbn [returned];
    fin ].

Ltac is_bc_code :=
  first [ exists Dirichlet; reflexivity
        | exists Neumann; reflexivity
        | exists StressOrFlow; reflexivity ].

Ltac tables_well_formed :=
  split; [intros []; eexists; reflexivity|];
  split; [reflexivity|];
  split; [repeat (constructor; [repeat (constructor; [is_bc_code|])|]);
          constructor |];
  reflexivity.

Ltac tables_driver Hw :=
  eexists; eexists; split;
  [ fixed_after_setup Hw (@tables_passed) ltac:(reflexivity)
  | tables_well_formed ].

(** What the two assemblers are given, in every run. *)
Lemma tables_of_run {D} {ops : DoubleOps D} (w : @world D) (b : benchmark)
      gridType interpScheme Nt meshSize Lt g load myProperties :
  exists (bcType : intTable) (bcValue : table D),
    triple tables_passed w []
           (driver b gridType interpScheme Nt meshSize Lt g load myProperties)
           (fun _ s => s = [(bcType, None); (bcType, Some bcValue)]) /\
    well_formed_tables (quantities b) (bcType, Some bcValue).
Proof.
  pose proof (respects_any tables_passed w) as Hw.
  destruct b; cbn [driver].
  - unfold sealedColumn. tables_driver Hw.
  - unfold terzaghi. tables_driver Hw.
  - unfold mandel. tables_driver Hw.
  - unfold convergence. tables_driver Hw.
  - unfold stripfoot. tables_driver Hw.
  - unfold terzaghiDouble. tables_driver Hw.
  - unfold stripfootDouble. tables_driver Hw.
  - unfold sealedDouble. tables_driver Hw.
  - unfold storageDouble. tables_driver Hw.
  - unfold leakingDouble. tables_driver Hw.
Qed.

(** C5.  In every run of every benchmark, the constructor of
    [coefficientsAssembly] is given a type table and the constructor of
    [independentTermsAssembly] the same type table with a value table.
    The type table has a row for each of the four sides (north, west,
    south, east, in this order of rows), every row has K entries (K = 3,
    or 4 for the double-porosity benchmarks), every entry is 1, 0 or -1,
    and the value table has the same shape. *)
Theorem C5_boundary_tables_well_formed :
  forall (D : Type) (ops : DoubleOps D) (w : @world D) (b : benchmark)
         (gridType interpScheme : string) (Nt meshSize : Z)
         (Lt g load : D) (myProperties : poroelasticProperties D),
  exists (bcType : intTable) (bcValue : table D),
    observe tables_passed
            (run_trace w (driver b gridType interpScheme Nt meshSize Lt g
                                 load myProperties))
    = [(bcType, None); (bcType, Some bcValue)] /\
    well_formed_tables (quantities b) (bcType, @None (table D)) /\
    well_formed_tables (quantities b) (bcType, Some bcValue).
Proof.
  intros D ops w b gridType interpScheme Nt meshSize Lt g load myProperties.
  destruct (tables_of_run w b gridType interpScheme Nt meshSize Lt g load
                          myProperties) as (bcType & bcValue & Hrun & Hwf).
  exists bcType, bcValue. split; [exact (triple_run Hrun)|].
  split; [|exact Hwf].
  destruct Hwf as (Hsides & Hshape & Hcodes & _).
  repeat split; assumption.
Qed.

(** ** C6: the time-step size *)

Ltac dt_fin :=
  split;
  [ repeat first [ assumption
                 | apply Forall_nil
                 | apply Forall_cons; [reflexivity|]
                 | apply Forall_app; split ]
  | rewrite ?length_app; simpl; lia ].

Ltac dt_driver Hw :=
  cbv zeta;
  apply triple_function;
  apply (triple_call Hw);
  let grid := fresh "grid" in
  let Hgrid := fresh "Hgrid" in
  intros grid Hgrid; cbn in Hgrid; cbv beta; norm_pre (@dt_used);
  rewrite !Hgrid;
  repeat (step Hw (@dt_used));
  try (cbn [returned]; dt_fin);
  apply triple_seq;
  lazymatch type of Hgrid with
  | _ = ?dt0 => apply (triple_forLoop (fun _ _ s => dt_post dt0 s))
  end;
  [ dt_fin
  | intros ? ? ? ? [? ?];
    repeat (step Hw (@dt_used));
    cbn [after returned]; rewrite <- ?app_assoc; cbn [app];
    dt_fin
  | intros ? ? [? ?]; cbn [after];
    repeat (step Hw (@dt_used));
    try silent_loop Hw (@dt_used);
    repeat (step Hw (@dt_used));
    cbn [returned];
    dt_fin ].

Lemma dt_of_run {D} {ops : DoubleOps D} (w : @world D)
      (Hw : respects dt_used mesh_builder_contract w) (b : benchmark)
      gridType interpScheme Nt meshSize Lt g load myProperties :
  triple dt_used w []
         (driver b gridType interpScheme Nt meshSize Lt g load myProperties)
         (fun _ s => dt_post (gridDesign_dt Nt Lt) s).
Proof.
  destruct b; cbn [driver].
  - unfold sealedColumn. dt_driver Hw.
  - unfold terzaghi. dt_driver Hw.
  - unfold mandel. dt_driver Hw.
  - unfold convergence. dt_driver Hw.
  - unfold stripfoot. dt_driver Hw.
  - unfold terzaghiDouble. dt_driver Hw.
  - unfold stripfootDouble. dt_driver Hw.
  - unfold sealedDouble. dt_driver Hw.
  - unfold storageDouble. dt_driver Hw.
  - unfold leakingDouble. dt_driver Hw.
Qed.

(** C6.  In a world whose mesh builder computes the time-step size as the
    spec says, a run of any benchmark with [Nt] time points and total
    time [Lt] takes [dt] from the grid and hands it unchanged to the
    assembly of the operator and to every assembly of the independent
    terms: each of these values is [Lt / (Nt - 1)].  (This holds for
    every [Nt], so for [Nt >= 2].) *)
Theorem C6_dt_is_Lt_over_Nt_minus_1 :
  forall (D : Type) (ops : DoubleOps D) (w : @world D) (b : benchmark)
         (gridType interpScheme : string) (Nt meshSize : Z)
         (Lt g load : D) (myProperties : poroelasticProperties D),
    respects dt_used mesh_builder_contract w ->
    Forall (eq (Lt / #(Nt - 1))%dbl)
           (observe dt_used
                    (run_trace w (driver b gridType interpScheme Nt meshSize
                                         Lt g load myProperties))) /\
    (2 <= length (observe dt_used
                          (run_trace w (driver b gridType interpScheme Nt
                                               meshSize Lt g load
                                               myProperties))))%nat.
Proof.
  intros D ops w b gridType interpScheme Nt meshSize Lt g load myProperties
         Hw.
  exact (triple_run (dt_of_run Hw b gridType interpScheme Nt meshSize Lt g
                               load myProperties)).
Qed.

Lemma model_world_mesh_builder (file : list QArith_base.Q) :
  respects dt_used mesh_builder_contract (model_world file).
Proof.
  intros X h c. destruct c; try exact I.
  destruct m. reflexivity.
Qed.

Lemma C6_witness :
  respects dt_used mesh_builder_contract (model_world sample_file) /\
  Forall (eq (inject_Z 1 / #(5 - 1))%dbl)
         (observe dt_used
                  (run_trace (model_world sample_file)
                             (driver Terzaghi "staggered" "NA" 5 1
                                     (inject_Z 1) (inject_Z 0)
                                     (inject_Z (-10)) sample_properties))) /\
  (2 <= length (observe dt_used
                        (run_trace (model_world sample_file)
                                   (driver Terzaghi "staggered" "NA" 5 1
                                           (inject_Z 1) (inject_Z 0)
                                           (inject_Z (-10))
                                           sample_properties))))%nat.
Proof.
  split; [apply model_world_mesh_builder|].
  apply (@C6_dt_is_Lt_over_Nt_minus_1 QArith_base.Q _
           (model_world sample_file) Terzaghi "staggered" "NA" 5 1
           (inject_Z 1) (inject_Z 0) (inject_Z (-10)) sample_properties).
  apply model_world_mesh_builder.
Defined.

(** [terzaghi] shows one call of the mesh builder, with its [Nt] and
    [Lt]. *)
Lemma terzaghi_main_step {D} {ops : DoubleOps D} (w : @world D) pre
      gridType interpScheme Nt meshSize Lt g sigmab myProperties :
  triple main_steps w pre
         (terzaghi gridType interpScheme Nt meshSize Lt g sigmab myProperties)
         (fun _ s => s = pre ++ [DriverCalled Nt Lt]).
Proof.
  pose proof (respects_any main_steps w) as Hw.
  unfold terzaghi.
  fixed_after_setup Hw (@main_steps) ltac:(reflexivity).
Qed.

Lemma main_round_snoc {D} {ops : DoubleOps D} (runs : list (Z * D)) Nt
      (totalTime : D) :
  (flat_map main_round runs ++ [RunInfo (totalTime / #(Nt - 1))%dbl])
  ++ [DriverCalled Nt totalTime]
  = flat_map main_round (runs ++ [(Nt, totalTime)]).
Proof.
  rewrite flat_map_app. cbn [flat_map main_round].
  now rewrite app_nil_r, <- app_assoc.
Qed.

(** [main] computes the same quotient: the [dt] it writes to the run
    information before each call of the driver is [Lt / (Nt - 1)] for the
    [Nt] and [Lt] it then passes. *)
Lemma main_dt_is_Lt_over_Nt_minus_1 {D} {ops : DoubleOps D} (w : @world D)
      myGridType myInterpScheme myMedium myProperties0 :
  exists runs : list (Z * D),
    observe main_steps
            (run_trace w (mainDimless myGridType myInterpScheme myMedium
                                      myProperties0))
    = flat_map (main_round (D:=D)) runs.
Proof.
  pose proof (respects_any main_steps w) as Hw.
  apply (triple_run
           (Post:=fun _ s => exists runs, s = flat_map (main_round (D:=D)) runs)).
  unfold mainDimless. cbv zeta. apply triple_function.
  apply (triple_call Hw). intros opened _. cbv beta. norm_pre (@main_steps).
  destruct opened; cbn [negb].
  2: { apply triple_exit. now exists []. }
  apply triple_seq, triple_ret. cbn [after].
  repeat (step Hw (@main_steps)).
  2: { now exists []. }
  apply triple_seq.
  apply (triple_forEach_inv
           (fun s => exists runs, s = flat_map (main_round (D:=D)) runs)).
  - now exists [].
  - intros a mid [runs ->].
    step Hw (@main_steps).
    apply triple_callee.
    eapply triple_conseq; [apply terzaghi_main_step|].
    intros r s ->. cbv beta.
    step Hw (@main_steps); cbn [after returned];
      eexists; apply main_round_snoc.
  - intros mid Hmid. cbn [after].
    repeat (step Hw (@main_steps)); cbn [returned]; exact Hmid.
Qed.

(** ** C7: the triangular solve needs a factorization *)

Section SolverContract.
Context {D LU : Type}.
Variable lu : table D -> option LU.
Variable backsolve : LU -> list D -> list D.
Variable scatter : solver_field -> list D -> table D -> table D.

(** Only a successful factorization leaves the state [Unfactored]. *)
Lemma stays_unfactored (s : SolverSpec.solver D LU)
      (c : SolverSpec.any_call) :
  SolverSpec.phase s = SolverSpec.Unfactored ->
  ~ SolverSpec.factorizes lu s c ->
  SolverSpec.phase (SolverSpec.after_call lu backsolve scatter s c)
  = SolverSpec.Unfactored.
Proof.
  intros Hs Hc. destruct c as [X m].
  destruct m; simpl in *; auto.
  - unfold SolverSpec.factorize in *. rewrite Hs in *.
    destruct (lu (SolverSpec.operator s)); simpl in *; [tauto | exact Hs].
  - unfold SolverSpec.triangular_solve. now rewrite Hs.
Qed.

Lemma unfactored_after_calls (calls : list SolverSpec.any_call) :
  forall s : SolverSpec.solver D LU,
    SolverSpec.phase s = SolverSpec.Unfactored ->
    SolverSpec.never_factorized lu backsolve scatter s calls ->
    SolverSpec.phase (SolverSpec.after_calls lu backsolve scatter s calls)
    = SolverSpec.Unfactored.
Proof.
  induction calls as [| c calls IH]; intros s Hs Hnever; simpl in *.
  - exact Hs.
  - destruct Hnever as [Hc Hrest].
    apply IH; [now apply stays_unfactored | exact Hrest].
Qed.

(** With a factorization, the solve goes through. *)
Lemma solve_when_factored (s : SolverSpec.solver D LU) (f : LU) :
  SolverSpec.phase s = SolverSpec.Unfactored ->
  lu (SolverSpec.operator s) = Some f ->
  let s1 :=
    snd (SolverSpec.step
           lu backsolve scatter s
           linearSystemSolver.coefficientsMatrixLUFactorization) in
  fst (SolverSpec.step lu backsolve scatter s1
                       linearSystemSolver.solveLinearSystem) = 0 /\
  SolverSpec.solutionBuffer
    (snd (SolverSpec.step lu backsolve scatter s1
                          linearSystemSolver.solveLinearSystem))
  = backsolve f (SolverSpec.rhsBuffer s).
Proof.
  intros Hs Hf. simpl. unfold SolverSpec.factorize. rewrite Hs, Hf. simpl.
  split; reflexivity.
Qed.
End SolverContract.

(** C7.  From a solver that is [Unfactored] (as the constructor leaves
    it), after any calls of its methods none of which is a successful
    [coefficientsMatrixLUFactorization], [solveLinearSystem] gives back
    the state-contract error, which is not 0, and leaves the solver as it
    was: no solution is written, no field array changes. *)
Theorem C7_solve_without_factorization_fails :
  forall (D LU : Type) (lu : table D -> option LU)
         (backsolve : LU -> list D -> list D)
         (scatter : solver_field -> list D -> table D -> table D)
         (s0 : SolverSpec.solver D LU) (calls : list SolverSpec.any_call),
    SolverSpec.phase s0 = SolverSpec.Unfactored ->
    SolverSpec.never_factorized lu backsolve scatter s0 calls ->
    SolverSpec.step lu backsolve scatter
                    (SolverSpec.after_calls lu backsolve scatter s0 calls)
                    linearSystemSolver.solveLinearSystem
    = (SolverSpec.state_contract_error,
       SolverSpec.after_calls lu backsolve scatter s0 calls) /\
    SolverSpec.state_contract_error <> 0.
Proof.
  intros D LU lu backsolve scatter s0 calls Hs0 Hnever.
  split; [| discriminate].
  pose proof (@unfactored_after_calls _ _ lu backsolve scatter calls s0
                                       Hs0 Hnever) as Hs.
  simpl. unfold SolverSpec.triangular_solve. now rewrite Hs.
Qed.

Lemma C7_witness :
  SolverSpec.step (fun _ => Some tt) (fun _ rhs => rhs) (fun _ _ f => f)
                  (SolverSpec.after_calls
                     (fun _ => Some tt) (fun _ rhs => rhs) (fun _ _ f => f)
                     SolverSpec.empty calls_without_factorization)
                  linearSystemSolver.solveLinearSystem
  = (SolverSpec.state_contract_error,
     SolverSpec.after_calls
       (fun _ => Some tt) (fun _ rhs => rhs) (fun _ _ f => f)
       SolverSpec.empty calls_without_factorization) /\
  SolverSpec.state_contract_error <> 0.
Proof.
  apply (@C7_solve_without_factorization_fails QArith_base.Q unit
           (fun _ => Some tt) (fun _ rhs => rhs) (fun _ _ f => f)
           SolverSpec.empty calls_without_factorization).
  - reflexivity.
  - simpl. tauto.
Defined.

(** ** C8: no validation of the properties *)

Lemma triple_stable {D Sym R} (view : event D -> list Sym) (w : @world D)
      (Good : list Sym -> Prop) pre (p : Prog D R) Post :
  extension_closed Good -> stable Good Post -> Good pre ->
  triple view w pre p Post.
Proof.
  intros Hclosed Hstable Hpre.
  eapply triple_conseq; [apply (triple_extends (respects_any view w))|].
  intros r s [rest ->]. apply Hstable. now apply Hclosed.
Qed.

Lemma stable_after {D Sym A B} (view : event D -> list Sym) (w : @world D)
      (Good : list Sym -> Prop) (f : A -> Prog D (outcome B)) Post :
  extension_closed Good -> stable Good Post ->
  stable Good (after view w f Post).
Proof.
  intros Hclosed Hstable [a | e] s HG; simpl.
  - now apply triple_stable with (Good := Good).
  - now apply Hstable.
Qed.

Lemma starts_with_closed {Sym} (start : list Sym) :
  extension_closed (fun s => exists rest, s = start ++ rest).
Proof.
  intros s rest [r0 ->]. exists (r0 ++ rest). now rewrite app_assoc.
Qed.

(** [terzaghi] creates the grid and assembles the operator with the
    properties it is given, in every world. *)
Lemma terzaghi_startup {D} {ops : DoubleOps D} (w : @world D) pre
      gridType interpScheme Nt meshSize Lt g sigmab myProperties :
  triple startup_view w pre
         (terzaghi gridType interpScheme Nt meshSize Lt g sigmab myProperties)
         (fun _ s =>
            exists rest,
              s = (pre ++ [GridCreated;
                           OperatorAssembled (shearModulus myProperties)
                                             (permeability myProperties)
                                             (fluidViscosity myProperties)])
                  ++ rest).
Proof.
  pose proof (respects_any startup_view w) as Hw.
  unfold terzaghi. cbv zeta.
  do 7 (step Hw (@startup_view)).
  eapply triple_conseq; [apply (triple_extends Hw)|].
  intros r s [rest ->]. exists rest. now rewrite <- !app_assoc.
Qed.

(** C8, as the code has it.  [main] checks nothing about the nine numbers
    it reads: whatever they are (zero or negative included), once the
    properties file has opened and [PetscInitialize] has returned 0, the
    grid is created and the operator is assembled with the shear modulus
    (first number), the permeability (seventh) and the fluid viscosity
    (eighth) as read.  Only a file that does not open and a failing
    [PetscInitialize] stop the program before. *)
Theorem C8_properties_are_not_validated :
  forall (D : Type) (ops : DoubleOps D) (w : @world D)
         (myGridType myInterpScheme myMedium : string)
         (myProperties0 : poroelasticProperties D),
    startup_outcome
      (observe startup_view
               (run_trace w (mainDimless myGridType myInterpScheme myMedium
                                         myProperties0))).
Proof.
  intros D ops w myGridType myInterpScheme myMedium myProperties0.
  pose proof (respects_any startup_view w) as Hw.
  apply (triple_run (Post:=fun _ s => startup_outcome s)).
  unfold mainDimless. cbv zeta.
  apply triple_function.
  apply (triple_call Hw). intros opened _. cbv beta. norm_pre (@startup_view).
  destruct opened; cbn [negb].
  2: { apply triple_exit. now left. }
  apply triple_seq, triple_ret. cbn [after].
  repeat (step Hw (@startup_view)).
  2: { right; left. do 10 eexists. split; [eassumption | reflexivity]. }
  unfold timestepSize_mainDimless. cbn [forEach].
  apply triple_seq. apply triple_seq.
  step Hw (@startup_view).
  apply triple_callee.
  eapply triple_conseq; [apply terzaghi_startup|].
  intros r s Hs. cbn [shearModulus permeability fluidViscosity] in Hs.
  lazymatch type of Hs with
  | exists rest, s = ?start ++ rest =>
      apply triple_stable
        with (Good := fun s0 => exists rest, s0 = start ++ rest);
      [apply starts_with_closed | | exact Hs]
  end.
  repeat (apply stable_after; [apply starts_with_closed|]).
  intros o s' [rest ->]. right; right.
  subst. rewrite <- app_assoc. cbn [app].
  do 9 eexists. exists rest. reflexivity.
Qed.

(** C8 as the spec states it fails: with a properties file whose
    permeability is -1/100, [main] creates the grid, assembles the
    operator with this negative permeability, and returns 0. *)
Lemma C8_counterexample :
  Qlt (nth 6 negative_permeability_file (inject_Z 0)) (inject_Z 0) /\
  run_result (model_world negative_permeability_file)
             (mainDimless "staggered" "NA" "sample" sample_properties) = 0 /\
  existsb is_grid_created
          (observe startup_view
                   (run_trace (model_world negative_permeability_file)
                              (mainDimless "staggered" "NA" "sample"
                                           sample_properties))) = true /\
  existsb assembled_with_negative_permeability
          (observe startup_view
                   (run_trace (model_world negative_permeability_file)
                              (mainDimless "staggered" "NA" "sample"
                                           sample_properties))) = true.
Proof.
  split; [reflexivity|].
  split; [vm_compute; reflexivity|].
  split; vm_compute; reflexivity.
Qed.

(** ** C9: the leak term and the cross-storage coefficient *)

Ltac leak_fin :=
  idtac;
  lazymatch goal with
  | |- leak_word _ _ [ParametersRead ?p; LeakTermComputed _ ?l;
                      ParametersRead ?q; DoubleOperatorAssembled _ _] =>
      exists p, l, [q]; reflexivity
  | |- leak_word _ _ [ParametersRead ?p; LeakTermComputed _ ?l;
                      DoubleOperatorAssembled _ _] =>
      exists p, l, []; reflexivity
  end.

Lemma leak_of_run {D} {ops : DoubleOps D} (w : @world D) (b : benchmark)
      gridType interpScheme Nt meshSize Lt g load myProperties :
  double_porosity b = true ->
  triple leak_view w []
         (driver b gridType interpScheme Nt meshSize Lt g load myProperties)
         (fun _ s => leak_word b myProperties s).
Proof.
  pose proof (respects_any leak_view w) as Hw.
  destruct b; try discriminate; intros _; cbn [driver].
  - unfold terzaghiDouble. fixed_after_setup Hw (@leak_view) leak_fin.
  - unfold stripfootDouble. fixed_after_setup Hw (@leak_view) leak_fin.
  - unfold sealedDouble. fixed_after_setup Hw (@leak_view) leak_fin.
  - unfold storageDouble. fixed_after_setup Hw (@leak_view) leak_fin.
  - unfold leakingDouble. fixed_after_setup Hw (@leak_view) leak_fin.
Qed.

(** C9.  In every run of a double-porosity benchmark, the parameters are
    read from [myProblem], [computeLeakTerm] is called with argument 0 in
    [storageDouble] and 11 in the four others, and
    [assemblyDoublePorosityMatrix] is given the leak term so computed and,
    as [S12], the value read from [myProblem]; only [leakingDouble] gives
    instead [-psiPore*alpha*psiFrac*alpha/(2*G+lambda)]. *)
Theorem C9_leak_term_and_S12_by_variant :
  forall (D : Type) (ops : DoubleOps D) (w : @world D) (b : benchmark)
         (gridType interpScheme : string) (Nt meshSize : Z)
         (Lt g load : D) (myProperties : poroelasticProperties D),
    double_porosity b = true ->
    exists (p : problemDoubleParameters.public D) (leak : D)
           (later : list (problemDoubleParameters.public D)),
      observe leak_view
              (run_trace w (driver b gridType interpScheme Nt meshSize Lt g
                                   load myProperties))
      = [ParametersRead p; LeakTermComputed (leak_argument b) leak]
        ++ map ParametersRead later
        ++ [DoubleOperatorAssembled (S12_assembled b myProperties p) leak] /\
      (leak_argument b = if benchmark_eqb b StorageDouble then 0 else 11) /\
      (S12_assembled b myProperties p
       = if benchmark_eqb b LeakingDouble
         then (- problemDoubleParameters.psiPore p
               * problemDoubleParameters.alpha p
               * problemDoubleParameters.psiFrac p
               * problemDoubleParameters.alpha p
               / (#2 * shearModulus myProperties
                  + (bulkModulus myProperties
                     - #2 * shearModulus myProperties / #3)))%dbl
         else problemDoubleParameters.S12 p).
Proof.
  intros D ops w b gridType interpScheme Nt meshSize Lt g load myProperties
         Hdouble.
  destruct (triple_run (leak_of_run w b gridType interpScheme Nt meshSize Lt
                                    g load myProperties Hdouble))
    as (p & leak & later & Hword).
  exists p, leak, later. split; [exact Hword|].
  destruct b; try discriminate; split; reflexivity.
Qed.

Lemma C9_witness :
  double_porosity LeakingDouble = true /\
  exists (p : problemDoubleParameters.public QArith_base.Q)
         (leak : QArith_base.Q)
         (later : list (problemDoubleParameters.public QArith_base.Q)),
    observe leak_view
            (run_trace (model_world sample_file)
                       (driver LeakingDouble "staggered" "NA" 3 1
                               (inject_Z 1) (inject_Z 0) (inject_Z (-10))
                               sample_properties))
    = [ParametersRead p; LeakTermComputed (leak_argument LeakingDouble) leak]
      ++ map ParametersRead later
      ++ [DoubleOperatorAssembled
            (S12_assembled LeakingDouble sample_properties p) leak] /\
    (leak_argument LeakingDouble
     = if benchmark_eqb LeakingDouble StorageDouble then 0 else 11) /\
    (S12_assembled LeakingDouble sample_properties p
     = if benchmark_eqb LeakingDouble LeakingDouble
       then (- problemDoubleParameters.psiPore p
             * problemDoubleParameters.alpha p
             * problemDoubleParameters.psiFrac p
             * problemDoubleParameters.alpha p
             / (#2 * shearModulus sample_properties
                + (bulkModulus sample_properties
                   - #2 * shearModulus sample_properties / #3)))%dbl
       else problemDoubleParameters.S12 p).
Proof.
  split; [reflexivity|].
  apply (@C9_leak_term_and_S12_by_variant QArith_base.Q _
           (model_world sample_file) LeakingDouble "staggered" "NA" 3 1
           (inject_Z 1) (inject_Z 0) (inject_Z (-10)) sample_properties).
  reflexivity.
Defined.

(** ** C10: the exported time steps *)

Lemma exports_none b Nt e : e <> 0 -> exports_post b Nt e [].
Proof. intros He. split; [now left | intros; contradiction]. Qed.

Lemma exports_all b Nt r : exports_post b Nt r (exported_steps b Nt).
Proof. split; [now right | reflexivity]. Qed.

Ltac export_loop Hw k :=
  apply triple_seq;
  eapply triple_conseq;
  [ apply (triple_forEach (fun timeStep : Z => repeat timeStep k));
    intros ? ?; repeat (step Hw (@exported_step)); cbn [goes_on];
    rewrite <- ?app_assoc; reflexivity
  | let o := fresh "o" in
    intros [o | o] ?; cbn [goes_on after]; [intros -> | tauto] ].

Ltac exports_driver Hw b k :=
  cbv zeta;
  repeat (step Hw (@exported_step));
  try (cbn [returned]; now apply exports_none);
  apply triple_seq;
  apply (triple_forLoop (fun _ _ s => s = @nil Z));
  [ reflexivity
  | intros ? ? ? ? ->;
    repeat (step Hw (@exported_step));
    cbn [after returned]; rewrite <- ?app_assoc; cbn [app];
    first [reflexivity | now apply exports_none]
  | intros ? ? ->; cbn [after];
    repeat (step Hw (@exported_step));
    try export_loop Hw k;
    repeat (step Hw (@exported_step));
    cbn [returned];
    exact (@exports_all b _ _) ].

(** The time steps of the export calls of a run: those of the driver's
    list, each as often as the loop exports it, or none when a PETSc call
    stopped the run before. *)
Lemma exports_of_run {D} {ops : DoubleOps D} (w : @world D) (b : benchmark)
      gridType interpScheme Nt meshSize Lt g load myProperties :
  triple exported_step w []
         (driver b gridType interpScheme Nt meshSize Lt g load myProperties)
         (exports_post b Nt).
Proof.
  pose proof (respects_any exported_step w) as Hw.
  destruct b; cbn [driver].
  - unfold sealedColumn. exports_driver Hw SealedColumn 2%nat.
  - unfold terzaghi. exports_driver Hw Terzaghi 2%nat.
  - unfold mandel. exports_driver Hw Mandel 2%nat.
  - unfold convergence. exports_driver Hw Convergence 0%nat.
  - unfold stripfoot. exports_driver Hw Stripfoot 2%nat.
  - unfold terzaghiDouble. exports_driver Hw TerzaghiDouble 3%nat.
  - unfold stripfootDouble. exports_driver Hw StripfootDouble 2%nat.
  - unfold sealedDouble. exports_driver Hw SealedDouble 2%nat.
  - unfold storageDouble. exports_driver Hw StorageDouble 2%nat.
  - unfold leakingDouble. exports_driver Hw LeakingDouble 2%nat.
Qed.

(** C10.  With [Nt = 2] the export list is the single step 1 in
    [terzaghi], [mandel], [stripfoot] and the five double-porosity
    drivers ([convergence] has no export list).  [sealedColumn] has no
    [if(Nt==2)]: its list is [1; (Nt-1)/8; (Nt-1)/2; Nt-1] for every
    [Nt], which for [Nt = 2] is [1; 0; 0; 1], with the step 0 twice.  The
    export calls of a run with [Nt = 2] carry the steps of that list (or
    there is none, when the run stopped before). *)
Theorem C10_export_list_at_Nt_2 :
  forall (D : Type) (ops : DoubleOps D) (w : @world D)
         (gridType interpScheme : string) (meshSize : Z)
         (Lt g load : D) (myProperties : poroelasticProperties D),
    (forall b : benchmark,
       exportedTimeSteps b 2
       = match b with
         | SealedColumn => Some [1; 0; 0; 1]
         | Convergence => None
         | _ => Some [1]
         end) /\
    (forall Nt : Z,
       exportedTimeSteps SealedColumn Nt
       = Some [1; (Nt - 1) ÷ 8; (Nt - 1) ÷ 2; Nt - 1]) /\
    count_occ Z.eq_dec [1; 0; 0; 1] 0 = 2%nat /\
    (forall b : benchmark,
       observe exported_step
               (run_trace w (driver b gridType interpScheme 2 meshSize Lt g
                                    load myProperties)) = [] \/
       observe exported_step
               (run_trace w (driver b gridType interpScheme 2 meshSize Lt g
                                    load myProperties))
       = exported_steps b 2).
Proof.
  intros D ops w gridType interpScheme meshSize Lt g load myProperties.
  split; [intros []; reflexivity|].
  split; [intros Nt; reflexivity|].
  split; [reflexivity|].
  intros b.
  exact (proj1 (triple_run (exports_of_run w b gridType interpScheme 2
                                           meshSize Lt g load myProperties))).
Qed.

(** * More of the drivers and of [main] *)

(** ** A program started after a history *)

Lemma exec_after {D R} (w : @world D) (p : Prog D R) :
  forall h0 h,
    exec w p (h0 ++ h)
    = (fst (exec (world_after w h0) p h),
       h0 ++ snd (exec (world_after w h0) p h)).
Proof.
  induction p as [r | X c k IH]; intros h0 h; simpl.
  - reflexivity.
  - rewrite <- app_assoc. apply IH.
Qed.

(** What holds of a program in every world from an empty view holds of
    it after any view, for what it adds. *)
Lemma triple_frame {D Sym R} (view : event D -> list Sym) (p : Prog D R)
      (Post : R -> list Sym -> Prop) :
  (forall w, triple view w [] p Post) ->
  forall w pre,
    triple view w pre p
           (fun r s => exists added, s = pre ++ added /\ Post r added).
Proof.
  intros Hp w pre h Hh.
  pose proof (exec_after w p h []) as E. rewrite app_nil_r in E.
  rewrite E. cbn [fst snd].
  exists (observe view (snd (exec (world_after w h) p []))). split.
  - unfold observe. rewrite flat_map_app. fold (observe view h).
    now rewrite Hh.
  - apply (Hp (world_after w h) []). reflexivity.
Qed.

(** ** A failed PETSc call ends the run *)

Lemma quiet_passed (s : list call_kind) :
  forallb quiet s = true -> forallb passed s = true.
Proof.
  induction s as [| k s IH]; simpl; auto.
  intros H. apply andb_true_iff in H as [Hk Hs].
  rewrite (IH Hs), andb_true_r. destruct k; auto; discriminate.
Qed.

Lemma outcome_ok (s : list call_kind) :
  forallb passed s = true -> run_outcome 0 s.
Proof. intros H. left. now split. Qed.

Lemma outcome_stopped (mid before : list call_kind) (e : PetscErrorCode) :
  forallb quiet mid = true -> forallb quiet before = true -> e <> 0 ->
  run_outcome e (mid ++ before ++ [Checked e]).
Proof.
  intros Hmid Hbefore He. right. split; [exact He|].
  exists (mid ++ before). split; [now rewrite app_assoc|].
  now rewrite forallb_app, Hmid, Hbefore.
Qed.

(** All but the last element of a list of calls that is written out. *)
Ltac but_last l :=
  lazymatch l with
  | [_] => constr:(@nil call_kind)
  | ?k :: ?rest => let r := but_last rest in constr:(k :: r)
  end.

Ltac outcome_failed Hmid :=
  lazymatch goal with
  | |- run_outcome ?e (?mid ++ ?l) =>
      let before := but_last l in
      apply (@outcome_stopped mid before e);
      [ exact Hmid | subst; reflexivity | assumption ]
  | |- run_outcome ?e ?l =>
      let before := but_last l in
      apply (@outcome_stopped [] before e);
      [ reflexivity | subst; reflexivity | assumption ]
  end.

Ltac outcome_driver Hw :=
  cbv zeta;
  repeat (step Hw (@call_kinds));
  try (cbn [returned]; outcome_failed I);
  apply triple_seq;
  apply (triple_forLoop
           (fun (_ : nat) st s => forallb quiet s = true /\ fst st = 0));
  [ split; [subst; reflexivity | assumption]
  | let Hq := fresh "Hq" in
    intros ? ? ? ? [Hq _];
    repeat (step Hw (@call_kinds));
    cbn [after returned]; rewrite <- ?app_assoc; cbn [app];
    first [ outcome_failed Hq
          | split; [rewrite forallb_app, Hq; subst; reflexivity
                   | assumption] ]
  | let Hq := fresh "Hq" in
    let Hst := fresh "Hst" in
    intros ? ? [Hq Hst]; cbn [after];
    apply quiet_passed in Hq;
    repeat (step Hw (@call_kinds));
    try (apply triple_seq;
         apply (triple_forEach_inv (fun s => forallb passed s = true));
         [ rewrite ?forallb_app, Hq; reflexivity
         | let Hm := fresh "Hm" in
           intros ? ? Hm; repeat (step Hw (@call_kinds));
           rewrite ?forallb_app, Hm; reflexivity
         | let Hm := fresh "Hm" in
           intros ? Hm; cbn [after]; clear Hq; rename Hm into Hq ]);
    repeat (step Hw (@call_kinds));
    cbn [returned fst] in *; subst;
    apply outcome_ok; rewrite ?forallb_app, Hq; reflexivity ].

(** How the run of a driver goes, in every world. *)
Lemma outcome_of_run {D} {ops : DoubleOps D} (w : @world D) (b : benchmark)
      gridType interpScheme Nt meshSize Lt g load myProperties :
  triple call_kinds w []
         (driver b gridType interpScheme Nt meshSize Lt g load myProperties)
         run_outcome.
Proof.
  pose proof (respects_any call_kinds w) as Hw.
  destruct b; cbn [driver].
  - unfold sealedColumn. outcome_driver Hw.
  - unfold terzaghi. outcome_driver Hw.
  - unfold mandel. outcome_driver Hw.
  - unfold convergence. outcome_driver Hw.
  - unfold stripfoot. outcome_driver Hw.
  - unfold terzaghiDouble. outcome_driver Hw.
  - unfold stripfootDouble. outcome_driver Hw.
  - unfold sealedDouble. outcome_driver Hw.
  - unfold storageDouble. outcome_driver Hw.
  - unfold leakingDouble. outcome_driver Hw.
Qed.

(** X1.  In every run of every driver: either all the PETSc calls the
    driver checks returned 0, and the driver returns 0; or the driver
    returns a code that is not 0, this is the code of the last call it
    made, all checked calls before returned 0, and no export call was
    made.  So a driver stops at the first failing PETSc call, hands its
    code up, and writes no output after a failure. *)
Theorem X1_failed_call_ends_run :
  forall (D : Type) (ops : DoubleOps D) (w : @world D) (b : benchmark)
         (gridType interpScheme : string) (Nt meshSize : Z)
         (Lt g load : D) (myProperties : poroelasticProperties D),
    run_outcome
      (run_result w (driver b gridType interpScheme Nt meshSize Lt g load
                            myProperties))
      (observe call_kinds
               (run_trace w (driver b gridType interpScheme Nt meshSize Lt g
                                    load myProperties))).
Proof.
  intros. apply triple_run, outcome_of_run.
Qed.

(** ** The course of [main] *)

Section MoreRules.
Context {D Sym : Type}.
Variable view : event D -> list Sym.
Variable w : @world D.

(** A loop over a list, with an invariant on the number of rounds
    done. *)
Lemma triple_forEach_count {A} (Inv : nat -> list Sym -> Prop) (v : list A)
      (body : A -> Prog D (outcome unit)) pre
      (Post : outcome unit -> list Sym -> Prop) :
  Inv O pre ->
  (forall i a mid, nth_error v i = Some a -> Inv i mid ->
     triple view w mid (body a)
            (fun o s => match o with
                        | Normal _ => Inv (S i) s
                        | Return e => Post (Return e) s
                        end)) ->
  (forall mid, Inv (length v) mid -> Post (Normal tt) mid) ->
  triple view w pre (forEach v body) Post.
Proof.
  revert Inv pre.
  induction v as [| a v IH]; intros Inv pre H0 Hbody Hend; simpl.
  - apply triple_ret. now apply Hend.
  - apply triple_seq.
    eapply triple_conseq; [apply (Hbody O a pre eq_refl H0)|].
    intros [u | e] s; simpl; intros H; [| exact H].
    apply (IH (fun i => Inv (S i))); [exact H | | exact Hend].
    intros i a' mid Hi HI. now apply (Hbody (S i)).
Qed.
End MoreRules.

Lemma nth_error_bound {A} (v : list A) i a :
  nth_error v i = Some a -> (i < length v)%nat.
Proof. intros H. apply nth_error_Some. congruence. Qed.

(** Entered, a driver creates its grid; nothing else of it shows. *)
Lemma driver_entered {D} {ops : DoubleOps D} (w : @world D) pre
      (double : bool) gridType interpScheme Nt meshSize Lt g sigmab
      myProperties :
  triple main_events w pre
         ((if double then terzaghiDouble else terzaghi)
            gridType interpScheme Nt meshSize Lt g sigmab myProperties)
         (fun _ s => s = pre ++ [DriverEntered meshSize (6 * meshSize) Nt Lt]).
Proof.
  pose proof (respects_any main_events w) as Hw.
  destruct double.
  - unfold terzaghiDouble.
    fixed_after_setup Hw (@main_events) ltac:(reflexivity).
  - unfold terzaghi.
    fixed_after_setup Hw (@main_events) ltac:(reflexivity).
Qed.

Lemma main_pass_snoc {D} {ops : DoubleOps D} (times : list D) (Lt : D)
      (start : list (main_event D)) :
  ((start ++ flat_map main_pass times) ++ [InfoWritten (Lt / #(2 - 1))%dbl])
  ++ [DriverEntered 3 (6 * 3) 2 Lt]
  = start ++ flat_map main_pass (times ++ [Lt]).
Proof.
  rewrite flat_map_app. cbn [flat_map main_pass].
  now rewrite app_nil_r, <- !app_assoc.
Qed.

Ltac main_course Hw p dbl :=
  cbv zeta; apply triple_function;
  apply (triple_call Hw); intros [|] _; cbv beta; norm_pre (@main_events);
  cbn [negb];
  [| apply triple_exit; left; split; reflexivity ];
  apply triple_seq, triple_ret; cbn [after];
  repeat (step Hw (@main_events));
  [| cbn [returned]; right; left; split; [assumption | reflexivity] ];
  subst;
  apply triple_seq;
  remember [@Opened _ true; Initialized 0] as start eqn:Hstart;
  apply (triple_forEach_count
           (fun i s => exists times,
                length times = i /\ s = start ++ flat_map main_pass times));
  [ exists []; split; [reflexivity | now rewrite app_nil_r]
  | let Hi := fresh "Hi" in
    intros ? ? ? Hi [times [Hlen ->]];
    apply nth_error_bound in Hi;
    step Hw (@main_events);
    apply triple_callee;
    eapply triple_conseq;
    [eapply @driver_entered with (double := dbl)|];
    intros ? ? ->; cbv beta; rewrite main_pass_snoc;
    step Hw (@main_events);
    [ cbn [after];
      eexists; split; [| reflexivity];
      rewrite length_app, Hlen; simpl; lia
    | cbn [after returned]; right; right; left;
      split; [assumption|];
      eexists; split; [| subst start; reflexivity];
      rewrite length_app, Hlen; simpl in *; lia ]
  | intros ? [times [Hlen ->]]; cbn [after];
    repeat (step Hw (@main_events));
    cbn [returned]; subst; rewrite <- ?app_assoc;
    [ right; right; right; exists times;
      split; [exact Hlen | reflexivity]
    | right; right; right; exists times;
      split; [exact Hlen | reflexivity] ] ].

(** How a run of [main] goes, in every world. *)
Lemma main_course_of_run {D} {ops : DoubleOps D} (w : @world D) (p : program)
      myGridType myInterpScheme myMedium myProperties0 :
  triple main_events w []
         (main p myGridType myInterpScheme myMedium myProperties0)
         (main_outcome p).
Proof.
  pose proof (respects_any main_events w) as Hw.
  destruct p; cbn [main].
  - unfold mainDimless. main_course Hw MainDimless false.
  - unfold mainDouble. main_course Hw MainDouble true.
Qed.

(** X2.  Every run of [mainDimless] and of [mainDouble] goes one of four
    ways.  The properties file does not open: the program ends with
    status 1 and calls nothing else.  [PetscInitialize] fails: its code
    is returned and no driver is entered.  A driver returns a code that
    is not 0: the code is returned at once, after at most 4 (2 in
    [mainDouble]) passes, and [PetscFinalize] is not called.  Otherwise
    all 4 (2) passes are made, [PetscFinalize] is called and its code is
    returned.  In each pass the [dt] written to the run information is
    the [Lt] handed to the driver divided by [Nt - 1], with [Nt = 2] on
    a grid of 3 by 18 cells. *)
Theorem X2_course_of_main :
  forall (D : Type) (ops : DoubleOps D) (w : @world D) (p : program)
         (myGridType myInterpScheme myMedium : string)
         (myProperties0 : poroelasticProperties D),
    main_outcome p
      (run_result w (main p myGridType myInterpScheme myMedium
                          myProperties0))
      (observe main_events
               (run_trace w (main p myGridType myInterpScheme myMedium
                                  myProperties0))).
Proof.
  intros. apply triple_run, main_course_of_run.
Qed.

(** ** The passes of [main], through a view of the drivers *)

(** A view that shows nothing of [main]'s own calls shows, of a complete
    run of [main], what it shows of a complete run of the driver with
    [Nt = 2] and [mesh = 3], once for each pass. *)
Lemma main_repeats_driver {D} {ops : DoubleOps D} {Sym}
      (view : event D -> list Sym) (pass : list Sym) (p : program)
      (Hsys : forall X (m : runtime.method D X) (x : X),
          view (Ev (sys m) x) = [])
      (Hdriver : forall (w : @world D) gridType interpScheme Lt g load
                        myProperties,
          triple view w []
                 (driver (benchmark_of p) gridType interpScheme 2 3 Lt g load
                         myProperties)
                 (fun r s => r = 0 -> s = pass))
      (w : @world D) myGridType myInterpScheme myMedium myProperties0 :
  triple view w []
         (main p myGridType myInterpScheme myMedium myProperties0)
         (when_complete p pass).
Proof.
  pose proof (respects_any view w) as Hw.
  assert (Hcall : forall A X (m : runtime.method D X)
                         (f : X -> Prog D (outcome A)) pre Post,
             (forall x, triple view w pre (f x) Post) ->
             triple view w pre (seq (call (sys m)) f) Post).
  { intros A X m f pre Post H. apply (triple_call Hw). intros x _.
    rewrite Hsys, app_nil_r. apply H. }
  assert (Hstopped : forall e s, e <> 0 -> when_complete p pass e s).
  { intros e s He H0. contradiction. }
  assert (Hloop : forall (v : list D) body Post,
             length v = planned_runs p ->
             (forall a mid,
                 triple view w mid (body a)
                        (fun o s => match o with
                                    | Normal _ => s = mid ++ pass
                                    | Return e => Post (Return e) s
                                    end)) ->
             (Post (Normal tt) (concat (repeat pass (planned_runs p)))) ->
             triple view w [] (forEach v body) Post).
  { intros v body Post Hv Hbody Hend.
    apply (triple_forEach_count
             (fun i s => s = concat (repeat pass i))).
    - reflexivity.
    - intros i a mid _ ->. eapply triple_conseq; [apply Hbody|].
      intros [u | e] s; [| auto]. intros ->. apply concat_repeat_snoc.
    - intros mid ->. now rewrite Hv. }
  assert (Hpass : forall Lt g load props mid
                         (Post : outcome unit -> list Sym -> Prop),
             Post (Normal tt) (mid ++ pass) ->
             (forall r s, r <> 0 -> Post (Return r) s) ->
             triple view w mid
                    (seq (callee (driver (benchmark_of p) myGridType
                                         myInterpScheme 2 3 Lt g load props))
                         (fun ierr => CHKERRQ ierr))
                    Post).
  { intros Lt g load props mid Post Hok Hfail.
    apply triple_callee.
    eapply triple_conseq;
      [apply (triple_frame (fun w' => Hdriver w' _ _ _ _ _ _))|].
    intros r s (added & -> & Hadded). cbv beta.
    apply triple_CHKERRQ_last.
    - intros Hr. now rewrite (Hadded Hr).
    - intros Hr. now apply Hfail. }
  destruct p; cbn [main benchmark_of driver] in *.
  - unfold mainDimless. cbv zeta. apply triple_function.
    apply Hcall. intros [|]; cbn [negb];
      [| apply triple_exit; apply Hstopped; discriminate].
    apply triple_seq, triple_ret. cbn [after].
    repeat (apply Hcall; intros ?).
    apply triple_CHKERRQ; [intros _ | intros He; now apply Hstopped].
    apply Hcall; intros ?.
    apply triple_seq. apply Hloop; [reflexivity | |].
    + intros a mid. apply Hcall. intros _.
      apply Hpass; [reflexivity|].
      intros r s Hr. cbn [after returned]. now apply Hstopped.
    + cbn [after]. apply Hcall. intros ierr.
      apply triple_CHKERRQ; intros He;
        [apply triple_ret | cbn [returned]; now apply Hstopped].
      cbn [returned]. intros _. reflexivity.
  - unfold mainDouble. cbv zeta. apply triple_function.
    apply Hcall. intros [|]; cbn [negb];
      [| apply triple_exit; apply Hstopped; discriminate].
    apply triple_seq, triple_ret. cbn [after].
    repeat (apply Hcall; intros ?).
    apply triple_CHKERRQ; [intros _ | intros He; now apply Hstopped].
    apply Hcall; intros ?.
    apply triple_seq. apply Hloop; [reflexivity | |].
    + intros a mid. apply Hcall. intros _.
      apply Hpass; [reflexivity|].
      intros r s Hr. cbn [after returned]. now apply Hstopped.
    + cbn [after]. apply Hcall. intros ierr.
      apply triple_CHKERRQ; intros He;
        [apply triple_ret | cbn [returned]; now apply Hstopped].
      cbn [returned]. intros _. reflexivity.
Qed.

(** X3.  A run of [main] that returns 0 exports the time step 1 and no
    other: [main] runs its driver with [Nt = 2], where the export list
    is the single step 1, so each of the 4 passes of [mainDimless] makes
    the 2 export calls of [terzaghi] and each of the 2 passes of
    [mainDouble] the 3 export calls of [terzaghiDouble], all for step
    1. *)
Theorem X3_main_exports_step_1_only :
  forall (D : Type) (ops : DoubleOps D) (w : @world D) (p : program)
         (myGridType myInterpScheme myMedium : string)
         (myProperties0 : poroelasticProperties D),
    run_result w (main p myGridType myInterpScheme myMedium myProperties0)
    = 0 ->
    observe exported_step
            (run_trace w (main p myGridType myInterpScheme myMedium
                               myProperties0))
    = repeat 1 (match p with MainDimless => 8 | MainDouble => 6 end).
Proof.
  intros D ops w p myGridType myInterpScheme myMedium myProperties0 Hok.
  assert (H : when_complete p (exported_steps (benchmark_of p) 2)
                (run_result w (main p myGridType myInterpScheme myMedium
                                    myProperties0))
                (observe exported_step
                         (run_trace w (main p myGridType myInterpScheme
                                            myMedium myProperties0)))).
  { apply triple_run. apply main_repeats_driver.
    - intros X m x. reflexivity.
    - intros w' gridType interpScheme Lt g load myProperties.
      eapply triple_conseq; [apply exports_of_run|].
      intros r s [_ Hs]. exact Hs. }
  rewrite (H Hok). destruct p; reflexivity.
Qed.

Lemma X3_witness :
  run_result (model_world sample_file)
             (main MainDouble "collocated" "CDS" "sample" sample_properties)
  = 0 /\
  observe exported_step
          (run_trace (model_world sample_file)
                     (main MainDouble "collocated" "CDS" "sample"
                           sample_properties))
  = repeat 1 6.
Proof.
  split; [vm_compute; reflexivity|].
  apply (@X3_main_exports_step_1_only QArith_base.Q _
           (model_world sample_file) MainDouble "collocated" "CDS" "sample"
           sample_properties).
  vm_compute. reflexivity.
Defined.

(** X4.  A run of [main] that returns 0 factorizes the operator anew in
    every pass and solves once after each factorization: with [Nt = 2]
    a driver's time loop has one round. *)
Theorem X4_main_factorizes_in_every_pass :
  forall (D : Type) (ops : DoubleOps D) (w : @world D) (p : program)
         (myGridType myInterpScheme myMedium : string)
         (myProperties0 : poroelasticProperties D),
    run_result w (main p myGridType myInterpScheme myMedium myProperties0)
    = 0 ->
    observe solver_phase
            (run_trace w (main p myGridType myInterpScheme myMedium
                               myProperties0))
    = concat (repeat [Factorize; IterationStart; Solve] (planned_runs p)).
Proof.
  intros D ops w p myGridType myInterpScheme myMedium myProperties0 Hok.
  refine (triple_run (main_repeats_driver (view:=solver_phase) p _ _
                        w myGridType myInterpScheme myMedium myProperties0)
                     Hok).
  - intros X m x. reflexivity.
  - intros w' gridType interpScheme Lt g load myProperties.
    eapply triple_conseq; [apply phases_of_run|].
    intros r s (_ & _ & Hs). exact Hs.
Qed.

Lemma X4_witness :
  run_result (model_world sample_file)
             (main MainDimless "staggered" "NA" "sample" sample_properties)
  = 0 /\
  observe solver_phase
          (run_trace (model_world sample_file)
                     (main MainDimless "staggered" "NA" "sample"
                           sample_properties))
  = concat (repeat [Factorize; IterationStart; Solve]
                   (planned_runs MainDimless)).
Proof.
  split; [vm_compute; reflexivity|].
  apply (@X4_main_factorizes_in_every_pass QArith_base.Q _
           (model_world sample_file) MainDimless "staggered" "NA" "sample"
           sample_properties).
  vm_compute. reflexivity.
Defined.

(** ** The time levels *)

Lemma level_rounds_snoc (b : benchmark) (i : nat) :
  level_rounds b i ++ level_round b i = level_rounds b (S i).
Proof.
  unfold level_rounds. rewrite seq_S, flat_map_app. simpl.
  now rewrite app_nil_r.
Qed.

Ltac levels_stopped := unfold levels_post; intros; contradiction.

Ltac levels_driver Hw b :=
  cbv zeta;
  repeat (step Hw (@time_levels));
  try (cbn [returned]; levels_stopped);
  apply triple_seq;
  apply (triple_forLoop (fun i _ s => s = level_rounds b i));
  [ reflexivity
  | intros ? ? ? ? ->;
    repeat (step Hw (@time_levels));
    cbn [after returned]; rewrite <- ?app_assoc; cbn [app];
    try levels_stopped;
    rewrite <- level_rounds_snoc; reflexivity
  | intros ? ? ->; cbn [after];
    repeat (step Hw (@time_levels));
    try silent_loop Hw (@time_levels);
    repeat (step Hw (@time_levels));
    cbn [returned]; intros _; reflexivity ].

Lemma levels_of_run {D} {ops : DoubleOps D} (w : @world D) (b : benchmark)
      gridType interpScheme Nt meshSize Lt g load myProperties :
  triple time_levels w []
         (driver b gridType interpScheme Nt meshSize Lt g load myProperties)
         (levels_post b (Z.to_nat (Nt - 1))).
Proof.
  pose proof (respects_any time_levels w) as Hw.
  destruct b; cbn [driver].
  - unfold sealedColumn. levels_driver Hw SealedColumn.
  - unfold terzaghi. levels_driver Hw Terzaghi.
  - unfold mandel. levels_driver Hw Mandel.
  - unfold convergence. levels_driver Hw Convergence.
  - unfold stripfoot. levels_driver Hw Stripfoot.
  - unfold terzaghiDouble. levels_driver Hw TerzaghiDouble.
  - unfold stripfootDouble. levels_driver Hw StripfootDouble.
  - unfold sealedDouble. levels_driver Hw SealedDouble.
  - unfold storageDouble. levels_driver Hw StorageDouble.
  - unfold leakingDouble. levels_driver Hw LeakingDouble.
Qed.

Lemma stored_in_rounds (b : benchmark) (n : nat) (level : Z) :
  In (StoredAt level) (level_rounds b n) <-> 1 <= level <= Z.of_nat n.
Proof.
  unfold level_rounds. rewrite in_flat_map. split.
  - intros (i & Hi & Hin). apply in_seq in Hi.
    unfold level_round in Hin. simpl in Hin.
    destruct Hin as [H | [H | H]]; try discriminate.
    + injection H as <-. lia.
    + destruct (double_porosity b); simpl in H; [| tauto].
      destruct H as [H | []]. discriminate.
  - intros Hl. exists (Z.to_nat (level - 1)). split.
    + apply in_seq. lia.
    + unfold level_round. simpl. right. left. f_equal. lia.
Qed.

(** X5.  In a run of any driver that returns 0, round [t] of the time
    loop, for [t = 0, 1, ..., Nt - 2] in this order, gives the step
    index [t] to the assembly of the independent terms and stores the
    solution at time level [t + 1] ([setFieldValue], and
    [setMacroFieldValue] in the double-porosity drivers).  So the levels
    stored are exactly [1 .. Nt - 1]: the initial level 0 is never
    written. *)
Theorem X5_levels_stored_in_order :
  forall (D : Type) (ops : DoubleOps D) (w : @world D) (b : benchmark)
         (gridType interpScheme : string) (Nt meshSize : Z)
         (Lt g load : D) (myProperties : poroelasticProperties D),
    run_result w (driver b gridType interpScheme Nt meshSize Lt g load
                         myProperties) = 0 ->
    observe time_levels
            (run_trace w (driver b gridType interpScheme Nt meshSize Lt g
                                 load myProperties))
    = level_rounds b (Z.to_nat (Nt - 1)) /\
    forall level : Z,
      In (StoredAt level)
         (observe time_levels
                  (run_trace w (driver b gridType interpScheme Nt meshSize
                                       Lt g load myProperties)))
      <-> 1 <= level <= Nt - 1.
Proof.
  intros D ops w b gridType interpScheme Nt meshSize Lt g load myProperties
         Hok.
  pose proof (triple_run (levels_of_run w b gridType interpScheme Nt
                                        meshSize Lt g load myProperties) Hok)
    as Hs.
  split; [exact Hs|].
  intros level. rewrite Hs, stored_in_rounds. lia.
Qed.

Lemma X5_witness :
  run_result (model_world sample_file)
             (driver SealedDouble "staggered" "NA" 4 1 (inject_Z 1)
                     (inject_Z 0) (inject_Z (-10)) sample_properties) = 0 /\
  observe time_levels
          (run_trace (model_world sample_file)
                     (driver SealedDouble "staggered" "NA" 4 1 (inject_Z 1)
                             (inject_Z 0) (inject_Z (-10)) sample_properties))
  = level_rounds SealedDouble (Z.to_nat (4 - 1)) /\
  forall level : Z,
    In (StoredAt level)
       (observe time_levels
                (run_trace (model_world sample_file)
                           (driver SealedDouble "staggered" "NA" 4 1
                                   (inject_Z 1) (inject_Z 0) (inject_Z (-10))
                                   sample_properties)))
    <-> 1 <= level <= 4 - 1.
Proof.
  split; [vm_compute; reflexivity|].
  apply (@X5_levels_stored_in_order QArith_base.Q _
           (model_world sample_file) SealedDouble "staggered" "NA" 4 1
           (inject_Z 1) (inject_Z 0) (inject_Z (-10)) sample_properties).
  vm_compute. reflexivity.
Defined.

(** ** The export lists and the levels computed *)

Lemma Forall_repeated {A} (P : A -> Prop) (k : nat) (v : list A) :
  Forall P v -> Forall P (flat_map (fun a => repeat a k) v).
Proof.
  induction 1 as [| a v Ha _ IH]; simpl; [constructor|].
  apply Forall_app. split; [| exact IH].
  apply Forall_forall. intros x Hx. apply repeat_spec in Hx. now subst.
Qed.

Lemma In_repeated {A} (k : nat) (v : list A) (a : A) :
  (0 < k)%nat -> In a v -> In a (flat_map (fun a => repeat a k) v).
Proof.
  intros Hk Ha. apply in_flat_map. exists a. split; [exact Ha|].
  destruct k; [lia | now left].
Qed.

Lemma quot_in_range (a d : Z) : 0 <= a -> 0 < d -> 0 <= a ÷ d <= a.
Proof.
  intros Ha Hd. rewrite Z.quot_div_nonneg by lia. split.
  - apply Z.div_pos; lia.
  - apply Z.div_le_upper_bound; nia.
Qed.

Lemma listed_steps_in_range (b : benchmark) (Nt : Z) (v : list Z) :
  2 <= Nt -> list_follows_Nt b = true -> exportedTimeSteps b Nt = Some v ->
  Forall (fun t => 0 <= t <= Nt - 1) v.
Proof.
  intros HNt Hb Hv.
  pose proof (@quot_in_range (Nt - 1) 8 ltac:(lia) ltac:(lia)) as H8.
  pose proof (@quot_in_range (Nt - 1) 2 ltac:(lia) ltac:(lia)) as H2.
  pose proof (@quot_in_range (Nt - 1) 16 ltac:(lia) ltac:(lia)) as H16.
  pose proof (@quot_in_range (Nt - 1) 4 ltac:(lia) ltac:(lia)) as H4.
  destruct b; try discriminate; cbn in Hv; injection Hv as <-;
    unfold exportedTimeSteps_sealedColumn, exportedTimeSteps_eighth,
      exportedTimeSteps_mandel, exportedTimeSteps_sealedDouble,
      push_back, clear;
    cbv zeta; try destruct (Z.eqb_spec Nt 2) as [-> | Hne]; cbn [app];
    repeat (constructor; [lia|]); constructor.
Qed.

(** X6.  With [Nt >= 2], every driver whose export list is computed
    from [Nt] (all but [storageDouble] and [leakingDouble]) exports only
    time steps between 0 and [Nt - 1], the levels the run holds. *)
Theorem X6_exported_steps_within_levels :
  forall (D : Type) (ops : DoubleOps D) (w : @world D) (b : benchmark)
         (gridType interpScheme : string) (Nt meshSize : Z)
         (Lt g load : D) (myProperties : poroelasticProperties D),
    2 <= Nt ->
    list_follows_Nt b = true ->
    Forall (fun timeStep => 0 <= timeStep <= Nt - 1)
           (observe exported_step
                    (run_trace w (driver b gridType interpScheme Nt meshSize
                                         Lt g load myProperties))).
Proof.
  intros D ops w b gridType interpScheme Nt meshSize Lt g load myProperties
         HNt Hb.
  destruct (triple_run (exports_of_run w b gridType interpScheme Nt meshSize
                                       Lt g load myProperties))
    as [[-> | ->] _]; [constructor|].
  unfold exported_steps.
  destruct (exportedTimeSteps b Nt) as [v |] eqn:Hv; [| constructor].
  apply Forall_repeated. now apply (listed_steps_in_range b).
Qed.

Lemma X6_witness :
  2 <= 9 /\ list_follows_Nt Mandel = true /\
  Forall (fun timeStep => 0 <= timeStep <= 9 - 1)
         (observe exported_step
                  (run_trace (model_world sample_file)
                             (driver Mandel "staggered" "NA" 9 1 (inject_Z 1)
                                     (inject_Z 0) (inject_Z (-10))
                                     sample_properties))).
Proof.
  split; [lia|]. split; [reflexivity|].
  apply (@X6_exported_steps_within_levels QArith_base.Q _
           (model_world sample_file) Mandel "staggered" "NA" 9 1
           (inject_Z 1) (inject_Z 0) (inject_Z (-10)) sample_properties).
  - lia.
  - reflexivity.
Defined.

(** X7.  [storageDouble] and [leakingDouble] export fixed steps, up to
    step 500, whatever [Nt] is (2 apart).  In a run that returns 0 with
    [Nt <= 500], [Nt <> 2], the export of step 500 is asked for although
    no solution was stored at level 500. *)
Theorem X7_fixed_lists_export_beyond_last_level :
  forall (D : Type) (ops : DoubleOps D) (w : @world D) (b : benchmark)
         (gridType interpScheme : string) (Nt meshSize : Z)
         (Lt g load : D) (myProperties : poroelasticProperties D),
    list_follows_Nt b = false ->
    Nt <> 2 -> Nt <= 500 ->
    run_result w (driver b gridType interpScheme Nt meshSize Lt g load
                         myProperties) = 0 ->
    In 500 (observe exported_step
                    (run_trace w (driver b gridType interpScheme Nt meshSize
                                         Lt g load myProperties))) /\
    ~ In (StoredAt 500)
         (observe time_levels
                  (run_trace w (driver b gridType interpScheme Nt meshSize
                                       Lt g load myProperties))).
Proof.
  intros D ops w b gridType interpScheme Nt meshSize Lt g load myProperties
         Hb HNt Hle Hok.
  split.
  - destruct (triple_run (exports_of_run w b gridType interpScheme Nt
                                         meshSize Lt g load myProperties))
      as [_ Hs].
    rewrite (Hs Hok). clear Hs Hok. unfold exported_steps.
    apply Z.eqb_neq in HNt.
    destruct b; try discriminate Hb; cbn [exportedTimeSteps exports_per_step];
      unfold exportedTimeSteps_storageDouble, exportedTimeSteps_leakingDouble;
      cbv zeta; rewrite HNt;
      (apply In_repeated;
       [simpl; lia | repeat first [left; reflexivity | right]]).
  - rewrite (triple_run (levels_of_run w b gridType interpScheme Nt meshSize
                                       Lt g load myProperties) Hok).
    rewrite stored_in_rounds. lia.
Qed.

Lemma X7_witness :
  list_follows_Nt StorageDouble = false /\ 3 <> 2 /\ 3 <= 500 /\
  run_result (model_world sample_file)
             (driver StorageDouble "staggered" "NA" 3 1 (inject_Z 1)
                     (inject_Z 0) (inject_Z (-10)) sample_properties) = 0 /\
  In 500 (observe exported_step
                  (run_trace (model_world sample_file)
                             (driver StorageDouble "staggered" "NA" 3 1
                                     (inject_Z 1) (inject_Z 0)
                                     (inject_Z (-10)) sample_properties))) /\
  ~ In (StoredAt 500)
       (observe time_levels
                (run_trace (model_world sample_file)
                           (driver StorageDouble "staggered" "NA" 3 1
                                   (inject_Z 1) (inject_Z 0) (inject_Z (-10))
                                   sample_properties))).
Proof.
  split; [reflexivity|]. split; [lia|]. split; [lia|].
  split; [vm_compute; reflexivity|].
  apply (@X7_fixed_lists_export_beyond_last_level QArith_base.Q _
           (model_world sample_file) StorageDouble "staggered" "NA" 3 1
           (inject_Z 1) (inject_Z 0) (inject_Z (-10)) sample_properties).
  - reflexivity.
  - lia.
  - lia.
  - vm_compute. reflexivity.
Defined.

(** ** When the exported steps are distinct *)

Lemma sorted_four (a b c d : Z) :
  StronglySorted Z.lt [a; b; c; d] <-> a < b /\ b < c /\ c < d.
Proof.
  split.
  - intros H. inversion H as [| ? ? H1 Ha]; subst.
    inversion H1 as [| ? ? H2 Hb]; subst.
    inversion H2 as [| ? ? _ Hc]; subst.
    inversion Ha; subst. inversion Hb; subst. inversion Hc; subst. lia.
  - intros (Hab & Hbc & Hcd).
    repeat (constructor; [| repeat (constructor; [lia|]); constructor]).
    constructor.
Qed.

Lemma sorted_one (a : Z) : StronglySorted Z.lt [a].
Proof. repeat constructor. Qed.

(** X8.  The four exported steps [1; (Nt-1)/8; (Nt-1)/2; Nt-1] are
    distinct and increasing exactly when [Nt >= 17] (in [mandel], with
    [(Nt-1)/16] and [(Nt-1)/4], when [Nt >= 33]); the drivers that
    replace the list by the single step 1 at [Nt = 2] have an increasing
    list there too.  For every other [Nt] the list repeats a step or
    goes back to an earlier one. *)
Theorem X8_export_list_increasing :
  forall Nt : Z,
    (StronglySorted Z.lt (exportedTimeSteps_sealedColumn Nt) <-> 17 <= Nt) /\
    (StronglySorted Z.lt (exportedTimeSteps_eighth Nt)
     <-> Nt = 2 \/ 17 <= Nt) /\
    (StronglySorted Z.lt (exportedTimeSteps_mandel Nt)
     <-> Nt = 2 \/ 33 <= Nt).
Proof.
  intros Nt.
  unfold exportedTimeSteps_sealedColumn, exportedTimeSteps_eighth,
    exportedTimeSteps_mandel, push_back, clear. cbv zeta.
  repeat split.
  - rewrite sorted_four. Z.quot_rem_to_equations. lia.
  - rewrite sorted_four. Z.quot_rem_to_equations. lia.
  - destruct (Z.eqb_spec Nt 2); [auto|].
    rewrite sorted_four. Z.quot_rem_to_equations. lia.
  - destruct (Z.eqb_spec Nt 2); [intros; apply sorted_one|].
    rewrite sorted_four. Z.quot_rem_to_equations. lia.
  - destruct (Z.eqb_spec Nt 2); [auto|].
    rewrite sorted_four. Z.quot_rem_to_equations. lia.
  - destruct (Z.eqb_spec Nt 2); [intros; apply sorted_one|].
    rewrite sorted_four. Z.quot_rem_to_equations. lia.
Qed.

(** ** From the assembled operator to the solver *)

(** All but the last two elements of a list that is written out. *)
Ltac but_last_two l :=
  lazymatch l with
  | [_; _] =>
      lazymatch type of l with list ?A => constr:(@nil A) end
  | ?k :: ?rest => let r := but_last_two rest in constr:(k :: r)
  end.

Ltac handed_over :=
  cbv beta; unfold operator_handed_over;
  lazymatch goal with
  | |- exists before members, ?l = _ /\ _ =>
      let b := but_last_two l in
      exists b; eexists; split; [reflexivity|];
      split; [reflexivity | now left]
  end.

Lemma operator_of_run {D} {ops : DoubleOps D} (w : @world D) (b : benchmark)
      gridType interpScheme Nt meshSize Lt g load myProperties :
  triple operator_flow w []
         (driver b gridType interpScheme Nt meshSize Lt g load myProperties)
         (fun _ s => operator_handed_over s).
Proof.
  pose proof (respects_any operator_flow w) as Hw.
  destruct b; cbn [driver].
  - unfold sealedColumn. fixed_after_setup Hw (@operator_flow) handed_over.
  - unfold terzaghi. fixed_after_setup Hw (@operator_flow) handed_over.
  - unfold mandel. fixed_after_setup Hw (@operator_flow) handed_over.
  - unfold convergence. fixed_after_setup Hw (@operator_flow) handed_over.
  - unfold stripfoot. fixed_after_setup Hw (@operator_flow) handed_over.
  - unfold terzaghiDouble. fixed_after_setup Hw (@operator_flow) handed_over.
  - unfold stripfootDouble. fixed_after_setup Hw (@operator_flow) handed_over.
  - unfold sealedDouble. fixed_after_setup Hw (@operator_flow) handed_over.
  - unfold storageDouble. fixed_after_setup Hw (@operator_flow) handed_over.
  - unfold leakingDouble. fixed_after_setup Hw (@operator_flow) handed_over.
Qed.

(** X9.  In every run of every driver the solver is constructed exactly
    once, with the matrix and the three sparse arrays read from
    [myCoefficients] right before, after the operator was assembled; and
    this is the last call that concerns the operator: no method of
    [myCoefficients] is called once the solver exists, so the operator
    that was factorized is the one used in every round. *)
Theorem X9_solver_gets_assembled_operator :
  forall (D : Type) (ops : DoubleOps D) (w : @world D) (b : benchmark)
         (gridType interpScheme : string) (Nt meshSize : Z)
         (Lt g load : D) (myProperties : poroelasticProperties D),
    operator_handed_over
      (observe operator_flow
               (run_trace w (driver b gridType interpScheme Nt meshSize Lt g
                                    load myProperties))).
Proof.
  intros. exact (triple_run (operator_of_run w b gridType interpScheme Nt
                                             meshSize Lt g load myProperties)).
Qed.

(** ** From the solver to the post-processing *)

Ltac results_stopped := unfold results_post; intros; contradiction.

Ltac results_driver Hw b F :=
  cbv zeta;
  repeat (step Hw (@result_flow));
  try (cbn [returned]; results_stopped);
  apply triple_seq;
  apply (triple_forLoop
           (fun i st s =>
              (0 < i)%nat ->
              exists before, s = before ++ map FieldRead (F st)));
  [ intros ?; lia
  | intros ? ? ? ? _;
    repeat (step Hw (@result_flow));
    cbn [after returned]; rewrite <- ?app_assoc; cbn [app];
    try results_stopped;
    intros _; eexists; reflexivity
  | let Hinv := fresh "Hinv" in
    intros ? ? Hinv; cbn [after];
    repeat (step Hw (@result_flow));
    try silent_loop Hw (@result_flow);
    repeat (step Hw (@result_flow));
    cbn [returned];
    let Hn := fresh "Hn" in
    let before := fresh "before" in
    intros Hn _; destruct (Hinv Hn) as [before ->];
    exists before; rewrite <- ?app_assoc;
    lazymatch goal with
    | |- context [map FieldRead ?final] =>
        exists final; split; reflexivity
    end ].

Lemma results_of_run {D} {ops : DoubleOps D} (w : @world D) (b : benchmark)
      gridType interpScheme Nt meshSize Lt g load myProperties :
  triple result_flow w []
         (driver b gridType interpScheme Nt meshSize Lt g load myProperties)
         (results_post b (Z.to_nat (Nt - 1))).
Proof.
  pose proof (respects_any result_flow w) as Hw.
  destruct b; cbn [driver].
  - unfold sealedColumn. results_driver Hw SealedColumn (@fields_of D).
  - unfold terzaghi. results_driver Hw Terzaghi (@fields_of D).
  - unfold mandel. results_driver Hw Mandel (@fields_of D).
  - unfold convergence. results_driver Hw Convergence (@fields_of D).
  - unfold stripfoot. results_driver Hw Stripfoot (@fields_of D).
  - unfold terzaghiDouble.
    results_driver Hw TerzaghiDouble (@doubleFields_of D).
  - unfold stripfootDouble.
    results_driver Hw StripfootDouble (@doubleFields_of D).
  - unfold sealedDouble. results_driver Hw SealedDouble (@doubleFields_of D).
  - unfold storageDouble.
    results_driver Hw StorageDouble (@doubleFields_of D).
  - unfold leakingDouble.
    results_driver Hw LeakingDouble (@doubleFields_of D).
Qed.

(** X10.  In a run of any driver with [Nt >= 2] that returns 0, the
    field arrays handed to the post-processing are the ones read back
    from the solver in the last round of the time loop, after the last
    solve: [uField], [vField], [pField] go to the constructor of
    [myDataProcessing] and, in the double-porosity drivers, [pMField] to
    [storeMacroPressure3DField].  No field is read or replaced in
    between. *)
Theorem X10_post_processing_gets_last_fields :
  forall (D : Type) (ops : DoubleOps D) (w : @world D) (b : benchmark)
         (gridType interpScheme : string) (Nt meshSize : Z)
         (Lt g load : D) (myProperties : poroelasticProperties D),
    2 <= Nt ->
    run_result w (driver b gridType interpScheme Nt meshSize Lt g load
                         myProperties) = 0 ->
    exists (before : list (result_event D))
           (final : list (solver_field * table D)),
      observe result_flow
              (run_trace w (driver b gridType interpScheme Nt meshSize Lt g
                                   load myProperties))
      = before ++ map FieldRead final ++ processing b final /\
      map fst final = field_names b.
Proof.
  intros D ops w b gridType interpScheme Nt meshSize Lt g load myProperties
         HNt Hok.
  apply (triple_run (results_of_run w b gridType interpScheme Nt meshSize Lt
                                    g load myProperties));
    [lia | exact Hok].
Qed.

Lemma X10_witness :
  2 <= 3 /\
  run_result (model_world sample_file)
             (driver LeakingDouble "staggered" "NA" 3 1 (inject_Z 1)
                     (inject_Z 0) (inject_Z (-10)) sample_properties) = 0 /\
  exists (before : list (result_event QArith_base.Q))
         (final : list (solver_field * table QArith_base.Q)),
    observe result_flow
            (run_trace (model_world sample_file)
                       (driver LeakingDouble "staggered" "NA" 3 1
                               (inject_Z 1) (inject_Z 0) (inject_Z (-10))
                               sample_properties))
    = before ++ map FieldRead final ++ processing LeakingDouble final /\
    map fst final = field_names LeakingDouble.
Proof.
  split; [lia|]. split; [vm_compute; reflexivity|].
  apply (@X10_post_processing_gets_last_fields QArith_base.Q _
           (model_world sample_file) LeakingDouble "staggered" "NA" 3 1
           (inject_Z 1) (inject_Z 0) (inject_Z (-10)) sample_properties).
  - lia.
  - vm_compute. reflexivity.
Defined.

(** ** Runs without a time step *)

(** X11.  With [Nt <= 1] the time loop is not entered.  A run that
    returns 0 factorizes the operator and solves nothing, no solution
    is stored at any level, and the export calls are made all the same:
    every driver but [convergence] (no exports) and [sealedDouble]
    (whose list is [Nt - 1]) exports step 1. *)
Theorem X11_no_round_when_Nt_at_most_1 :
  forall (D : Type) (ops : DoubleOps D) (w : @world D) (b : benchmark)
         (gridType interpScheme : string) (Nt meshSize : Z)
         (Lt g load : D) (myProperties : poroelasticProperties D),
    Nt <= 1 ->
    run_result w (driver b gridType interpScheme Nt meshSize Lt g load
                         myProperties) = 0 ->
    observe solver_phase
            (run_trace w (driver b gridType interpScheme Nt meshSize Lt g
                                 load myProperties)) = [Factorize] /\
    observe time_levels
            (run_trace w (driver b gridType interpScheme Nt meshSize Lt g
                                 load myProperties)) = [] /\
    (b <> Convergence -> b <> SealedDouble ->
     In 1 (observe exported_step
                   (run_trace w (driver b gridType interpScheme Nt meshSize
                                        Lt g load myProperties)))).
Proof.
  intros D ops w b gridType interpScheme Nt meshSize Lt g load myProperties
         HNt Hok.
  assert (Hn : Z.to_nat (Nt - 1) = 0%nat) by lia.
  split; [| split].
  - destruct (triple_run (phases_of_run w b gridType interpScheme Nt meshSize
                                        Lt g load myProperties))
      as (_ & _ & Hs).
    rewrite (Hs Hok), Hn. reflexivity.
  - rewrite (triple_run (levels_of_run w b gridType interpScheme Nt meshSize
                                       Lt g load myProperties) Hok), Hn.
    reflexivity.
  - intros Hc Hd.
    destruct (triple_run (exports_of_run w b gridType interpScheme Nt
                                         meshSize Lt g load myProperties))
      as [_ Hs].
    rewrite (Hs Hok). clear Hs Hok. unfold exported_steps.
    assert (HNt2 : (Nt =? 2) = false) by (apply Z.eqb_neq; lia).
    destruct b; try contradiction;
      cbn [exportedTimeSteps exports_per_step];
      unfold exportedTimeSteps_sealedColumn, exportedTimeSteps_eighth,
        exportedTimeSteps_mandel, exportedTimeSteps_storageDouble,
        exportedTimeSteps_leakingDouble;
      cbv zeta; rewrite ?HNt2;
      (apply In_repeated; [simpl; lia | now left]).
Qed.

Lemma X11_witness :
  1 <= 1 /\
  run_result (model_world sample_file)
             (driver Terzaghi "staggered" "NA" 1 1 (inject_Z 1) (inject_Z 0)
                     (inject_Z (-10)) sample_properties) = 0 /\
  observe solver_phase
          (run_trace (model_world sample_file)
                     (driver Terzaghi "staggered" "NA" 1 1 (inject_Z 1)
                             (inject_Z 0) (inject_Z (-10)) sample_properties))
  = [Factorize] /\
  observe time_levels
          (run_trace (model_world sample_file)
                     (driver Terzaghi "staggered" "NA" 1 1 (inject_Z 1)
                             (inject_Z 0) (inject_Z (-10)) sample_properties))
  = [] /\
  (Terzaghi <> Convergence -> Terzaghi <> SealedDouble ->
   In 1 (observe exported_step
                 (run_trace (model_world sample_file)
                            (driver Terzaghi "staggered" "NA" 1 1
                                    (inject_Z 1) (inject_Z 0)
                                    (inject_Z (-10)) sample_properties)))).
Proof.
  split; [lia|]. split; [vm_compute; reflexivity|].
  apply (@X11_no_round_when_Nt_at_most_1 QArith_base.Q _
           (model_world sample_file) Terzaghi "staggered" "NA" 1 1
           (inject_Z 1) (inject_Z 0) (inject_Z (-10)) sample_properties).
  - lia.
  - vm_compute. reflexivity.
Defined.

(** ** The properties of the double-porosity medium *)

Lemma terzaghiDouble_inputs {D} {ops : DoubleOps D} (w : @world D) pre
      gridType interpScheme Nt meshSize Lt g sigmab myProperties :
  triple double_inputs w pre
         (terzaghiDouble gridType interpScheme Nt meshSize Lt g sigmab
                         myProperties)
         (fun _ s =>
            exists rest,
              s = (pre ++ [DoubleProblemBuilt
                             (porosity myProperties)
                             (macroPorosity myProperties)
                             (permeability myProperties)
                             (macroPermeability myProperties)
                             (fluidViscosity myProperties)])
                  ++ rest).
Proof.
  pose proof (respects_any double_inputs w) as Hw.
  unfold terzaghiDouble. cbv zeta.
  do 3 (step Hw (@double_inputs)).
  eapply triple_conseq; [apply (triple_extends Hw)|].
  intros r s [rest ->]. exists rest. now rewrite <- !app_assoc.
Qed.

(** X12.  [mainDouble] splits what it reads: of the porosity in the
    file (the sixth number) two thirds become the pore porosity and one
    third the fracture porosity; of the permeability (the seventh) one
    thousandth becomes the pore permeability and 999 thousandths the
    fracture permeability; the viscosity (the eighth) is passed as read.
    These are the values the double-porosity problem is built with. *)
Theorem X12_mainDouble_splits_porosity_and_permeability :
  forall (D : Type) (ops : DoubleOps D) (w : @world D)
         (myGridType myInterpScheme myMedium : string)
         (myProperties0 : poroelasticProperties D),
    split_outcome
      (observe double_inputs
               (run_trace w (mainDouble myGridType myInterpScheme myMedium
                                        myProperties0))).
Proof.
  intros D ops w myGridType myInterpScheme myMedium myProperties0.
  pose proof (respects_any double_inputs w) as Hw.
  apply (triple_run (Post:=fun _ s => split_outcome s)).
  unfold mainDouble. cbv zeta. apply triple_function.
  apply (triple_call Hw). intros opened _. cbv beta.
  norm_pre (@double_inputs).
  destruct opened; cbn [negb].
  2: { apply triple_exit. now left. }
  apply triple_seq, triple_ret. cbn [after].
  repeat (step Hw (@double_inputs)).
  2: { right; left. do 9 eexists. reflexivity. }
  unfold timestepSize_mainDouble. cbn [forEach].
  apply triple_seq. apply triple_seq.
  step Hw (@double_inputs).
  apply triple_callee.
  eapply triple_conseq; [apply terzaghiDouble_inputs|].
  intros r s Hs.
  cbn [porosity macroPorosity permeability macroPermeability fluidViscosity]
    in Hs.
  lazymatch type of Hs with
  | exists rest, s = ?start ++ rest =>
      apply triple_stable
        with (Good := fun s0 => exists rest, s0 = start ++ rest);
      [apply starts_with_closed | | exact Hs]
  end.
  repeat (apply stable_after; [apply starts_with_closed|]).
  intros o s' [rest ->]. right; right.
  rewrite <- app_assoc. cbn [app].
  do 9 eexists. exists rest. reflexivity.
Qed.

(** ** Solving first, writing last *)

Lemma repeat_snoc {A} (a : A) (n : nat) :
  repeat a n ++ [a] = repeat a (S n).
Proof. induction n as [| n IH]; simpl; [reflexivity | now rewrite IH]. Qed.

Lemma writes_are_exported_steps (b : benchmark) (Nt : Z) :
  writes b Nt = map Written (exported_steps b Nt).
Proof.
  unfold writes, exported_steps.
  destruct (exportedTimeSteps b Nt) as [v |]; [| reflexivity].
  induction v as [| t v IH]; simpl; [reflexivity|].
  now rewrite map_app, map_repeat, IH.
Qed.

Ltac progress_stopped := unfold progress_post; intros; contradiction.

Ltac write_loop Hw k :=
  apply triple_seq;
  eapply triple_conseq;
  [ apply (triple_forEach (fun timeStep : Z => repeat (Written timeStep) k));
    intros ? ?; repeat (step Hw (@progress)); cbn [goes_on];
    rewrite <- ?app_assoc; reflexivity
  | let o := fresh "o" in
    intros [o | o] ?; cbn [goes_on after]; [intros -> | tauto] ].

Ltac progress_driver Hw b k :=
  cbv zeta;
  repeat (step Hw (@progress));
  try (cbn [returned]; progress_stopped);
  apply triple_seq;
  apply (triple_forLoop (fun i _ s => s = repeat Solved i));
  [ reflexivity
  | intros ? ? ? ? ->;
    repeat (step Hw (@progress));
    cbn [after returned]; rewrite <- ?app_assoc; cbn [app];
    try progress_stopped;
    apply repeat_snoc
  | intros ? ? ->; cbn [after];
    repeat (step Hw (@progress));
    try write_loop Hw k;
    repeat (step Hw (@progress));
    cbn [returned]; intros _;
    unfold writes; cbn [exportedTimeSteps exports_per_step];
    rewrite ?app_nil_r; reflexivity ].

Lemma progress_of_run {D} {ops : DoubleOps D} (w : @world D) (b : benchmark)
      gridType interpScheme Nt meshSize Lt g load myProperties :
  triple progress w []
         (driver b gridType interpScheme Nt meshSize Lt g load myProperties)
         (progress_post b Nt).
Proof.
  pose proof (respects_any progress w) as Hw.
  destruct b; cbn [driver].
  - unfold sealedColumn. progress_driver Hw SealedColumn 2%nat.
  - unfold terzaghi. progress_driver Hw Terzaghi 2%nat.
  - unfold mandel. progress_driver Hw Mandel 2%nat.
  - unfold convergence. progress_driver Hw Convergence 0%nat.
  - unfold stripfoot. progress_driver Hw Stripfoot 2%nat.
  - unfold terzaghiDouble. progress_driver Hw TerzaghiDouble 3%nat.
  - unfold stripfootDouble. progress_driver Hw StripfootDouble 2%nat.
  - unfold sealedDouble. progress_driver Hw SealedDouble 2%nat.
  - unfold storageDouble. progress_driver Hw StorageDouble 2%nat.
  - unfold leakingDouble. progress_driver Hw LeakingDouble 2%nat.
Qed.

(** X13.  In a run of any driver that returns 0, all the solves come
    before all the export calls: [Nt - 1] calls of [solveLinearSystem],
    then, for each step of the export list in the order of the list, the
    driver's export calls for that step (2, or 3 in [terzaghiDouble],
    none in [convergence]).  Nothing is written before the last time
    step is solved. *)
Theorem X13_all_solves_before_all_exports :
  forall (D : Type) (ops : DoubleOps D) (w : @world D) (b : benchmark)
         (gridType interpScheme : string) (Nt meshSize : Z)
         (Lt g load : D) (myProperties : poroelasticProperties D),
    run_result w (driver b gridType interpScheme Nt meshSize Lt g load
                         myProperties) = 0 ->
    observe progress
            (run_trace w (driver b gridType interpScheme Nt meshSize Lt g
                                 load myProperties))
    = repeat Solved (Z.to_nat (Nt - 1)) ++ map Written (exported_steps b Nt).
Proof.
  intros D ops w b gridType interpScheme Nt meshSize Lt g load myProperties
         Hok.
  rewrite <- writes_are_exported_steps.
  exact (triple_run (progress_of_run w b gridType interpScheme Nt meshSize Lt
                                     g load myProperties) Hok).
Qed.

Lemma X13_witness :
  run_result (model_world sample_file)
             (driver Stripfoot "collocated" "I2DPIS" 20 2 (inject_Z 1)
                     (inject_Z 0) (inject_Z (-10)) sample_properties) = 0 /\
  observe progress
          (run_trace (model_world sample_file)
                     (driver Stripfoot "collocated" "I2DPIS" 20 2
                             (inject_Z 1) (inject_Z 0) (inject_Z (-10))
                             sample_properties))
  = repeat Solved (Z.to_nat (20 - 1))
    ++ map Written (exported_steps Stripfoot 20).
Proof.
  split; [vm_compute; reflexivity|].
  apply (@X13_all_solves_before_all_exports QArith_base.Q _
           (model_world sample_file) Stripfoot "collocated" "I2DPIS" 20 2
           (inject_Z 1) (inject_Z 0) (inject_Z (-10)) sample_properties).
  vm_compute. reflexivity.
Defined.

(** ** The fields the time loop starts from *)

Ltac start_stopped := unfold start_post; intros; contradiction.

Ltac start_driver Hw b F :=
  cbv zeta;
  repeat (step Hw (@initial_flow));
  try (cbn [returned]; start_stopped);
  apply triple_seq;
  lazymatch goal with
  | |- triple _ _ ?pre (forLoop _ _ _ ?s0) _ =>
      apply (triple_forLoop (fun i st s => start_inv pre (F s0) i (F st) s))
  end;
  [ left; repeat split; reflexivity
  | let HF := fresh "HF" in
    intros ? ? ? ? [(-> & -> & HF) | (? & ? & ->)];
    repeat (step Hw (@initial_flow));
    cbn [after returned]; rewrite <- ?app_assoc; cbn [app];
    try start_stopped;
    right; (split; [lia|]);
    [ cbn in HF; injection HF; intros; subst; eexists; reflexivity
    | eexists; reflexivity ]
  | intros ? ? [(? & _) | (_ & ? & ->)]; cbn [after];
    repeat (step Hw (@initial_flow));
    try silent_loop Hw (@initial_flow);
    repeat (step Hw (@initial_flow));
    cbn [returned]; unfold start_post;
    [ intros; lia
    | intros _ _;
      lazymatch goal with
      | |- context [AssemblyGiven ?initial 0 :: ?later] =>
          exists initial, later; split; reflexivity
      end ] ].

Lemma start_of_run {D} {ops : DoubleOps D} (w : @world D) (b : benchmark)
      gridType interpScheme Nt meshSize Lt g load myProperties :
  triple initial_flow w []
         (driver b gridType interpScheme Nt meshSize Lt g load myProperties)
         (start_post b (Z.to_nat (Nt - 1))).
Proof.
  pose proof (respects_any initial_flow w) as Hw.
  destruct b; cbn [driver].
  - unfold sealedColumn. start_driver Hw SealedColumn (@fields_of D).
  - unfold terzaghi. start_driver Hw Terzaghi (@fields_of D).
  - unfold mandel. start_driver Hw Mandel (@fields_of D).
  - unfold convergence. start_driver Hw Convergence (@fields_of D).
  - unfold stripfoot. start_driver Hw Stripfoot (@fields_of D).
  - unfold terzaghiDouble. start_driver Hw TerzaghiDouble (@doubleFields_of D).
  - unfold stripfootDouble.
    start_driver Hw StripfootDouble (@doubleFields_of D).
  - unfold sealedDouble. start_driver Hw SealedDouble (@doubleFields_of D).
  - unfold storageDouble. start_driver Hw StorageDouble (@doubleFields_of D).
  - unfold leakingDouble. start_driver Hw LeakingDouble (@doubleFields_of D).
Qed.

(** X14.  In a run of any driver with [Nt >= 2] that returns 0, the
    first round of the time loop (step 0) assembles the independent
    terms from exactly the field arrays the solver was constructed with
    ([uField], [vField], [pField], and the fracture pressure given to
    [createMacroPressureField] in the double-porosity drivers): the
    solver's initial level and the first right-hand side come from the
    same initial condition. *)
Theorem X14_first_round_starts_from_solver_fields :
  forall (D : Type) (ops : DoubleOps D) (w : @world D) (b : benchmark)
         (gridType interpScheme : string) (Nt meshSize : Z)
         (Lt g load : D) (myProperties : poroelasticProperties D),
    2 <= Nt ->
    run_result w (driver b gridType interpScheme Nt meshSize Lt g load
                         myProperties) = 0 ->
    exists (initial : list (solver_field * table D))
           (later : list (start_event D)),
      observe initial_flow
              (run_trace w (driver b gridType interpScheme Nt meshSize Lt g
                                   load myProperties))
      = started b initial ++ AssemblyGiven initial 0 :: later /\
      map fst initial = field_names b.
Proof.
  intros D ops w b gridType interpScheme Nt meshSize Lt g load myProperties
         HNt Hok.
  apply (triple_run (start_of_run w b gridType interpScheme Nt meshSize Lt g
                                  load myProperties));
    [lia | exact Hok].
Qed.

Lemma X14_witness :
  2 <= 3 /\
  run_result (model_world sample_file)
             (driver StorageDouble "staggered" "NA" 3 1 (inject_Z 1)
                     (inject_Z 0) (inject_Z (-10)) sample_properties) = 0 /\
  exists (initial : list (solver_field * table QArith_base.Q))
         (later : list (start_event QArith_base.Q)),
    observe initial_flow
            (run_trace (model_world sample_file)
                       (driver StorageDouble "staggered" "NA" 3 1
                               (inject_Z 1) (inject_Z 0) (inject_Z (-10))
                               sample_properties))
    = started StorageDouble initial ++ AssemblyGiven initial 0 :: later /\
    map fst initial = field_names StorageDouble.
Proof.
  split; [lia|]. split; [vm_compute; reflexivity|].
  apply (@X14_first_round_starts_from_solver_fields QArith_base.Q _
           (model_world sample_file) StorageDouble "staggered" "NA" 3 1
           (inject_Z 1) (inject_Z 0) (inject_Z (-10)) sample_properties).
  - lia.
  - vm_compute. reflexivity.
Defined.

(** ** Where the initial fields come from *)

(** Splits a list of reads followed by what the solver is given into the
    reads but the last, and the last read. *)
Ltac split_reads l :=
  lazymatch l with
  | ?r :: SolverGiven _ :: _ =>
      lazymatch type of l with
      | list ?A => constr:((@nil A, r))
      end
  | ?r :: ?rest =>
      let p := split_reads rest in
      lazymatch p with
      | (?rs, ?last) => constr:((r :: rs, last))
      end
  end.

Ltac from_sources :=
  cbv beta; unfold fields_from_sources;
  lazymatch goal with
  | |- exists grid reads last_read, GridMade ?g :: ?l = _ /\ _ =>
      let p := split_reads l in
      lazymatch p with
      | (?rs, ?last) => exists g, rs, last; split; reflexivity
      end
  end.

Lemma sources_of_run {D} {ops : DoubleOps D} (w : @world D) (b : benchmark)
      gridType interpScheme Nt meshSize Lt g load myProperties :
  triple source_flow w []
         (driver b gridType interpScheme Nt meshSize Lt g load myProperties)
         (fun _ s => fields_from_sources b s).
Proof.
  pose proof (respects_any source_flow w) as Hw.
  destruct b; cbn [driver].
  - unfold sealedColumn. fixed_after_setup Hw (@source_flow) from_sources.
  - unfold terzaghi. fixed_after_setup Hw (@source_flow) from_sources.
  - unfold mandel. fixed_after_setup Hw (@source_flow) from_sources.
  - unfold convergence. fixed_after_setup Hw (@source_flow) from_sources.
  - unfold stripfoot. fixed_after_setup Hw (@source_flow) from_sources.
  - unfold terzaghiDouble. fixed_after_setup Hw (@source_flow) from_sources.
  - unfold stripfootDouble. fixed_after_setup Hw (@source_flow) from_sources.
  - unfold sealedDouble. fixed_after_setup Hw (@source_flow) from_sources.
  - unfold storageDouble. fixed_after_setup Hw (@source_flow) from_sources.
  - unfold leakingDouble. fixed_after_setup Hw (@source_flow) from_sources.
Qed.

(** X15.  In every run of every driver the fields the solver is
    constructed with come from these sources.  The five single-porosity
    drivers pass the three fields read from [myProblem] after its
    initial conditions were applied.  [storageDouble] and
    [leakingDouble] pass the vertical displacement and the two
    pressures read from [myProblem], and the horizontal displacement of
    the grid.  [terzaghiDouble], [stripfootDouble] and [sealedDouble]
    pass the fields of the grid as they are, the grid's pressure field
    for both pressures: no initial condition of [myProblem] reaches the
    solver. *)
Theorem X15_initial_fields_by_driver :
  forall (D : Type) (ops : DoubleOps D) (w : @world D) (b : benchmark)
         (gridType interpScheme : string) (Nt meshSize : Z)
         (Lt g load : D) (myProperties : poroelasticProperties D),
    fields_from_sources b
      (observe source_flow
               (run_trace w (driver b gridType interpScheme Nt meshSize Lt g
                                    load myProperties))).
Proof.
  intros. exact (triple_run (sources_of_run w b gridType interpScheme Nt
                                            meshSize Lt g load myProperties)).
Qed.

(** ** The sparse arrays and the variants *)

Lemma in_rounds {A} (x : A) (round : list A) (k : nat) :
  In x (concat (repeat round k)) -> In x round.
Proof.
  induction k as [| k IH]; simpl; [tauto|].
  rewrite in_app_iff. tauto.
Qed.

(** X16.  Of the ten drivers only [mandel] calls [assemblySparseMatrix],
    to rebuild the sparse arrays after it has changed the operator;
    [stripfoot] and [stripfootDouble] hand the operator to the solver
    as [addStripfootBC] and [addMacroStripfootBC] leave it.  A
    modification of the operator is called exactly in the three drivers
    with extensions, and a modification of the independent terms in no
    other driver. *)
Theorem X16_only_mandel_rebuilds_sparse_arrays :
  forall (D : Type) (ops : DoubleOps D) (w : @world D) (b : benchmark)
         (gridType interpScheme : string) (Nt meshSize : Z)
         (Lt g load : D) (myProperties : poroelasticProperties D),
    (In SparseRebuilt
        (observe assembly_roles
                 (run_trace w (driver b gridType interpScheme Nt meshSize Lt
                                      g load myProperties)))
     <-> b = Mandel) /\
    (In VariantOperator
        (observe assembly_roles
                 (run_trace w (driver b gridType interpScheme Nt meshSize Lt
                                      g load myProperties)))
     <-> has_extensions b = true) /\
    (In VariantRHS
        (observe assembly_roles
                 (run_trace w (driver b gridType interpScheme Nt meshSize Lt
                                      g load myProperties)))
     -> has_extensions b = true).
Proof.
  intros D ops w b gridType interpScheme Nt meshSize Lt g load myProperties.
  destruct (triple_run (roles_of_run w b gridType interpScheme Nt meshSize
                                     Lt g load myProperties))
    as (k & _ & -> & _).
  split; [split | split; [split|]].
  - rewrite in_app_iff. intros [H | H];
      [| apply in_rounds in H];
      destruct b; simpl in H; intuition discriminate.
  - intros ->. rewrite in_app_iff. left. simpl. tauto.
  - rewrite in_app_iff. intros [H | H];
      [| apply in_rounds in H];
      destruct b; simpl in H; intuition discriminate.
  - intros Hb. rewrite in_app_iff. left.
    destruct b; try discriminate Hb; simpl; tauto.
  - rewrite in_app_iff. intros [H | H];
      [| apply in_rounds in H];
      destruct b; simpl in H; intuition discriminate.
Qed.

(** ** The grid a driver asks for *)


(** ** The code [main] returns *)

Lemma codes_ok (codes : list PetscErrorCode) :
  all_zero codes = true -> codes_outcome 0 codes.
Proof. intros H. left. now split. Qed.

Lemma codes_stopped (mid before : list PetscErrorCode) (e : PetscErrorCode) :
  all_zero mid = true -> all_zero before = true -> e <> 0 ->
  codes_outcome e (mid ++ before ++ [e]).
Proof.
  intros Hmid Hbefore He. right. split; [exact He|].
  exists (mid ++ before). split; [now rewrite app_assoc|].
  unfold all_zero in *. rewrite forallb_app.
  apply andb_true_intro. now split.
Qed.

Ltac codes_but_last l :=
  lazymatch l with
  | [_] => constr:(@nil PetscErrorCode)
  | ?k :: ?rest => let r := codes_but_last rest in constr:(k :: r)
  end.

Ltac codes_failed Hmid :=
  lazymatch goal with
  | |- codes_outcome ?e (?mid ++ ?l) =>
      let before := codes_but_last l in
      apply (@codes_stopped mid before e);
      [ exact Hmid | subst; reflexivity | assumption ]
  | |- codes_outcome ?e ?l =>
      let before := codes_but_last l in
      apply (@codes_stopped [] before e);
      [ reflexivity | subst; reflexivity | assumption ]
  end.

Ltac codes_driver Hw :=
  cbv zeta;
  repeat (step Hw (@checked_codes));
  try (cbn [returned]; codes_failed I);
  apply triple_seq;
  apply (triple_forLoop
           (fun (_ : nat) st s => all_zero s = true /\ fst st = 0));
  [ split; [subst; reflexivity | assumption]
  | let Hq := fresh "Hq" in
    intros ? ? ? ? [Hq _];
    repeat (step Hw (@checked_codes));
    cbn [after returned]; rewrite <- ?app_assoc; cbn [app];
    first [ codes_failed Hq
          | split; [unfold all_zero in *; rewrite forallb_app;
                    apply andb_true_intro; split;
                    [exact Hq | subst; reflexivity]
                   | assumption] ]
  | let Hq := fresh "Hq" in
    let Hst := fresh "Hst" in
    intros ? ? [Hq Hst]; cbn [after];
    repeat (step Hw (@checked_codes));
    try silent_loop Hw (@checked_codes);
    repeat (step Hw (@checked_codes));
    cbn [returned fst] in *; subst;
    apply codes_ok; exact Hq ].

Lemma codes_of_run {D} {ops : DoubleOps D} (w : @world D) (b : benchmark)
      gridType interpScheme Nt meshSize Lt g load myProperties :
  triple checked_codes w []
         (driver b gridType interpScheme Nt meshSize Lt g load myProperties)
         codes_outcome.
Proof.
  pose proof (respects_any checked_codes w) as Hw.
  destruct b; cbn [driver].
  - unfold sealedColumn. codes_driver Hw.
  - unfold terzaghi. codes_driver Hw.
  - unfold mandel. codes_driver Hw.
  - unfold convergence. codes_driver Hw.
  - unfold stripfoot. codes_driver Hw.
  - unfold terzaghiDouble. codes_driver Hw.
  - unfold stripfootDouble. codes_driver Hw.
  - unfold sealedDouble. codes_driver Hw.
  - unfold storageDouble. codes_driver Hw.
  - unfold leakingDouble. codes_driver Hw.
Qed.

Lemma codes_after (mid added : list PetscErrorCode) (r : PetscErrorCode) :
  all_zero mid = true -> codes_outcome r added ->
  (r = 0 -> all_zero (mid ++ added) = true) /\
  (r <> 0 -> codes_outcome r (mid ++ added)).
Proof.
  intros Hmid [[-> Hz] | [Hr (before & -> & Hb)]]; split; intros H;
    try contradiction.
  - unfold all_zero in *. rewrite forallb_app.
    apply andb_true_intro. now split.
  - now apply codes_stopped.
Qed.

Ltac main_codes Hw p :=
  cbv zeta; apply triple_function;
  apply (triple_call Hw); intros [|] _; cbv beta; norm_pre (@checked_codes);
  cbn [negb];
  [| apply triple_exit; left; split; reflexivity ];
  apply triple_seq, triple_ret; cbn [after];
  repeat (step Hw (@checked_codes));
  [| cbn [returned]; right; codes_failed I ];
  apply triple_seq;
  apply (triple_forEach_inv (fun s => all_zero s = true));
  [ subst; reflexivity
  | let Hm := fresh "Hm" in
    intros ? ? Hm;
    step Hw (@checked_codes);
    apply triple_callee;
    eapply triple_conseq;
    [ eapply triple_frame; let w' := fresh "w" in
      intros w';
      lazymatch goal with
      | |- triple _ _ _ (_ ?a1 ?a2 ?a3 ?a4 ?a5 ?a6 ?a7 ?a8) _ =>
          exact (codes_of_run w' (benchmark_of p) a1 a2 a3 a4 a5 a6 a7 a8)
      end |];
    let added := fresh "added" in
    let Hadded := fresh "Hadded" in
    intros ? ? (added & -> & Hadded); cbv beta;
    destruct (@codes_after _ _ _ Hm Hadded);
    apply triple_CHKERRQ_last;
    [auto | intros; cbn [after returned]; right; auto]
  | let Hm := fresh "Hm" in
    intros ? Hm; cbn [after];
    repeat (step Hw (@checked_codes));
    cbn [returned]; right;
    [ subst; apply codes_ok; unfold all_zero in *;
      rewrite forallb_app; apply andb_true_intro; split;
      [exact Hm | reflexivity]
    | lazymatch goal with
      | |- codes_outcome ?e (?mid ++ [?e]) =>
          apply (@codes_stopped mid [] e); [exact Hm | reflexivity | assumption]
      end ] ].

Lemma codes_of_main {D} {ops : DoubleOps D} (w : @world D) (p : program)
      myGridType myInterpScheme myMedium myProperties0 :
  triple checked_codes w []
         (main p myGridType myInterpScheme myMedium myProperties0)
         (fun r s => (r = 1 /\ s = []) \/ codes_outcome r s).
Proof.
  pose proof (respects_any checked_codes w) as Hw.
  destruct p; cbn [main].
  - unfold mainDimless. main_codes Hw MainDimless.
  - unfold mainDouble. main_codes Hw MainDouble.
Qed.


(** A run with a failing solve: [mainDimless] enters [terzaghi] once,
    the solve of its first round returns 71, and 71 is the status of the
    program; [PetscFinalize] is not called and nothing is exported. *)
Example failing_solve_ends_main :
  run_result (failing_world sample_file)
             (main MainDimless "staggered" "NA" "sample" sample_properties)
  = 71 /\
  observe checked_codes
          (run_trace (failing_world sample_file)
                     (main MainDimless "staggered" "NA" "sample"
                           sample_properties))
  = [0; 0; 0; 0; 0; 0; 71] /\
  map (fun e => match e with
                | Opened _ => 1 | Initialized _ => 2 | InfoWritten _ => 3
                | DriverEntered _ _ _ _ => 4 | Finalized _ => 5
                end)
      (observe main_events
               (run_trace (failing_world sample_file)
                          (main MainDimless "staggered" "NA" "sample"
                                sample_properties)))
  = [1; 2; 3; 4] /\
  observe exported_step
          (run_trace (failing_world sample_file)
                     (main MainDimless "staggered" "NA" "sample"
                           sample_properties))
  = [].
Proof. vm_compute. repeat split; reflexivity. Qed.

(** ** What the boundary tables prescribe *)

Ltac condition_holds :=
  cbv beta iota delta [condition_ok bc_code side_row];
  repeat split; intros;
  first [ discriminate
        | reflexivity
        | left; reflexivity
        | right; repeat split; reflexivity ].

Ltac conditions_hold :=
  cbv beta; unfold boundary_conditions_ok;
  eexists; eexists; split; [reflexivity|];
  split;
  [ cbn [conditions flat_map map combine List.seq length app];
    repeat (apply Forall_cons; [condition_holds|]); apply Forall_nil
  | repeat split; reflexivity ].

Lemma conditions_of_run {D} {ops : DoubleOps D} (w : @world D) (b : benchmark)
      gridType interpScheme Nt meshSize Lt g load myProperties :
  triple tables_passed w []
         (driver b gridType interpScheme Nt meshSize Lt g load myProperties)
         (fun _ s => boundary_conditions_ok b g load myProperties s).
Proof.
  pose proof (respects_any tables_passed w) as Hw.
  destruct b; cbn [driver has_extensions].
  - unfold sealedColumn. fixed_after_setup Hw (@tables_passed) conditions_hold.
  - unfold terzaghi. fixed_after_setup Hw (@tables_passed) conditions_hold.
  - unfold mandel. fixed_after_setup Hw (@tables_passed) conditions_hold.
  - unfold convergence. fixed_after_setup Hw (@tables_passed) conditions_hold.
  - unfold stripfoot. fixed_after_setup Hw (@tables_passed) conditions_hold.
  - unfold terzaghiDouble.
    fixed_after_setup Hw (@tables_passed) conditions_hold.
  - unfold stripfootDouble.
    fixed_after_setup Hw (@tables_passed) conditions_hold.
  - unfold sealedDouble. fixed_after_setup Hw (@tables_passed) conditions_hold.
  - unfold storageDouble.
    fixed_after_setup Hw (@tables_passed) conditions_hold.
  - unfold leakingDouble.
    fixed_after_setup Hw (@tables_passed) conditions_hold.
Qed.

(** X19.  In the boundary tables every driver hands to the two
    assemblers, every Dirichlet condition (type 1) prescribes the value
    0; every Neumann condition (type 0) prescribes [rho_f * g]; and
    every stress or flow condition (type -1) prescribes 0, except the
    vertical stress on the north side, which in the seven drivers
    without extensions is the load the driver was called with ([mandel],
    [stripfoot] and [stripfootDouble] leave it 0 and apply their load
    through their own methods).  In all ten drivers the vertical
    displacement is fixed on the south side and the horizontal
    displacement on the west side. *)
Theorem X19_boundary_values_match_types :
  forall (D : Type) (ops : DoubleOps D) (w : @world D) (b : benchmark)
         (gridType interpScheme : string) (Nt meshSize : Z)
         (Lt g load : D) (myProperties : poroelasticProperties D),
    boundary_conditions_ok b g load myProperties
      (observe tables_passed
               (run_trace w (driver b gridType interpScheme Nt meshSize Lt g
                                    load myProperties))).
Proof.
  intros.
  exact (triple_run (conditions_of_run w b gridType interpScheme Nt meshSize
                                       Lt g load myProperties)).
Qed.
